(** * Elevator ENQ simulator and serial monitor: a shallow embedding

    Sources embedded here:
    - [src/backend-cli/elevator_enq_sim.c]: the telegram codec
      ([calculate_checksum], [floor_to_hex], [send_enq]) and the scenario
      loop of [wmain];
    - [src/raspberryPi/product/serial_debug_test.c]: the receive loop of
      [monitor_serial].

    Conventions.  A C string is a [string]: the bytes in front of the
    terminating NUL.  An [int] is a [Z] in the 32-bit signed range, an
    [unsigned int] a [Z] reduced modulo [2^32].  Time is a [Z]: milliseconds
    for the simulator (the unit of [Sleep]), seconds for the monitor (the
    unit of [time]). *)

From Stdlib Require Import ZArith List String Ascii Bool Lia Arith.
Import ListNotations.

Local Open Scope string_scope.
Local Open Scope list_scope.
Local Open Scope Z_scope.

(** ** C integers and C strings *)

Module CInt.

Definition int_min : Z := - 2 ^ 31.
Definition int_max : Z := 2 ^ 31 - 1.
Definition uint_mod : Z := 2 ^ 32.

(** An [int] value. *)
Definition is_int (z : Z) : Prop := int_min <= z <= int_max.

(** Conversion of an [int] to [unsigned int], as done when an [int] is
    printed with [%X]. *)
Definition to_unsigned (z : Z) : Z := z mod uint_mod.

(** [unsigned int] addition. *)
Definition uadd (a b : Z) : Z := (a + b) mod uint_mod.

End CInt.

Module CStr.

(** [(unsigned char) c]. *)
Definition byte_val (c : ascii) : Z := Z.of_N (N_of_ascii c).

Definition is_nul (c : ascii) : bool := (byte_val c =? 0).

(** A well-formed C string: no NUL among its bytes. *)
Fixpoint no_nul (s : string) : bool :=
  match s with
  | EmptyString => true
  | String c r => negb (is_nul c) && no_nul r
  end.

(** What the [%s] conversion and [strcpy] read from a buffer: the bytes in front of the first NUL. *)
Fixpoint c_str (s : string) : string :=
  match s with
  | EmptyString => EmptyString
  | String c r => if is_nul c then EmptyString else String c (c_str r)
  end.

(** [strlen]. *)
Definition strlen (s : string) : nat := String.length (c_str s).

(** Sum of the byte values of a string, in unbounded arithmetic. *)
Fixpoint byte_sum (s : string) : Z :=
  match s with
  | EmptyString => 0
  | String c r => byte_val c + byte_sum r
  end.

Fixpoint replicate (n : nat) (c : ascii) : string :=
  match n with
  | O => EmptyString
  | S k => String c (replicate k c)
  end.

End CStr.

(** ** [printf]'s [%0wX] conversion *)

Module Fmt.

(** One uppercase hexadecimal digit. *)
Definition hex_char (d : Z) : ascii :=
  if d <? 10 then ascii_of_N (Z.to_N (48 + d))
  else ascii_of_N (Z.to_N (55 + d)).

(** The hexadecimal digits of an [unsigned int], most significant first,
    without leading zeros (one digit for zero).  The fuel is the number of
    digits still available: an [unsigned int] has at most eight. *)
Fixpoint hex_digits (fuel : nat) (v : Z) (acc : string) : string :=
  match fuel with
  | O => acc
  | S k =>
      let acc' := String (hex_char (v mod 16)) acc in
      if v / 16 =? 0 then acc' else hex_digits k (v / 16) acc'
  end.

(** Left padding with ['0'] up to the minimum field width. *)
Definition pad_zero (width : nat) (s : string) : string :=
  (CStr.replicate (width - String.length s) "0"%char ++ s)%string.

(** [sprintf(out, "%0<width>X", v)] for an [unsigned int] [v]. *)
Definition fmt_X (width : nat) (v : Z) : string :=
  pad_zero width (hex_digits 8 v EmptyString).

End Fmt.

(** ** The telegram codec ([elevator_enq_sim.c]) *)

(** [calculate_checksum]: the loop [while ( *data) sum += (unsigned char) *data++;]
    started from [sum]. *)
Fixpoint checksum_loop (data : string) (sum : Z) : Z :=
  match data with
  | EmptyString => sum
  | String c rest =>
      if CStr.is_nul c then sum
      else checksum_loop rest (CInt.uadd sum (CStr.byte_val c))
  end.

(** [calculate_checksum(data, out)]: the string left in [out]. *)
Definition calculate_checksum (data : string) : string :=
  let sum := checksum_loop data 0 in
  Fmt.fmt_X 2 (Z.land sum 255).

(** [floor_to_hex(floor, out)]: the string left in [out]. *)
Definition floor_to_hex (floor : Z) : string :=
  if floor =? -1 then "FFFF"
  else Fmt.fmt_X 4 (CInt.to_unsigned floor).

(** [floor_to_string]. *)
Definition floor_to_string (floor : Z) : string :=
  if floor =? -1 then "B1F"
  else if floor =? 1 then "1F"
  else if floor =? 2 then "2F"
  else if floor =? 3 then "3F"
  else "?".

(** The control byte ["\x05"]. *)
Definition ENQ : ascii := "005"%char.

Definition station : string := "0002".
Definition cmd : string := "W".

(** [sprintf(data_part, "%s%s%s%s", station, cmd, dataNum, dataValue)]. *)
Definition data_part (dataNum dataValue : string) : string :=
  (CStr.c_str station ++ CStr.c_str cmd
   ++ CStr.c_str dataNum ++ CStr.c_str dataValue)%string.

(** [sprintf(message, "\x05%s%s", data_part, checksum)]. *)
Definition message (dataNum dataValue : string) : string :=
  let dp := data_part dataNum dataValue in
  let checksum := calculate_checksum dp in
  String ENQ (CStr.c_str dp ++ CStr.c_str checksum)%string.

(** The bytes handed to [WriteFile(hSerial, message, strlen(message), ...)]. *)
Definition frame (dataNum dataValue : string) : string :=
  let message := message dataNum dataValue in
  String.substring 0 (CStr.strlen message) message.

(** Sizes of the buffers the callers hand to the functions above. *)
Definition cur_hex_size : nat := 5.
Definition data_part_size : nat := 64.
Definition message_size : nat := 80.

(** A string fits a [char] buffer when its terminating NUL does too. *)
Definition fits (s : string) (size : nat) : bool :=
  (String.length s + 1 <=? size)%nat.

(** ** The scenario loop of [wmain] ([elevator_enq_sim.c])

    The program talks to three things it does not control: the signal that
    clears [running], the generator behind [rand], and the serial port
    behind [WriteFile].  They are gathered in an environment.  Time advances
    in [Sleep] only, and a signal raised at instant [s] is seen by every
    read of [running] made at an instant [>= s]. *)

Record env : Type := mkEnv {
  sigint_at : option Z;      (* instant (ms) at which SIGINT or SIGTERM is raised *)
  rand_stream : nat -> nat;  (* successive results of [rand()], each in [0, RAND_MAX] *)
  write_ok : nat -> bool     (* whether the k-th call of [WriteFile] succeeds *)
}.

(** The [desc] argument of [send_enq], before it is rendered as text. *)
Inductive desc : Type :=
| DescCurrent (label : string) (k : Z)   (* "現在階: %s (%d/5)" *)
| DescTarget (label : string) (k : Z)    (* "行先階: %s (%d/5)" *)
| DescLoad (k : Z)                       (* "乗客降客: 1870kg (%d/5)" *)
| DescArrival (k : Z).                   (* "着床: クリア (%d/5)" *)

(** The lines written to the console. *)
Inductive line : Type :=
| LnScenario (cur_s tgt_s : string)
| LnWait3
| LnWait10
| LnSendError
| LnSent (ts : Z) (d : desc) (station dataValue checksum : string)
| LnArrived (tgt_s : string).

Inductive event : Type :=
| EvWrite (t : Z) (bytes : string) (ok : bool)  (* a call of [WriteFile] at instant [t] *)
| EvSleep (t : Z) (ms : Z)                      (* [Sleep(ms)] entered at instant [t] *)
| EvPrint (l : line).

(** The globals of the program and the history of its calls. *)
Record world : Type := mkWorld {
  running : bool;
  now : Z;
  rand_calls : nat;
  write_calls : nat;
  trace : list event
}.

Definition log (e : event) (w : world) : world :=
  mkWorld (running w) (now w) (rand_calls w) (write_calls w) (trace w ++ [e]).

Definition printf (l : line) (w : world) : world := log (EvPrint l) w.

(** [sigint_handler]: [running = 0]. *)
Definition sigint_handler (w : world) : world :=
  mkWorld false (now w) (rand_calls w) (write_calls w) (trace w).

Definition floors : list Z := [-1; 1; 2; 3].
Definition num_floors : nat := List.length floors.

Section Simulator.

Variable E : env.

Definition signal_due (t : Z) : bool :=
  match sigint_at E with
  | Some s => s <=? t
  | None => false
  end.

(** The handler runs as soon as its signal has been raised. *)
Definition deliver (w : world) : world :=
  if signal_due (now w) then sigint_handler w else w.

(** [Sleep(ms)]. *)
Definition Sleep (ms : Z) (w : world) : world :=
  let w1 := log (EvSleep (now w) ms) w in
  deliver (mkWorld (running w1) (now w1 + ms) (rand_calls w1) (write_calls w1) (trace w1)).

(** [rand()]. *)
Definition rand (w : world) : nat * world :=
  (rand_stream E (rand_calls w),
   mkWorld (running w) (now w) (S (rand_calls w)) (write_calls w) (trace w)).

(** [WriteFile(hSerial, bytes, ...)]: zero on failure. *)
Definition WriteFile (bytes : string) (w : world) : bool * world :=
  let ok := write_ok E (write_calls w) in
  (ok, mkWorld (running w) (now w) (rand_calls w) (S (write_calls w))
               (trace w ++ [EvWrite (now w) bytes ok])).

(** [send_enq(dataNum, dataValue, desc)]. *)
Definition send_enq (dataNum dataValue : string) (d : desc) (w : world) : world :=
  let dp := data_part dataNum dataValue in
  let checksum := calculate_checksum dp in
  let (ok, w1) := WriteFile (frame dataNum dataValue) w in
  if negb ok then printf LnSendError w1
  else printf (LnSent (now w1) d station dataValue checksum) w1.

(** [for (int i = i0; i < i0 + n && running; i++) body(i);] *)
Fixpoint for_running (n : nat) (i : Z) (body : Z -> world -> world) (w : world) : world :=
  match n with
  | O => w
  | S k => if running w then for_running k (i + 1) body (body i w) else w
  end.

(** [do { target_floor = floors[rand() % num_floors]; } while (target_floor == current_floor);]
    [None] when the fuel runs out before a different floor is drawn. *)
Fixpoint select_target (fuel : nat) (current_floor : Z) (w : world) : option (Z * world) :=
  match fuel with
  | O => None
  | S k =>
      let (r, w1) := rand w in
      let target_floor := nth (r mod num_floors)%nat floors 0 in
      if target_floor =? current_floor then select_target k current_floor w1
      else Some (target_floor, w1)
  end.

(** How one pass through the body of [while (running)] ends. *)
Inductive ctl : Type :=
| Continue (current_floor : Z) (w : world)   (* the end of the body is reached *)
| Break (current_floor : Z) (w : world)      (* [if (!running) break;] *)
| Spin (current_floor : Z) (w : world).      (* the selection has not ended yet *)

Definition burst (dataNum dataValue : string) (d : Z -> desc) (w : world) : world :=
  for_running 5 0
    (fun i w => Sleep 1000 (send_enq dataNum dataValue (d (i + 1)) w)) w.

Definition wait10 (w : world) : world :=
  for_running 10 0 (fun _ w => Sleep 1000 w) w.

(** The body of [while (running)]. *)
Definition scenario (fuel : nat) (current_floor : Z) (w : world) : ctl :=
  match select_target fuel current_floor w with
  | None => Spin current_floor w
  | Some (target_floor, w) =>
      let cur_s := CStr.c_str (floor_to_string current_floor) in
      let tgt_s := CStr.c_str (floor_to_string target_floor) in
      let w := printf (LnScenario cur_s tgt_s) w in
      let cur_hex := floor_to_hex current_floor in
      let w := burst "0001" cur_hex (DescCurrent cur_s) w in
      if negb (running w) then Break current_floor w else
      let w := Sleep 3000 (printf LnWait3 w) in
      let tgt_hex := floor_to_hex target_floor in
      let w := burst "0002" tgt_hex (DescTarget tgt_s) w in
      if negb (running w) then Break current_floor w else
      let w := Sleep 3000 (printf LnWait3 w) in
      let w := burst "0003" "074E" DescLoad w in
      if negb (running w) then Break current_floor w else
      let w := wait10 (printf LnWait10 w) in
      if negb (running w) then Break current_floor w else
      let w := burst "0002" "0000" DescArrival w in
      let current_floor := target_floor in
      let w := printf (LnArrived tgt_s) w in
      let w := wait10 (printf LnWait10 w) in
      Continue current_floor w
  end.

(** How a run of the loop is left: by the exit of the loop, or, in the
    model only, by the end of the fuel. *)
Inductive outcome : Type :=
| Exited (current_floor : Z) (w : world)
| OutOfFuel (current_floor : Z) (w : world).

(** [while (running) { scenario }]. *)
Fixpoint wmain_loop (fuel : nat) (current_floor : Z) (w : world) : outcome :=
  match fuel with
  | O => OutOfFuel current_floor w
  | S k =>
      if running w then
        match scenario (S k) current_floor w with
        | Continue cf w1 => wmain_loop k cf w1
        | Break cf w1 => Exited cf w1
        | Spin cf w1 => OutOfFuel cf w1
        end
      else Exited current_floor w
  end.

(** The world in which the loop is entered: [running] is initialised to 1
    and the handlers are installed before the port is opened. *)
Definition initial_world : world := deliver (mkWorld true 0 O O []).

(** [int start_floor = (argc >= 3 ? _wtoi(argv[2]) : 1);] where [argv2] is
    the integer read from the second argument, when there is one. *)
Definition start_floor (argv2 : option Z) : Z :=
  match argv2 with
  | Some z => z
  | None => 1
  end.

(** [wmain], from the point where the port is open. *)
Definition wmain (fuel : nat) (argv2 : option Z) : outcome :=
  wmain_loop fuel (start_floor argv2) initial_world.

End Simulator.

Definition ctl_floor (c : ctl) : Z :=
  match c with Continue cf _ | Break cf _ | Spin cf _ => cf end.

Definition ctl_world (c : ctl) : world :=
  match c with Continue _ w | Break _ w | Spin _ w => w end.

Definition outcome_floor (o : outcome) : Z :=
  match o with Exited cf _ | OutOfFuel cf _ => cf end.

Definition outcome_world (o : outcome) : world :=
  match o with Exited _ w | OutOfFuel _ w => w end.

Definition exited (o : outcome) : bool :=
  match o with Exited _ _ => true | OutOfFuel _ _ => false end.

(** *** Observations on a trace *)

(** What reaches the serial line and the clock: the writes and the sleeps. *)
Inductive wire : Type :=
| WSend (t : Z) (bytes : string)
| WSleep (t : Z) (ms : Z).

Definition wire_of (e : event) : list wire :=
  match e with
  | EvWrite t bytes _ => [WSend t bytes]
  | EvSleep t ms => [WSleep t ms]
  | EvPrint _ => []
  end.

Definition wires (tr : list event) : list wire := flat_map wire_of tr.

(** The timed telegrams of a trace. *)
Definition send_of (e : event) : list (Z * string) :=
  match e with
  | EvWrite t bytes _ => [(t, bytes)]
  | _ => []
  end.

Definition sends (tr : list event) : list (Z * string) := flat_map send_of tr.

(** The instant at which a call was entered, and the instant it was left. *)
Definition event_start (e : event) : option Z :=
  match e with
  | EvWrite t _ _ => Some t
  | EvSleep t _ => Some t
  | EvPrint _ => None
  end.

Definition event_end (e : event) : option Z :=
  match e with
  | EvWrite t _ _ => Some t
  | EvSleep t ms => Some (t + ms)
  | EvPrint _ => None
  end.

(** ** The receive loop of [monitor_serial] ([serial_debug_test.c]) *)

Module Monitor.

(** One pass through the body of [while (running)], as the environment
    decides it: what [read] returns and, when the clock is read in that
    pass, what [time(NULL)] returns (seconds). *)
Inductive tick : Type :=
| TkError                           (* [read] returns a negative value *)
| TkRead (buf : string) (now : Z).  (* [read] returns [length buf] bytes *)

(** The lines written to the console. *)
Inductive out : Type :=
| Received (ts : Z) (n : nat) (hexstr ascstr : string)
| Heartbeat (ts : Z).

(** [for (i = 0; i < n; i++) sprintf(hexstr + i*2, "%02X", buf[i]);] *)
Fixpoint hexstr (buf : string) : string :=
  match buf with
  | EmptyString => EmptyString
  | String b r => (CStr.c_str (Fmt.fmt_X 2 (CStr.byte_val b)) ++ hexstr r)%string
  end.

(** [ascstr[i] = (b >= 32 && b <= 126) ? b : '.';] *)
Definition printable (b : ascii) : ascii :=
  if (32 <=? CStr.byte_val b) && (CStr.byte_val b <=? 126) then b else "."%char.

Fixpoint ascstr (buf : string) : string :=
  match buf with
  | EmptyString => EmptyString
  | String b r => String (printable b) (ascstr r)
  end.

(** The body of the loop: the new value of [last_activity] and the lines
    printed. *)
Definition step (last_activity : Z) (tk : tick) : Z * list out :=
  match tk with
  | TkError => (last_activity, [])
  | TkRead buf now =>
      let n := String.length buf in
      if (0 <? n)%nat then
        (now, [Received now n (hexstr buf) (ascstr buf)])
      else if now - last_activity >? 10 then (now, [Heartbeat now])
      else (last_activity, [])
  end.

(** The loop, over the passes made before [running] is cleared. *)
Fixpoint monitor_loop (ticks : list tick) (last_activity : Z) : Z * list out :=
  match ticks with
  | [] => (last_activity, [])
  | tk :: rest =>
      let (la, o1) := step last_activity tk in
      let (la', o2) := monitor_loop rest la in
      (la', o1 ++ o2)
  end.

(** The instants the clock shows during a run, in order. *)
Fixpoint clocks (ticks : list tick) : list Z :=
  match ticks with
  | [] => []
  | TkError :: rest => clocks rest
  | TkRead _ now :: rest => now :: clocks rest
  end.

(** The clock never runs backwards from [t0] on. *)
Fixpoint monotone (t0 : Z) (ts : list Z) : Prop :=
  match ts with
  | [] => True
  | t :: rest => t0 <= t /\ monotone t rest
  end.

Fixpoint heartbeats (os : list out) : list Z :=
  match os with
  | [] => []
  | Heartbeat t :: rest => t :: heartbeats rest
  | Received _ _ _ _ :: rest => heartbeats rest
  end.

(** Successive instants more than [gap] apart, the first more than [gap]
    after [t0]. *)
Fixpoint spaced (gap t0 : Z) (ts : list Z) : Prop :=
  match ts with
  | [] => True
  | t :: rest => t - t0 > gap /\ spaced gap t rest
  end.

(** Every heartbeat comes more than [gap] after the line before it, the
    first line counted from [last]. *)
Fixpoint idle_before (gap last : Z) (os : list out) : Prop :=
  match os with
  | [] => True
  | Heartbeat t :: rest => t - last > gap /\ idle_before gap t rest
  | Received t _ _ _ :: rest => idle_before gap t rest
  end.

End Monitor.

(** ** Reference definitions, in the words of the specification *)

Module Spec.

(** The uppercase hexadecimal digit of a value below sixteen. *)
Definition upper_hex_digit (d : Z) : ascii :=
  match String.get (Z.to_nat d) "0123456789ABCDEF" with
  | Some c => c
  | None => "?"%char
  end.

(** The zero-padded encoding of [v] on exactly [n] hexadecimal digits. *)
Fixpoint hex_fixed (n : nat) (v : Z) : string :=
  match n with
  | O => EmptyString
  | S k => (hex_fixed k (v / 16) ++ String (upper_hex_digit (v mod 16)) EmptyString)%string
  end.

(** "(sum of byte values) mod 256, formatted as 2 uppercase hex digits
    (zero-padded)". *)
Definition checksum (dataPart : string) : string :=
  hex_fixed 2 (CStr.byte_sum dataPart mod 256).

(** "ENQ ‖ dataPart ‖ checksum". *)
Definition encode (stationId command dataNumber dataValue : string) : string :=
  let dataPart := (stationId ++ command ++ dataNumber ++ dataValue)%string in
  String ENQ (dataPart ++ checksum dataPart)%string.

(** "-1 → FFFF; any other integer f in the supported range → zero-padded
    4-hex-digit encoding of f as an unsigned 16-bit value". *)
Definition floorToHex (f : Z) : string :=
  if f =? -1 then "FFFF" else hex_fixed 4 (f mod 2 ^ 16).

(** The stages of one scenario cycle after the selection of the target. *)
Inductive stage : Type :=
| AnnounceCurrent
| AnnounceTarget
| PassengerLoad
| Arrival
| Wait (units : Z).

(** "AnnounceCurrent(5) → Wait(3) → AnnounceTarget(5) → Wait(3) →
    PassengerLoad(5) → Wait(10) → Arrival(5) → Wait(10), repeating". *)
Definition stage_order : list stage :=
  [AnnounceCurrent; Wait 3; AnnounceTarget; Wait 3;
   PassengerLoad; Wait 10; Arrival; Wait 10].

(** One time unit, in the unit of the simulator's clock. *)
Definition time_unit : Z := 1000.

(** Data number and data value of the telegram a stage repeats. *)
Definition stage_telegram (currentFloor targetFloor : Z) (s : stage)
  : option (string * string) :=
  match s with
  | AnnounceCurrent => Some ("0001", floor_to_hex currentFloor)
  | AnnounceTarget => Some ("0002", floor_to_hex targetFloor)
  | PassengerLoad => Some ("0003", "074E")
  | Arrival => Some ("0002", "0000")
  | Wait _ => None
  end.

(** Time units a stage lasts: a send stage makes five sends, each followed
    by a pause of one unit. *)
Definition stage_units (s : stage) : Z :=
  match s with
  | Wait n => n
  | _ => 5
  end.

(** The telegrams of a stage entered at instant [t0], with their instants:
    five sends, one time unit apart. *)
Definition stage_sends (currentFloor targetFloor t0 : Z) (s : stage)
  : list (Z * string) :=
  match stage_telegram currentFloor targetFloor s with
  | Some (dataNumber, dataValue) =>
      map (fun i => (t0 + time_unit * i, encode "0002" "W" dataNumber dataValue))
          [0; 1; 2; 3; 4]
  | None => []
  end.

(** The telegrams of a sequence of stages run one after the other. *)
Fixpoint schedule (currentFloor targetFloor t0 : Z) (stages : list stage)
  : list (Z * string) :=
  match stages with
  | [] => []
  | s :: rest =>
      stage_sends currentFloor targetFloor t0 s
      ++ schedule currentFloor targetFloor (t0 + time_unit * stage_units s) rest
  end.

Definition duration (stages : list stage) : Z :=
  fold_right (fun s acc => time_unit * stage_units s + acc) 0 stages.

End Spec.


(** ** Predicates on runs *)

Section RunPredicates.

Variable E : env.

(** No signal is raised up to instant [t]. *)
Definition quiet_until (t : Z) : Prop :=
  match sigint_at E with
  | Some s => t < s
  | None => True
  end.

(** The floor the next call of [rand] selects. *)
Definition drawn (w : world) : Z :=
  nth (rand_stream E (rand_calls w) mod num_floors)%nat floors 0.

(** A call entered before the signal was raised; a sleep is of one or of
    three time units. *)
Definition timely (e : event) : Prop :=
  match e with
  | EvWrite t _ _ => signal_due E t = false
  | EvSleep t ms => signal_due E t = false /\ (ms = 1000 \/ ms = 3000)
  | EvPrint _ => True
  end.

(** The handler has run whenever its signal is due, and every call of the
    history was entered before that. *)
Definition safe (w : world) : Prop :=
  (signal_due E (now w) = true -> running w = false)
  /\ Forall timely (trace w).

End RunPredicates.

(** A floor whose encoding fills the four-character data value. *)
Definition wire_floor (f : Z) : Prop := f = -1 \/ 0 <= f <= 65535.

(** A write of a 16-byte frame: ENQ, station "0002", command "W", two
    four-character fields, the two checksum digits. *)
Definition framed (e : event) : Prop :=
  match e with
  | EvWrite _ bytes _ =>
      exists dataNum dataValue,
        String.length dataNum = 4%nat /\ String.length dataValue = 4%nat
        /\ bytes = Spec.encode "0002" "W" dataNum dataValue
        /\ String.length bytes = 16%nat
  | _ => True
  end.

(** The history of [w'] continues the history of [w]. *)
Definition extends (w w' : world) : Prop :=
  exists l, trace w' = trace w ++ l.

(** From [w] to [w'] the flag stayed set, [dt] milliseconds went by and
    the telegrams [l] were written. *)
Definition advanced (w w' : world) (dt : Z) (l : list (Z * string)) : Prop :=
  running w' = true
  /\ now w' = now w + dt
  /\ sends (trace w') = sends (trace w) ++ l.

(** Two worlds that differ in the results of the writes and in the lines
    printed only. *)
Definition same_course (w1 w2 : world) : Prop :=
  running w1 = running w2
  /\ now w1 = now w2
  /\ rand_calls w1 = rand_calls w2
  /\ write_calls w1 = write_calls w2
  /\ wires (trace w1) = wires (trace w2).

Definition same_ctl (c1 c2 : ctl) : Prop :=
  match c1, c2 with
  | Continue f1 w1, Continue f2 w2 => f1 = f2 /\ same_course w1 w2
  | Break f1 w1, Break f2 w2 => f1 = f2 /\ same_course w1 w2
  | Spin f1 w1, Spin f2 w2 => f1 = f2 /\ same_course w1 w2
  | _, _ => False
  end.

Definition same_outcome (o1 o2 : outcome) : Prop :=
  exited o1 = exited o2
  /\ outcome_floor o1 = outcome_floor o2
  /\ same_course (outcome_world o1) (outcome_world o2).


(** The telegrams of the arrival stage among the timed telegrams of a run. *)
Definition arrival_sends (l : list (Z * string)) : list (Z * string) :=
  filter (fun p => String.eqb (snd p) (frame "0002" "0000")) l.

(** ** Sample environments *)

(** The generator always selects floor 2 and no write fails; the signal is
    raised at instant [s]. *)
Definition env_signal_at (s : Z) : env :=
  mkEnv (Some s) (fun _ => 2%nat) (fun _ => true).

(** The same without a signal, the write number [k] failing. *)
Definition env_write_fails (k : nat) : env :=
  mkEnv None (fun _ => 2%nat) (fun i => negb (Nat.eqb i k)).

(** ** Further definitions: decoding of hexadecimal fields *)

Module Hex.

(** The value of an uppercase hexadecimal digit. *)
Definition digit_value (c : ascii) : Z :=
  let n := CStr.byte_val c in
  if n <? 58 then n - 48 else n - 55.

(** The value of a string of hexadecimal digits, most significant first,
    continued from [acc]. *)
Fixpoint decode_from (s : string) (acc : Z) : Z :=
  match s with
  | EmptyString => acc
  | String c r => decode_from r (16 * acc + digit_value c)
  end.

Definition decode (s : string) : Z := decode_from s 0.

(** The bytes of a hexadecimal dump, two digits for each. *)
Fixpoint unhex (s : string) : string :=
  match s with
  | String a (String b r) =>
      String (ascii_of_N (Z.to_N (16 * digit_value a + digit_value b))) (unhex r)
  | _ => EmptyString
  end.

End Hex.

(** [char cur_s[4], tgt_s[4];] *)
Definition label_size : nat := 4.

(** ** Further predicates on runs *)

(** Telegram [a] was written at least one second before telegram [b]. *)
Definition apart (a b : Z * string) : Prop := fst a + 1000 <= fst b.

(** Among any [K] successive draws of the generator there is, for every
    floor, one that selects another floor. *)
Definition draws_within (E : env) (K : nat) : Prop :=
  forall n cf, exists k,
    (k < K)%nat /\ nth (rand_stream E (n + k) mod num_floors)%nat floors 0 <> cf.

(** The clock has not passed the signal by three seconds or more. *)
Definition on_time (E : env) (w : world) : Prop :=
  match sigint_at E with
  | Some s => now w = 0 \/ now w < s + 3000
  | None => True
  end.

(** Length of one full pass through the loop body, in milliseconds. *)
Definition cycle_ms : Z := 46000.

(** Every telegram of the list is [apart] from all the later ones. *)
Fixpoint pairwise_apart (l : list (Z * string)) : Prop :=
  match l with
  | [] => True
  | a :: rest => Forall (apart a) rest /\ pairwise_apart rest
  end.

(** The telegrams so far are paced, the last one a second ago or more. *)
Definition paced (w : world) : Prop :=
  pairwise_apart (sends (trace w))
  /\ Forall (fun a => fst a + 1000 <= now w) (sends (trace w)).

(** The flag is cleared by the signal only. *)
Definition flag_cause (E : env) (w : world) : Prop :=
  running w = true \/ signal_due E (now w) = true.

(** What holds of the world all along a run. *)
Definition well_timed (E : env) (w : world) : Prop :=
  safe E w /\ on_time E w /\ flag_cause E w.

(** A generator that goes through the floors in turn; no write fails. *)
Definition env_cycling (sig : option Z) : env :=
  mkEnv sig (fun i => i) (fun _ => true).

(** ** The start of [wmain]: port name and [init_serial] ([elevator_enq_sim.c]) *)

Module Win.

(** A wide string: the [wchar_t] units in front of the terminating NUL. *)
Definition wstring : Type := list Z.

(** [L"\\\\.\\"], the four units of the device prefix. *)
Definition device_prefix : wstring := [92; 92; 46; 92].

(** [L"\\\\.\\COM31"]. *)
Definition default_port : wstring := device_prefix ++ [67; 79; 77; 51; 49].

(** [wcsncmp(a, b, n) == 0]: the first [n] units agree, or both strings
    end together before that. *)
Fixpoint wcsncmp_eq (n : nat) (a b : wstring) : bool :=
  match n with
  | O => true
  | S k =>
      match a, b with
      | [], [] => true
      | x :: a', y :: b' => (x =? y) && wcsncmp_eq k a' b'
      | _, _ => false
      end
  end.

(** [wchar_t fullPort[64];] *)
Definition fullPort_size : nat := 64.

Definition wfits (s : wstring) (size : nat) : bool :=
  (List.length s + 1 <=? size)%nat.

(** [swprintf(buf, size, ...)] of a text: the text when it fits [buf]
    with its NUL, its first [size - 1] units otherwise. *)
Definition swprintf (size : nat) (text : wstring) : wstring :=
  firstn (size - 1) text.

(** The port name left in [fullPort]: [argv[1]] as it is when it starts
    with the device prefix ([wcscpy], which has no bound: a name that does
    not pass [wfits] is written beyond the buffer), the prefix followed by
    [argv[1]] as far as the buffer holds it otherwise
    ([swprintf(fullPort, 64, ...)]), the default without [argv[1]]. *)
Definition full_port (argv1 : option wstring) : wstring :=
  match argv1 with
  | Some a =>
      if wcsncmp_eq 4 a device_prefix then a
      else swprintf fullPort_size (device_prefix ++ a)
  | None => default_port
  end.

(** The fields of the [DCB] that [init_serial] writes, and the others. *)
Record DCB : Type := mkDCB {
  DCBlength : Z;
  BaudRate : Z;
  ByteSize : Z;
  Parity : Z;
  StopBits : Z;
  other_fields : list Z
}.

Record COMMTIMEOUTS : Type := mkTimeouts {
  ReadIntervalTimeout : Z;
  ReadTotalTimeoutConstant : Z;
  ReadTotalTimeoutMultiplier : Z;
  WriteTotalTimeoutConstant : Z;
  WriteTotalTimeoutMultiplier : Z
}.

(** Constants of the Windows headers, which the sources do not hold. *)
Record consts : Type := mkConsts {
  CBR_9600 : Z;
  EVENPARITY : Z;
  ONESTOPBIT : Z
}.

(** What the system answers to the calls of [init_serial]. *)
Record port_os : Type := mkPortOs {
  CreateFileW : wstring -> bool;          (* a valid handle is returned *)
  GetCommState : option DCB;              (* what the call leaves in [dcb], unless it fails *)
  SetCommState : DCB -> bool;
  SetCommTimeouts : COMMTIMEOUTS -> bool
}.

(** The calls made on the port and the lines printed about it. *)
Inductive call : Type :=
| CallCreateFile (port : wstring) (ok : bool)
| CallGetCommState (ok : bool)
| CallSetCommState (dcb : DCB) (ok : bool)
| CallSetCommTimeouts (t : COMMTIMEOUTS)
| CallCloseHandle
| PrintError            (* one of the three error lines, on [stderr] *)
| PrintConnected (port : wstring)
| PrintDisconnected.

Section Init.

Variable C : consts.
Variable O : port_os.

(** [init_serial(portName)]: the value returned, whether [hSerial] holds a
    valid handle afterwards, and the calls made. *)
Definition init_serial (portName : wstring) : bool * bool * list call :=
  if negb (CreateFileW O portName) then
    (false, false, [CallCreateFile portName false; PrintError])
  else
    match GetCommState O with
    | None =>
        (false, true,
         [CallCreateFile portName true; CallGetCommState false; PrintError])
    | Some read =>
        let dcb := mkDCB (DCBlength read) (CBR_9600 C) 8 (EVENPARITY C) (ONESTOPBIT C)
                         (other_fields read) in
        if negb (SetCommState O dcb) then
          (false, true,
           [CallCreateFile portName true; CallGetCommState true;
            CallSetCommState dcb false; PrintError])
        else
          let timeouts := mkTimeouts 50 50 10 50 10 in
          (true, true,
           [CallCreateFile portName true; CallGetCommState true;
            CallSetCommState dcb true; CallSetCommTimeouts timeouts;
            PrintConnected portName])
    end.

(** How [wmain] ends: with a value returned, or, in the model only, with
    the loop still going when the fuel is out. *)
Inductive ending : Type :=
| Returned (code : Z)
| StillRunning.

(** [wmain(argc, argv)]: the port name is completed, the port opened and
    set up, the scenario loop run, the handle closed.  The result holds the
    ending, the calls made on the port, and the outcome of the loop when it
    was entered. *)
Definition wmain_program (E : env) (fuel : nat)
    (argv1 : option wstring) (argv2 : option Z)
  : ending * list call * option outcome :=
  let portW := full_port argv1 in
  let '(ok, valid, calls) := init_serial portW in
  if negb ok then (Returned 1, calls, None)
  else
    let o := wmain E fuel argv2 in
    if exited o then
      if valid then (Returned 0, calls ++ [CallCloseHandle; PrintDisconnected], Some o)
      else (Returned 0, calls, Some o)
    else (StillRunning, calls, Some o).

End Init.

(** The handle is open after these calls: it was returned by [CreateFileW]
    and not closed since. *)
Fixpoint handle_open (calls : list call) (is_open : bool) : bool :=
  match calls with
  | [] => is_open
  | CallCreateFile _ ok :: rest => handle_open rest ok
  | CallCloseHandle :: rest => handle_open rest false
  | _ :: rest => handle_open rest is_open
  end.

(** Values of the Windows headers. *)
Definition windows_consts : consts := mkConsts 9600 2 0.

(** A port that opens and can be set up. *)
Definition port_ready : port_os :=
  mkPortOs (fun _ => true) (Some (mkDCB 28 1200 7 0 2 [1; 0; 17; 19]))
           (fun _ => true) (fun _ => true).

(** A port that opens but refuses its settings. *)
Definition port_refusing : port_os :=
  mkPortOs (fun _ => true) (Some (mkDCB 28 1200 7 0 2 [1; 0; 17; 19]))
           (fun _ => false) (fun _ => true).

End Win.

(** ** The serial port of the monitor ([serial_debug_test.c]) *)

Module Posix.

(** Constants and speed setters of the system headers and library, which
    the sources do not hold. *)
Record termios : Type := mkTermios {
  c_iflag : Z;
  c_oflag : Z;
  c_cflag : Z;
  c_lflag : Z;
  c_cc : list Z;
  speeds : Z * Z           (* input and output speed *)
}.

Record consts : Type := mkConsts {
  O_RDWR : Z;
  O_NOCTTY : Z;
  O_NONBLOCK : Z;
  CSIZE : Z;
  CS8 : Z;
  PARENB : Z;
  PARODD : Z;
  CSTOPB : Z;
  B9600 : Z;
  VMIN : nat;
  VTIME : nat;
  cfsetispeed : termios -> Z -> termios;
  cfsetospeed : termios -> Z -> termios
}.

(** What the system answers to the calls of [open_serial]. *)
Record os : Type := mkOs {
  sys_open : string -> Z -> Z;             (* a descriptor, or a negative value *)
  sys_tcgetattr : Z -> option termios;     (* the settings read, unless the call fails *)
  sys_tcsetattr : Z -> termios -> bool     (* the call succeeds *)
}.

(** The lines printed by the program. *)
Inductive line : Type :=
| LnOpenFailed (port : string)
| LnMonitorStart (port : string)
| LnMonitorEnd
| LnSearching
| LnPortOk (port : string)
| LnPortFailed (port : string)
| LnUsage
| LnBlank
| LnOut (o : Monitor.out).

Inductive call : Type :=
| SysOpen (port : string) (flags : Z) (fd : Z)
| SysFcntl (fd : Z)
| SysTcgetattr (fd : Z) (ok : bool)
| SysTcsetattr (fd : Z) (tio : termios) (ok : bool)
| SysRead (fd : Z)
| SysUsleep (us : Z)
| SysClose (fd : Z)
| Print (l : line).

(** [a[i] = v] on an array held as a list. *)
Fixpoint store (i : nat) (v : Z) (a : list Z) : list Z :=
  match a, i with
  | [], _ => []
  | _ :: r, O => v :: r
  | x :: r, S k => x :: store k v r
  end.

Section OpenSerial.

Variable C : consts.
Variable S : os.

(** [O_RDWR | O_NOCTTY | (nonblock ? O_NONBLOCK : 0)]. *)
Definition open_flags (nonblock : bool) : Z :=
  Z.lor (Z.lor (O_RDWR C) (O_NOCTTY C)) (if nonblock then O_NONBLOCK C else 0).

(** The five assignments to [tio.c_cflag]. *)
Definition set_cflag (cflag : Z) : Z :=
  let f := Z.land cflag (Z.lnot (CSIZE C)) in
  let f := Z.lor f (CS8 C) in
  let f := Z.lor f (PARENB C) in
  let f := Z.land f (Z.lnot (PARODD C)) in
  Z.land f (Z.lnot (CSTOPB C)).

(** The settings written back by [open_serial], from those read. *)
Definition configure (tio : termios) : termios :=
  let tio := cfsetispeed C tio (B9600 C) in
  let tio := cfsetospeed C tio (B9600 C) in
  mkTermios 0 0 (set_cflag (c_cflag tio)) 0
            (store (VTIME C) 5 (store (VMIN C) 16 (c_cc tio)))
            (speeds tio).

(** [open_serial(portname, nonblock)]: the value returned and the calls
    made. *)
Definition open_serial (portname : string) (nonblock : bool) : Z * list call :=
  let flags := open_flags nonblock in
  let fd := sys_open S portname flags in
  if fd <? 0 then (-1, [SysOpen portname flags fd])
  else if negb nonblock then
    match sys_tcgetattr S fd with
    | None =>
        (-1, [SysOpen portname flags fd; SysFcntl fd;
              SysTcgetattr fd false; SysClose fd])
    | Some tio =>
        let tio := configure tio in
        if negb (sys_tcsetattr S fd tio) then
          (-1, [SysOpen portname flags fd; SysFcntl fd; SysTcgetattr fd true;
                SysTcsetattr fd tio false; SysClose fd])
        else
          (fd, [SysOpen portname flags fd; SysFcntl fd; SysTcgetattr fd true;
                SysTcsetattr fd tio true])
    end
  else (fd, [SysOpen portname flags fd]).

(** The ports [test_serial_ports] tries. *)
Definition ports : list string :=
  ["/dev/ttyUSB0"; "/dev/ttyUSB1"; "/dev/ttyAMA0"; "/dev/serial0"; "/dev/ttyS0"].

(** The body of the loop of [test_serial_ports]. *)
Definition probe (port : string) : list call :=
  let (fd, calls) := open_serial port true in
  if 0 <=? fd then calls ++ [Print (LnPortOk port); SysClose fd]
  else calls ++ [Print (LnPortFailed port)].

(** [test_serial_ports()]. *)
Definition test_serial_ports : list call :=
  Print LnSearching :: flat_map probe ports.

(** The calls of the loop of [monitor_serial] on descriptor [fd], over the
    passes made before [running] is cleared. *)
Fixpoint monitor_passes (fd : Z) (ticks : list Monitor.tick) (last_activity : Z)
  : list call :=
  match ticks with
  | [] => []
  | tk :: rest =>
      let (la, outs) := Monitor.step last_activity tk in
      SysRead fd
      :: match tk with
         | Monitor.TkError => [SysUsleep 100000]
         | Monitor.TkRead _ _ => map (fun o => Print (LnOut o)) outs
         end
      ++ monitor_passes fd rest la
  end.

(** [monitor_serial(port)], with [t0] the clock when the loop is reached. *)
Definition monitor_serial (port : string) (t0 : Z) (ticks : list Monitor.tick)
  : list call :=
  let (fd, calls) := open_serial port false in
  if fd <? 0 then calls ++ [Print (LnOpenFailed port)]
  else
    calls ++ [Print (LnMonitorStart port)]
    ++ monitor_passes fd ticks t0
    ++ [Print LnMonitorEnd; SysClose fd].

(** [main(argc, argv)]: the value returned and the calls made. *)
Definition main (argv1 : option string) (t0 : Z) (ticks : list Monitor.tick)
  : Z * list call :=
  match argv1 with
  | Some a =>
      if String.eqb a "test" then (0, test_serial_ports)
      else (0, monitor_serial a t0 ticks)
  | None =>
      (0, [Print LnUsage] ++ test_serial_ports ++ [Print LnBlank]
          ++ monitor_serial "/dev/ttyUSB0" t0 ticks)
  end.

End OpenSerial.

(** The descriptor in use after a sequence of calls, starting from [cur]:
    [None] as soon as a call is made on a descriptor that is not the open
    one, or a descriptor is opened while another is open. *)
Fixpoint descriptor (calls : list call) (cur : option Z) : option (option Z) :=
  match calls with
  | [] => Some cur
  | c :: rest =>
      match c, cur with
      | SysOpen _ _ fd, None => descriptor rest (if fd <? 0 then None else Some fd)
      | SysOpen _ _ _, Some _ => None
      | SysFcntl fd, Some o
      | SysTcgetattr fd _, Some o
      | SysTcsetattr fd _ _, Some o
      | SysRead fd, Some o => if fd =? o then descriptor rest cur else None
      | SysClose fd, Some o => if fd =? o then descriptor rest None else None
      | SysUsleep _, _ | Print _, _ => descriptor rest cur
      | _, None => None
      end
  end.

(** The settings written by the calls. *)
Fixpoint settings_written (calls : list call) : list termios :=
  match calls with
  | [] => []
  | SysTcsetattr _ tio _ :: rest => tio :: settings_written rest
  | _ :: rest => settings_written rest
  end.

(** Constants of the Linux headers; the speed setters as in a library that
    keeps the speeds apart from the flags. *)
Definition linux : consts :=
  mkConsts 2 256 2048 48 48 256 512 64 13 6 5
           (fun tio s => mkTermios (c_iflag tio) (c_oflag tio) (c_cflag tio)
                                   (c_lflag tio) (c_cc tio) (s, snd (speeds tio)))
           (fun tio s => mkTermios (c_iflag tio) (c_oflag tio) (c_cflag tio)
                                   (c_lflag tio) (c_cc tio) (fst (speeds tio), s)).

(** A system on which only "/dev/ttyUSB0" exists. *)
Definition one_port : os :=
  mkOs (fun port _ => if String.eqb port "/dev/ttyUSB0" then 3 else -1)
       (fun _ => Some (mkTermios 1280 5 3261 35387 (repeat 0 32) (15, 15)))
       (fun _ _ => true).

End Posix.

(** The flag masks of [set_cflag] do not overlap, and [CS8] lies within
    [CSIZE]. *)
Definition masks_apart (C : Posix.consts) : Prop :=
  Z.land (Posix.CS8 C) (Posix.CSIZE C) = Posix.CS8 C
  /\ Z.land (Posix.PARENB C) (Posix.CSIZE C) = 0
  /\ Z.land (Posix.PARODD C) (Posix.CSIZE C) = 0
  /\ Z.land (Posix.CSTOPB C) (Posix.CSIZE C) = 0
  /\ Z.land (Posix.PARENB C) (Posix.PARODD C) = 0
  /\ Z.land (Posix.PARENB C) (Posix.CSTOPB C) = 0.

(** The bits written by [set_cflag]. *)
Definition cflag_mask (C : Posix.consts) : Z :=
  Z.lor (Z.lor (Posix.CSIZE C) (Posix.PARENB C))
        (Z.lor (Posix.PARODD C) (Posix.CSTOPB C)).

(** The ports opened by a sequence of calls, and the result lines printed. *)
Fixpoint ports_opened (calls : list Posix.call) : list (string * Z) :=
  match calls with
  | [] => []
  | Posix.SysOpen port flags _ :: rest => (port, flags) :: ports_opened rest
  | _ :: rest => ports_opened rest
  end.

Fixpoint lines_printed (calls : list Posix.call) : list Posix.line :=
  match calls with
  | [] => []
  | Posix.Print l :: rest => l :: lines_printed rest
  | _ :: rest => lines_printed rest
  end.

Fixpoint reads_made (calls : list Posix.call) : nat :=
  match calls with
  | [] => O
  | Posix.SysRead _ :: rest => S (reads_made rest)
  | _ :: rest => reads_made rest
  end.

Fixpoint backoffs (calls : list Posix.call) : nat :=
  match calls with
  | [] => O
  | Posix.SysUsleep _ :: rest => S (backoffs rest)
  | _ :: rest => backoffs rest
  end.

Fixpoint read_errors (ticks : list Monitor.tick) : nat :=
  match ticks with
  | [] => O
  | Monitor.TkError :: rest => S (read_errors rest)
  | Monitor.TkRead _ _ :: rest => read_errors rest
  end.

(** The line [test_serial_ports] prints about one port. *)
Definition probe_line (C : Posix.consts) (S : Posix.os) (port : string) : Posix.line :=
  if 0 <=? Posix.sys_open S port (Posix.open_flags C true)
  then Posix.LnPortOk port else Posix.LnPortFailed port.

(** ** Further definitions on the receive monitor *)

(** [unsigned char buf[256]; char hexstr[256*2+1]; char ascstr[256+1];] *)
Definition buf_size : nat := 256.
Definition hexstr_size : nat := 513.
Definition ascstr_size : nat := 257.

(** Every byte of the string is a printable character, 0x20 to 0x7E. *)
Fixpoint all_printable (s : string) : bool :=
  match s with
  | EmptyString => true
  | String c r =>
      (32 <=? CStr.byte_val c) && (CStr.byte_val c <=? 126) && all_printable r
  end.

(** The passes in which [read] did not fail. *)
Fixpoint without_errors (ticks : list Monitor.tick) : list Monitor.tick :=
  match ticks with
  | [] => []
  | Monitor.TkError :: rest => without_errors rest
  | tk :: rest => tk :: without_errors rest
  end.

(** The lines about received data, and those the reads with data call for. *)
Fixpoint received (os : list Monitor.out) : list Monitor.out :=
  match os with
  | [] => []
  | Monitor.Heartbeat _ :: rest => received rest
  | o :: rest => o :: received rest
  end.

Fixpoint data_lines (ticks : list Monitor.tick) : list Monitor.out :=
  match ticks with
  | [] => []
  | Monitor.TkRead (String b r) now :: rest =>
      Monitor.Received now (String.length (String b r))
        (Monitor.hexstr (String b r)) (Monitor.ascstr (String b r))
      :: data_lines rest
  | _ :: rest => data_lines rest
  end.

(** ** The wait stages, the successive cycles and the results of the writes *)






(** The telegrams of successive cycles that start at instant [t0] on floor
    [currentFloor] and go to the floors [targets] one after the other: the
    stage order, "repeating". *)
Fixpoint cycles (currentFloor t0 : Z) (targets : list Z) : list (Z * string) :=
  match targets with
  | [] => []
  | targetFloor :: rest =>
      Spec.schedule currentFloor targetFloor t0 Spec.stage_order
      ++ cycles targetFloor (t0 + Spec.duration Spec.stage_order) rest
  end.

(** Every floor of the list belongs to the floor set and differs from the
    floor before it, the first from [from]. *)
Fixpoint moves (from : Z) (targets : list Z) : Prop :=
  match targets with
  | [] => True
  | t :: rest => In t floors /\ t <> from /\ moves t rest
  end.

(** The results of the writes of a trace, in order. *)
Definition result_of (e : event) : list bool :=
  match e with
  | EvWrite _ _ ok => [ok]
  | _ => []
  end.

Definition results (tr : list event) : list bool := flat_map result_of tr.

(** Every call of [WriteFile] is in the history, with the result the port
    gave it. *)
Definition write_log (E : env) (w : world) : Prop :=
  write_calls w = List.length (sends (trace w))
  /\ results (trace w) = map (write_ok E) (seq 0 (write_calls w)).

(** No signal, a generator that goes through the floors in turn, and a port
    on which every write fails. *)
Definition env_writes_fail : env :=
  mkEnv None (fun i => i) (fun _ => false).

(** * Properties *)

(** ** Strings *)

Lemma length_append (a b : string) :
  String.length (a ++ b)%string = (String.length a + String.length b)%nat.
Proof. induction a as [|c a IH]; simpl; [reflexivity | now rewrite IH]. Qed.

Lemma append_nil_r (a : string) : (a ++ "")%string = a.
Proof. induction a as [|c a IH]; simpl; [reflexivity | now rewrite IH]. Qed.

Lemma append_assoc (a b c : string) :
  ((a ++ b) ++ c)%string = (a ++ (b ++ c))%string.
Proof. induction a as [|x a IH]; simpl; [reflexivity | now rewrite IH]. Qed.

Lemma replicate_snoc n c :
  (CStr.replicate n c ++ String c "")%string = CStr.replicate (S n) c.
Proof. induction n; simpl; [reflexivity | now rewrite IHn]. Qed.

Lemma c_str_no_nul s : CStr.no_nul s = true -> CStr.c_str s = s.
Proof.
  induction s as [|c s IH]; simpl; [reflexivity|].
  intros H. apply andb_true_iff in H. destruct H as [Hc Hs].
  destruct (CStr.is_nul c); [discriminate | now rewrite IH].
Qed.

Lemma no_nul_c_str s : CStr.no_nul (CStr.c_str s) = true.
Proof.
  induction s as [|c s IH]; simpl; [reflexivity|].
  destruct (CStr.is_nul c) eqn:Hc; simpl; [reflexivity | now rewrite Hc].
Qed.

Lemma no_nul_append a b :
  CStr.no_nul (a ++ b) = CStr.no_nul a && CStr.no_nul b.
Proof.
  induction a as [|c a IH]; simpl; [reflexivity|].
  now rewrite IH, andb_assoc.
Qed.

(** ** Hexadecimal formatting *)

Lemma hex_char_digit d :
  0 <= d < 16 -> Fmt.hex_char d = Spec.upper_hex_digit d.
Proof.
  intros H.
  assert (Hd : d = 0 \/ d = 1 \/ d = 2 \/ d = 3 \/ d = 4 \/ d = 5 \/ d = 6 \/ d = 7
          \/ d = 8 \/ d = 9 \/ d = 10 \/ d = 11 \/ d = 12 \/ d = 13 \/ d = 14 \/ d = 15)
    by lia.
  repeat (destruct Hd as [-> | Hd]; [reflexivity|]). subst d. reflexivity.
Qed.

Lemma length_hex_fixed n v : String.length (Spec.hex_fixed n v) = n.
Proof.
  revert v. induction n as [|n IH]; intros v; simpl; [reflexivity|].
  rewrite length_append, IH. simpl. lia.
Qed.

Lemma hex_fixed_zero n : Spec.hex_fixed n 0 = CStr.replicate n "0"%char.
Proof.
  induction n as [|n IH]; [reflexivity|].
  change (Spec.hex_fixed (S n) 0)
    with (Spec.hex_fixed n 0 ++ String "0"%char "")%string.
  rewrite IH. apply replicate_snoc.
Qed.

(** Leading zeros: a value that fits [k] digits, written on [j + k]. *)
Lemma hex_fixed_pad j k : forall v,
  0 <= v < 16 ^ Z.of_nat k ->
  Spec.hex_fixed (j + k) v = (CStr.replicate j "0"%char ++ Spec.hex_fixed k v)%string.
Proof.
  induction k as [|k IH]; intros v Hv.
  - simpl in Hv. assert (v = 0) by lia. subst v.
    rewrite Nat.add_0_r, hex_fixed_zero. simpl. now rewrite append_nil_r.
  - rewrite Nat.add_succ_r. simpl Spec.hex_fixed.
    rewrite IH, append_assoc; [reflexivity|].
    rewrite Nat2Z.inj_succ, Z.pow_succ_r in Hv by lia.
    split; [apply Z.div_pos; lia | apply Z.div_lt_upper_bound; lia].
Qed.

(** [hex_digits] writes the shortest fixed-width encoding that holds [v]. *)
Lemma hex_digits_fixed fuel : forall v acc,
  (1 <= fuel)%nat -> 0 <= v < 16 ^ Z.of_nat fuel ->
  exists k, (1 <= k <= fuel)%nat
    /\ Fmt.hex_digits fuel v acc = (Spec.hex_fixed k v ++ acc)%string
    /\ (k = 1%nat \/ 16 ^ (Z.of_nat k - 1) <= v)
    /\ v < 16 ^ Z.of_nat k.
Proof.
  induction fuel as [|fuel IH]; intros v acc Hf Hv; [lia|].
  rewrite Nat2Z.inj_succ, Z.pow_succ_r in Hv by lia.
  simpl Fmt.hex_digits.
  assert (Hm : 0 <= v mod 16 < 16) by (apply Z.mod_pos_bound; lia).
  assert (Hq : 0 <= v / 16 < 16 ^ Z.of_nat fuel)
    by (split; [apply Z.div_pos; lia | apply Z.div_lt_upper_bound; lia]).
  assert (Hdm : v = 16 * (v / 16) + v mod 16) by (apply Z.div_mod; lia).
  destruct (v / 16 =? 0) eqn:Hz.
  - apply Z.eqb_eq in Hz. exists 1%nat. simpl.
    rewrite hex_char_digit by assumption.
    repeat split; lia.
  - apply Z.eqb_neq in Hz.
    assert (Hfuel : (1 <= fuel)%nat).
    { destruct fuel; [simpl in Hq; lia | lia]. }
    destruct (IH (v / 16) (String (Fmt.hex_char (v mod 16)) acc) Hfuel Hq)
      as (k & Hk & Heq & Hlo & Hhi).
    exists (S k). rewrite Heq. simpl Spec.hex_fixed.
    rewrite append_assoc, hex_char_digit by assumption.
    split; [lia|]. split; [reflexivity|].
    rewrite Nat2Z.inj_succ, Z.pow_succ_r by lia.
    split; [|lia].
    right. replace (Z.succ (Z.of_nat k) - 1) with (Z.of_nat k) by lia.
    destruct Hlo as [-> | Hlo]; [simpl; lia|].
    replace (Z.of_nat k) with (Z.succ (Z.of_nat k - 1)) by lia.
    rewrite Z.pow_succ_r by lia. lia.
Qed.

(** A value that fits the field width is printed on exactly that width. *)
Lemma fmt_X_fits w v :
  (1 <= w <= 8)%nat -> 0 <= v < 16 ^ Z.of_nat w ->
  Fmt.fmt_X w v = Spec.hex_fixed w v.
Proof.
  intros Hw Hv. unfold Fmt.fmt_X, Fmt.pad_zero.
  assert (H8 : 0 <= v < 16 ^ Z.of_nat 8).
  { split; [lia|]. apply Z.lt_le_trans with (16 ^ Z.of_nat w); [lia|].
    apply Z.pow_le_mono_r; lia. }
  destruct (hex_digits_fixed 8 v "" ltac:(lia) H8) as (k & Hk & Heq & Hlo & Hhi).
  rewrite Heq, append_nil_r, length_hex_fixed.
  assert (Hkw : (k <= w)%nat).
  { destruct Hlo as [-> | Hlo]; [lia|].
    destruct (le_lt_dec k w) as [|Hlt]; [assumption|].
    assert (16 ^ Z.of_nat w <= 16 ^ (Z.of_nat k - 1))
      by (apply Z.pow_le_mono_r; lia).
    lia. }
  replace w with ((w - k) + k)%nat at 2 by lia.
  symmetry. apply hex_fixed_pad. lia.
Qed.

(** A value too large for the field width is printed on more digits. *)
Lemma fmt_X_overflows w v :
  (1 <= w <= 8)%nat -> 16 ^ Z.of_nat w <= v < 16 ^ 8 ->
  exists k, (w < k <= 8)%nat /\ Fmt.fmt_X w v = Spec.hex_fixed k v
            /\ 16 ^ (Z.of_nat k - 1) <= v < 16 ^ Z.of_nat k.
Proof.
  intros Hw Hv. unfold Fmt.fmt_X, Fmt.pad_zero.
  assert (H8 : 0 <= v < 16 ^ Z.of_nat 8).
  { split; [|exact (proj2 Hv)].
    apply Z.le_trans with (16 ^ Z.of_nat w); [apply Z.pow_nonneg; lia | lia]. }
  destruct (hex_digits_fixed 8 v "" ltac:(lia) H8) as (k & Hk & Heq & Hlo & Hhi).
  assert (Hkw : (w < k)%nat).
  { destruct (le_lt_dec k w) as [Hle|]; [|assumption].
    assert (16 ^ Z.of_nat k <= 16 ^ Z.of_nat w)
      by (apply Z.pow_le_mono_r; lia).
    lia. }
  exists k. rewrite Heq, append_nil_r, length_hex_fixed.
  replace (w - k)%nat with O by lia.
  split; [lia|]. split; [reflexivity|]. split; [|assumption].
  destruct Hlo as [-> | Hlo]; [lia | assumption].
Qed.

(** ** The checksum *)

Lemma checksum_loop_sum data : forall acc,
  CStr.no_nul data = true -> 0 <= acc < CInt.uint_mod ->
  checksum_loop data acc = (acc + CStr.byte_sum data) mod CInt.uint_mod.
Proof.
  induction data as [|c r IH]; intros acc Hn Ha; simpl.
  - rewrite Z.add_0_r, Z.mod_small; [reflexivity | assumption].
  - simpl in Hn. apply andb_true_iff in Hn. destruct Hn as [Hc Hr].
    destruct (CStr.is_nul c); [discriminate|].
    rewrite IH; [|assumption|].
    + unfold CInt.uadd. rewrite Zplus_mod_idemp_l. f_equal. lia.
    + unfold CInt.uadd. apply Z.mod_pos_bound. reflexivity.
Qed.

(** The loop on any buffer adds up the bytes in front of the first NUL. *)
Lemma checksum_loop_c_str data : forall acc,
  checksum_loop data acc = checksum_loop (CStr.c_str data) acc.
Proof.
  induction data as [|c r IH]; intros acc; simpl; [reflexivity|].
  destruct (CStr.is_nul c) eqn:Hc; simpl; [reflexivity|].
  rewrite Hc. apply IH.
Qed.

Lemma low_byte_of_sum s :
  Z.land (s mod CInt.uint_mod) 255 = s mod 256.
Proof.
  change 255 with (Z.ones 8). rewrite Z.land_ones by lia.
  apply Z.mod_mod_divide. exists (2 ^ 24). reflexivity.
Qed.

Lemma calculate_checksum_spec data :
  CStr.no_nul data = true -> calculate_checksum data = Spec.checksum data.
Proof.
  intros Hn. unfold calculate_checksum, Spec.checksum.
  rewrite checksum_loop_sum by (assumption || (unfold CInt.uint_mod; lia)).
  rewrite Z.add_0_l, low_byte_of_sum.
  apply fmt_X_fits; [lia|].
  change (16 ^ Z.of_nat 2) with 256. apply Z.mod_pos_bound. lia.
Qed.

Lemma length_calculate_checksum data :
  String.length (calculate_checksum data) = 2%nat.
Proof.
  unfold calculate_checksum.
  rewrite fmt_X_fits; [apply length_hex_fixed | lia |].
  change 255 with (Z.ones 8). rewrite Z.land_ones by lia.
  change (16 ^ Z.of_nat 2) with (2 ^ 8). apply Z.mod_pos_bound. lia.
Qed.

Lemma upper_hex_digit_not_nul d : CStr.is_nul (Spec.upper_hex_digit d) = false.
Proof.
  unfold Spec.upper_hex_digit.
  destruct (Z.to_nat d) as [|n]; [reflexivity|].
  do 15 (destruct n as [|n]; [reflexivity|]).
  reflexivity.
Qed.

Lemma no_nul_hex_fixed n : forall v, CStr.no_nul (Spec.hex_fixed n v) = true.
Proof.
  induction n as [|n IH]; intros v; simpl; [reflexivity|].
  rewrite no_nul_append, IH. simpl.
  now rewrite upper_hex_digit_not_nul.
Qed.

Lemma no_nul_calculate_checksum data :
  CStr.no_nul (calculate_checksum data) = true.
Proof.
  unfold calculate_checksum.
  rewrite fmt_X_fits; [apply no_nul_hex_fixed | lia |].
  change 255 with (Z.ones 8). rewrite Z.land_ones by lia.
  change (16 ^ Z.of_nat 2) with (2 ^ 8). apply Z.mod_pos_bound. lia.
Qed.

(** C2. For every data part (the bytes of the buffer in front of its NUL),
    [calculate_checksum] leaves the sum of the byte values modulo 256,
    written as exactly two zero-padded uppercase hexadecimal digits; a data
    part whose bytes add up to 256 gets the checksum "00". *)
Theorem checksum_is_sum_mod_256 (data : string) :
  calculate_checksum data
  = Spec.hex_fixed 2 (CStr.byte_sum (CStr.c_str data) mod 256)
  /\ String.length (calculate_checksum data) = 2%nat
  /\ (CStr.no_nul data = true ->
      calculate_checksum data = Spec.hex_fixed 2 (CStr.byte_sum data mod 256))
  /\ (CStr.no_nul data = true -> CStr.byte_sum data = 256 ->
      calculate_checksum data = "00").
Proof.
  split; [|split; [|split]].
  - unfold calculate_checksum. rewrite checksum_loop_c_str.
    exact (calculate_checksum_spec _ (no_nul_c_str data)).
  - apply length_calculate_checksum.
  - exact (calculate_checksum_spec data).
  - intros Hn H. rewrite (calculate_checksum_spec data Hn).
    unfold Spec.checksum. rewrite H. reflexivity.
Qed.

Lemma checksum_is_sum_mod_256_witness :
  CStr.byte_sum "@@@@" = 256
  /\ calculate_checksum "@@@@" = "00"
  /\ calculate_checksum "0002W00010001"
     = Spec.hex_fixed 2 (CStr.byte_sum "0002W00010001" mod 256).
Proof.
  split; [reflexivity|].
  destruct (checksum_is_sum_mod_256 "@@@@") as (_ & _ & _ & H256).
  destruct (checksum_is_sum_mod_256 "0002W00010001") as (_ & _ & Hsum & _).
  split; [apply H256 | apply Hsum]; reflexivity.
Defined.

(** ** The floor encoder *)

Lemma floor_to_hex_unsigned16 f :
  0 <= f <= 65535 -> floor_to_hex f = Spec.hex_fixed 4 f.
Proof.
  intros Hf. unfold floor_to_hex.
  destruct (f =? -1) eqn:He; [apply Z.eqb_eq in He; lia|].
  unfold CInt.to_unsigned, CInt.uint_mod.
  rewrite Z.mod_small by lia.
  apply fmt_X_fits; [lia|]. change (16 ^ Z.of_nat 4) with 65536. lia.
Qed.

(** C7. [floor_to_hex] maps -1 to "FFFF" and every floor from 0 to 65535
    to its zero-padded encoding on four hexadecimal digits, which is the
    encoding the specification gives; 2 is mapped to "0002". *)
Theorem floor_to_hex_encoding :
  floor_to_hex (-1) = "FFFF"
  /\ (forall f, 0 <= f <= 65535 -> floor_to_hex f = Spec.hex_fixed 4 f)
  /\ (forall f, -1 <= f <= 65535 -> floor_to_hex f = Spec.floorToHex f)
  /\ floor_to_hex 2 = "0002".
Proof.
  split; [reflexivity|]. split; [exact floor_to_hex_unsigned16|].
  split; [|reflexivity].
  intros f Hf. unfold Spec.floorToHex.
  destruct (f =? -1) eqn:He.
  - apply Z.eqb_eq in He. subst f. reflexivity.
  - apply Z.eqb_neq in He.
    rewrite Z.mod_small by (change (2 ^ 16) with 65536; lia).
    apply floor_to_hex_unsigned16. lia.
Qed.

Lemma floor_to_hex_encoding_witness :
  floor_to_hex 3 = Spec.hex_fixed 4 3 /\ floor_to_hex 1 = Spec.floorToHex 1.
Proof.
  destruct floor_to_hex_encoding as (_ & H16 & Hspec & _).
  split; [apply H16 | apply Hspec]; lia.
Defined.

Lemma floor_to_hex_negative f :
  CInt.int_min <= f < -1 ->
  floor_to_hex f = Spec.hex_fixed 8 (CInt.to_unsigned f)
  /\ 2 ^ 31 <= CInt.to_unsigned f < 2 ^ 32.
Proof.
  unfold CInt.int_min. intros Hf. unfold floor_to_hex.
  destruct (f =? -1) eqn:He; [apply Z.eqb_eq in He; lia|].
  assert (Hu : CInt.to_unsigned f = f + 2 ^ 32).
  { unfold CInt.to_unsigned, CInt.uint_mod.
    symmetry. apply Z.mod_unique with (q := -1); lia. }
  rewrite Hu. split; [|lia].
  destruct (fmt_X_overflows 4 (f + 2 ^ 32)) as (k & Hk & Heq & Hlo & Hhi);
    [lia | change (16 ^ Z.of_nat 4) with 65536; change (16 ^ 8) with (2 ^ 32); lia |].
  assert (k = 8%nat).
  { destruct (le_lt_dec k 7) as [Hk7|]; [exfalso | lia].
    assert (16 ^ Z.of_nat k <= 16 ^ 7) by (apply Z.pow_le_mono_r; lia).
    lia. }
  subst k. exact Heq.
Qed.

(** ** The telegram *)

Lemma wires_app a b : wires (a ++ b) = wires a ++ wires b.
Proof. apply flat_map_app. Qed.

Lemma sends_app a b : sends (a ++ b) = sends a ++ sends b.
Proof. apply flat_map_app. Qed.

Lemma data_part_no_nul dataNum dataValue :
  CStr.no_nul dataNum = true -> CStr.no_nul dataValue = true ->
  data_part dataNum dataValue = (station ++ cmd ++ dataNum ++ dataValue)%string
  /\ CStr.no_nul (data_part dataNum dataValue) = true.
Proof.
  intros Hn Hv. unfold data_part.
  rewrite (c_str_no_nul dataNum Hn), (c_str_no_nul dataValue Hv).
  split; [reflexivity|].
  simpl. exact (eq_trans (no_nul_append dataNum dataValue)
                         (eq_trans (f_equal2 andb Hn Hv) eq_refl)).
Qed.

Lemma substring_strlen s :
  String.substring 0 (CStr.strlen s) s = CStr.c_str s.
Proof.
  unfold CStr.strlen. induction s as [|c s IH]; simpl; [reflexivity|].
  destruct (CStr.is_nul c); simpl; [reflexivity | now rewrite IH].
Qed.

Lemma message_encode dataNum dataValue :
  CStr.no_nul dataNum = true -> CStr.no_nul dataValue = true ->
  message dataNum dataValue = Spec.encode station cmd dataNum dataValue
  /\ CStr.no_nul (message dataNum dataValue) = true.
Proof.
  intros Hn Hv.
  destruct (data_part_no_nul dataNum dataValue Hn Hv) as [Hdp Hnn].
  unfold message, Spec.encode. rewrite Hdp in *.
  set (dp := (station ++ cmd ++ dataNum ++ dataValue)%string) in *.
  rewrite (c_str_no_nul dp Hnn).
  rewrite (c_str_no_nul _ (no_nul_calculate_checksum dp)).
  rewrite (calculate_checksum_spec dp Hnn).
  split; [reflexivity|].
  change (CStr.no_nul (dp ++ Spec.checksum dp) = true).
  rewrite no_nul_append, Hnn. apply no_nul_hex_fixed.
Qed.

Lemma frame_encode dataNum dataValue :
  CStr.no_nul dataNum = true -> CStr.no_nul dataValue = true ->
  frame dataNum dataValue = Spec.encode station cmd dataNum dataValue.
Proof.
  intros Hn Hv. destruct (message_encode dataNum dataValue Hn Hv) as [Hm Hnn].
  unfold frame. cbv zeta.
  now rewrite substring_strlen, (c_str_no_nul _ Hnn).
Qed.

Lemma no_nul_replicate_zero n : CStr.no_nul (CStr.replicate n "0"%char) = true.
Proof. induction n; simpl; [reflexivity | exact IHn]. Qed.

Lemma no_nul_floor_to_hex f : CStr.no_nul (floor_to_hex f) = true.
Proof.
  unfold floor_to_hex. destruct (f =? -1); [reflexivity|].
  unfold Fmt.fmt_X, Fmt.pad_zero.
  destruct (hex_digits_fixed 8 (CInt.to_unsigned f) "" ltac:(lia))
    as (k & _ & Heq & _).
  { unfold CInt.to_unsigned, CInt.uint_mod. change (16 ^ Z.of_nat 8) with (2 ^ 32).
    apply Z.mod_pos_bound. lia. }
  rewrite Heq, append_nil_r, no_nul_append, no_nul_replicate_zero.
  apply no_nul_hex_fixed.
Qed.

Lemma send_enq_wires E dataNum dataValue d w :
  wires (trace (send_enq E dataNum dataValue d w))
  = wires (trace w) ++ [WSend (now w) (frame dataNum dataValue)].
Proof.
  unfold send_enq, WriteFile, printf, log.
  destruct (write_ok E (write_calls w)); simpl;
    rewrite !wires_app; simpl; now rewrite app_nil_r.
Qed.

(** ** The selection of the target floor *)

Section Selection.

Variable E : env.

Lemma drawn_floor_in_set r : In (nth (r mod num_floors)%nat floors 0) floors.
Proof.
  apply nth_In. apply Nat.mod_upper_bound. discriminate.
Qed.

Lemma select_target_S k cur w :
  select_target E (S k) cur w
  = if drawn E w =? cur then select_target E k cur (snd (rand E w))
    else Some (drawn E w, snd (rand E w)).
Proof. reflexivity. Qed.

Lemma select_target_sound fuel : forall cur w t w',
  select_target E fuel cur w = Some (t, w') ->
  In t floors /\ t <> cur
  /\ running w' = running w /\ now w' = now w
  /\ write_calls w' = write_calls w /\ trace w' = trace w
  /\ (rand_calls w < rand_calls w')%nat.
Proof.
  induction fuel as [|fuel IH]; intros cur w t w' H; [discriminate|].
  rewrite select_target_S in H.
  destruct (drawn E w =? cur) eqn:He.
  - apply IH in H. cbn [rand snd running now write_calls trace rand_calls] in H.
    intuition lia.
  - inversion H; subst; clear H. apply Z.eqb_neq in He.
    cbn [rand snd running now write_calls trace rand_calls].
    repeat split; try assumption; try lia. apply drawn_floor_in_set.
Qed.

(** The floor set has two different elements, so some draw always differs
    from the current floor. *)
Lemma other_floor_exists cur :
  exists r, (r < 4)%nat /\ nth (r mod num_floors)%nat floors 0 <> cur.
Proof.
  destruct (Z.eq_dec cur (-1)) as [->|Hne].
  - exists 1%nat. split; [lia | simpl; lia].
  - exists 0%nat. split; [lia | simpl; lia].
Qed.

Lemma select_target_terminates k : forall cur w,
  nth (rand_stream E (rand_calls w + k) mod num_floors)%nat floors 0 <> cur ->
  exists t w', select_target E (S k) cur w = Some (t, w').
Proof.
  induction k as [|k IH]; intros cur w Hd; rewrite select_target_S.
  - rewrite Nat.add_0_r in Hd. fold (drawn E w) in Hd.
    apply Z.eqb_neq in Hd. rewrite Hd. eauto.
  - destruct (drawn E w =? cur); [|eauto].
    apply IH. cbn [rand snd rand_calls]. now rewrite Nat.add_succ_comm.
Qed.

End Selection.

(** A cycle that runs to its end makes the selected floor the current one. *)
Lemma scenario_continue_target E fuel cf w cf' w' :
  scenario E fuel cf w = Continue cf' w' ->
  exists w1, select_target E fuel cf w = Some (cf', w1).
Proof.
  unfold scenario.
  destruct (select_target E fuel cf w) as [[tgt w1]|]; [|discriminate].
  cbv zeta.
  repeat match goal with
  | |- context [if negb (running ?x) then _ else _] =>
      destruct (running x); cbn [negb]; [|discriminate]
  end.
  intros H. inversion H; subst. eauto.
Qed.

(** C6. The target floor that the selection returns belongs to the set
    {-1, 1, 2, 3} and differs from the current floor, whatever was drawn
    before it (draws equal to the current floor are thrown away); so does
    the floor a completed cycle moves to.  The set holds a floor other than
    the current one, and the selection returns as soon as the generator
    draws such a floor. *)
Theorem select_target_differs (E : env) (cur : Z) (w : world) :
  (forall fuel t w',
      select_target E fuel cur w = Some (t, w') ->
      In t [-1; 1; 2; 3] /\ t <> cur)
  /\ (forall fuel cf' w',
        scenario E fuel cur w = Continue cf' w' ->
        In cf' [-1; 1; 2; 3] /\ cf' <> cur)
  /\ (exists r, (r < 4)%nat /\ nth (r mod num_floors)%nat floors 0 <> cur)
  /\ (forall k,
        nth (rand_stream E (rand_calls w + k) mod num_floors)%nat floors 0 <> cur ->
        exists t w', select_target E (S k) cur w = Some (t, w')
                     /\ In t [-1; 1; 2; 3] /\ t <> cur).
Proof.
  split; [|split; [|split]].
  - intros fuel t w' H. apply select_target_sound in H. tauto.
  - intros fuel cf' w' H.
    destruct (scenario_continue_target _ _ _ _ _ _ H) as [w1 Hsel].
    apply select_target_sound in Hsel. tauto.
  - apply other_floor_exists.
  - intros k Hd.
    destruct (select_target_terminates E k cur w Hd) as (t & w' & H).
    exists t, w'. split; [exact H|].
    apply select_target_sound in H. tauto.
Qed.

Lemma select_target_differs_witness :
  (In 2 [-1; 1; 2; 3] /\ 2 <> 1)
  /\ (exists t w',
        select_target (mkEnv None (fun i => if (i <? 2)%nat then 1%nat else 6%nat)
                             (fun _ => true))
                      3 1 (mkWorld true 0 O O []) = Some (t, w')
        /\ In t [-1; 1; 2; 3] /\ t <> 1).
Proof.
  split.
  - assert (Hrun : scenario (env_write_fails 1) 2 1 (initial_world (env_write_fails 1))
                   = Continue 2 (ctl_world (scenario (env_write_fails 1) 2 1
                                              (initial_world (env_write_fails 1)))))
      by (vm_compute; reflexivity).
    exact (proj1 (proj2 (select_target_differs (env_write_fails 1) 1
                           (initial_world (env_write_fails 1))))
             2%nat 2 _ Hrun).
  - refine (proj2 (proj2 (proj2 (select_target_differs
              (mkEnv None (fun i => if (i <? 2)%nat then 1%nat else 6%nat) (fun _ => true))
              1 (mkWorld true 0 O O [])))) 2%nat _).
    simpl. lia.
Defined.

(** ** What the calls do to the world *)

Section Calls.

Variable E : env.

Lemma running_printf l w : running (printf l w) = running w.
Proof. reflexivity. Qed.

Lemma now_printf l w : now (printf l w) = now w.
Proof. reflexivity. Qed.

Lemma trace_printf l w : trace (printf l w) = trace w ++ [EvPrint l].
Proof. reflexivity. Qed.

Lemma running_send_enq n v d w : running (send_enq E n v d w) = running w.
Proof. unfold send_enq, WriteFile. now destruct (write_ok E (write_calls w)). Qed.

Lemma now_send_enq n v d w : now (send_enq E n v d w) = now w.
Proof. unfold send_enq, WriteFile. now destruct (write_ok E (write_calls w)). Qed.

Lemma rand_calls_send_enq n v d w : rand_calls (send_enq E n v d w) = rand_calls w.
Proof. unfold send_enq, WriteFile. now destruct (write_ok E (write_calls w)). Qed.

Lemma write_calls_send_enq n v d w :
  write_calls (send_enq E n v d w) = S (write_calls w).
Proof. unfold send_enq, WriteFile. now destruct (write_ok E (write_calls w)). Qed.

Lemma trace_send_enq n v d w :
  exists l,
    trace (send_enq E n v d w)
    = trace w ++ [EvWrite (now w) (frame n v) (write_ok E (write_calls w)); EvPrint l].
Proof.
  unfold send_enq, WriteFile, printf, log.
  destruct (write_ok E (write_calls w)); simpl; rewrite <- app_assoc; simpl; eauto.
Qed.

Lemma now_Sleep ms w : now (Sleep E ms w) = now w + ms.
Proof. unfold Sleep, deliver. simpl. now destruct (signal_due E (now w + ms)). Qed.

Lemma trace_Sleep ms w : trace (Sleep E ms w) = trace w ++ [EvSleep (now w) ms].
Proof. unfold Sleep, deliver. simpl. now destruct (signal_due E (now w + ms)). Qed.

Lemma rand_calls_Sleep ms w : rand_calls (Sleep E ms w) = rand_calls w.
Proof. unfold Sleep, deliver. simpl. now destruct (signal_due E (now w + ms)). Qed.

Lemma write_calls_Sleep ms w : write_calls (Sleep E ms w) = write_calls w.
Proof. unfold Sleep, deliver. simpl. now destruct (signal_due E (now w + ms)). Qed.

Lemma running_Sleep ms w :
  running (Sleep E ms w) = running w && negb (signal_due E (now w + ms)).
Proof.
  unfold Sleep, deliver. simpl.
  destruct (signal_due E (now w + ms)); simpl;
    [now rewrite andb_false_r | now rewrite andb_true_r].
Qed.

End Calls.

(** ** Every call is entered before the signal *)

Section Safety.

Variable E : env.

Lemma safe_log e w : safe E w -> timely E e -> safe E (log e w).
Proof.
  intros [Hf Ht] He. split; [exact Hf|].
  unfold log; simpl. apply Forall_app. split; [exact Ht | now constructor].
Qed.

Lemma safe_printf l w : safe E w -> safe E (printf l w).
Proof. intros H. apply safe_log; [exact H | exact I]. Qed.

Lemma safe_not_due w : safe E w -> running w = true -> signal_due E (now w) = false.
Proof.
  intros [Hf _] Hr. destruct (signal_due E (now w)); [|reflexivity].
  rewrite Hf in Hr by reflexivity. discriminate.
Qed.

Lemma safe_send_enq n v d w :
  safe E w -> running w = true -> safe E (send_enq E n v d w).
Proof.
  intros Hs Hr. pose proof (safe_not_due w Hs Hr) as Hd.
  destruct Hs as [Hf Ht]. split.
  - now rewrite now_send_enq, running_send_enq.
  - destruct (trace_send_enq E n v d w) as [l ->].
    apply Forall_app. split; [exact Ht|].
    constructor; [exact Hd | constructor; [exact I | constructor]].
Qed.

Lemma safe_Sleep ms w :
  safe E w -> running w = true -> ms = 1000 \/ ms = 3000 -> safe E (Sleep E ms w).
Proof.
  intros Hs Hr Hms. pose proof (safe_not_due w Hs Hr) as Hd.
  destruct Hs as [Hf Ht]. split.
  - rewrite now_Sleep, running_Sleep. intros ->. now rewrite andb_false_r.
  - rewrite trace_Sleep. apply Forall_app. split; [exact Ht|].
    constructor; [split; assumption | constructor].
Qed.

Lemma safe_for_running n : forall i body w,
  (forall i w, safe E w -> running w = true -> safe E (body i w)) ->
  safe E w -> safe E (for_running n i body w).
Proof.
  induction n as [|n IH]; intros i body w Hb Hs; simpl; [exact Hs|].
  destruct (running w) eqn:Hr; [|exact Hs].
  apply IH; [exact Hb | now apply Hb].
Qed.

Lemma safe_burst n v d w : safe E w -> safe E (burst E n v d w).
Proof.
  intros Hs. unfold burst. apply safe_for_running; [|exact Hs].
  intros i w0 H0 Hr. apply safe_Sleep; [now apply safe_send_enq | | now left].
  now rewrite running_send_enq.
Qed.

Lemma safe_wait10 w : safe E w -> safe E (wait10 E w).
Proof.
  intros Hs. unfold wait10. apply safe_for_running; [|exact Hs].
  intros i w0 H0 Hr. apply safe_Sleep; [assumption | assumption | now left].
Qed.

Lemma safe_select_target fuel cur w t w' :
  select_target E fuel cur w = Some (t, w') -> safe E w -> safe E w'.
Proof.
  intros H [Hf Ht]. apply select_target_sound in H.
  destruct H as (_ & _ & Hr & Hn & _ & Htr & _).
  split; [now rewrite Hn, Hr | now rewrite Htr].
Qed.

Lemma safe_wait3 w :
  safe E w -> running w = true -> safe E (Sleep E 3000 (printf LnWait3 w)).
Proof.
  intros Hs Hr. apply safe_Sleep; [now apply safe_printf | exact Hr | now right].
Qed.

Lemma safe_scenario fuel cf w :
  safe E w -> safe E (ctl_world (scenario E fuel cf w)).
Proof.
  intros Hs. unfold scenario.
  destruct (select_target E fuel cf w) as [[tgt w1]|] eqn:Hsel; [|exact Hs].
  apply (safe_select_target _ _ _ _ _ Hsel) in Hs.
  cbv zeta.
  match goal with |- context [burst E "0001" ?v ?d ?w0] =>
    pose proof (safe_burst "0001" v d w0 (safe_printf _ _ Hs)) as H1;
    destruct (running (burst E "0001" v d w0)) eqn:R1; cbn [negb]; [|exact H1]
  end.
  match goal with |- context [burst E "0002" ?v ?d ?w0] =>
    pose proof (safe_burst "0002" v d w0 (safe_wait3 _ H1 R1)) as H2;
    destruct (running (burst E "0002" v d w0)) eqn:R2; cbn [negb]; [|exact H2]
  end.
  match goal with |- context [burst E "0003" ?v ?d ?w0] =>
    pose proof (safe_burst "0003" v d w0 (safe_wait3 _ H2 R2)) as H3;
    destruct (running (burst E "0003" v d w0)) eqn:R3; cbn [negb]; [|exact H3]
  end.
  match goal with |- context [burst E "0002" "0000" ?d (wait10 E ?w0)] =>
    pose proof (safe_wait10 w0 (safe_printf _ _ H3)) as H4;
    destruct (running (wait10 E w0)) eqn:R4; cbn [negb]; [|exact H4]
  end.
  cbn [ctl_world].
  apply safe_wait10, safe_printf, safe_printf, safe_burst, H4.
Qed.


Lemma safe_initial_world : safe E (initial_world E).
Proof.
  unfold initial_world, deliver. simpl.
  destruct (signal_due E 0) eqn:Hd; split; simpl; try constructor; congruence.
Qed.


End Safety.


(** ** An uncancelled cycle *)

Section Uncancelled.

Variable E : env.

Lemma quiet_not_due T t : quiet_until E T -> t <= T -> signal_due E t = false.
Proof.
  unfold quiet_until, signal_due. destruct (sigint_at E) as [s|]; [|reflexivity].
  intros H1 H2. apply Z.leb_gt. lia.
Qed.

Lemma quiet_until_le T T' : quiet_until E T -> T' <= T -> quiet_until E T'.
Proof.
  unfold quiet_until. destruct (sigint_at E) as [s|]; [lia | trivial].
Qed.

Lemma advanced_refl w : running w = true -> advanced w w 0 [].
Proof.
  intros Hr. unfold advanced. rewrite app_nil_r. repeat split; [exact Hr | lia].
Qed.

Lemma advanced_trans w1 w2 w3 d1 d2 l1 l2 :
  advanced w1 w2 d1 l1 -> advanced w2 w3 d2 l2 ->
  advanced w1 w3 (d1 + d2) (l1 ++ l2).
Proof.
  intros (R1 & N1 & S1) (R2 & N2 & S2). unfold advanced.
  rewrite S2, S1, N2, N1, app_assoc. repeat split; [exact R2 | lia].
Qed.

Lemma advanced_printf l w : running w = true -> advanced w (printf l w) 0 [].
Proof.
  intros Hr. unfold advanced. rewrite trace_printf, sends_app. simpl.
  repeat split; [exact Hr | lia].
Qed.

Lemma advanced_send_enq n v d w :
  running w = true ->
  advanced w (send_enq E n v d w) 0 [(now w, frame n v)].
Proof.
  intros Hr. unfold advanced.
  rewrite running_send_enq, now_send_enq.
  destruct (trace_send_enq E n v d w) as [l ->].
  rewrite sends_app. simpl. repeat split; [exact Hr | lia].
Qed.

Lemma advanced_Sleep ms w :
  running w = true -> quiet_until E (now w + ms) ->
  advanced w (Sleep E ms w) ms [].
Proof.
  intros Hr Hq. unfold advanced.
  rewrite running_Sleep, now_Sleep, trace_Sleep, sends_app, Hr.
  rewrite (quiet_not_due _ _ Hq (Z.le_refl _)). simpl.
  repeat split; reflexivity.
Qed.

(** [k] sends, one second apart. *)
Lemma advanced_sends n v d k : forall i w,
  running w = true -> quiet_until E (now w + 1000 * Z.of_nat k) ->
  advanced w
    (for_running k i (fun i w => Sleep E 1000 (send_enq E n v (d (i + 1)) w)) w)
    (1000 * Z.of_nat k)
    (map (fun j => (now w + 1000 * Z.of_nat j, frame n v)) (seq 0 k)).
Proof.
  induction k as [|k IH]; intros i w Hr Hq.
  - simpl. now apply advanced_refl.
  - cbn [for_running]. rewrite Hr.
    set (w1 := Sleep E 1000 (send_enq E n v (d (i + 1)) w)).
    assert (H1 : advanced w w1 (0 + 1000) ([(now w, frame n v)] ++ [])).
    { unfold w1. eapply advanced_trans; [now apply advanced_send_enq|].
      apply advanced_Sleep; [now rewrite running_send_enq|].
      rewrite now_send_enq. apply (quiet_until_le _ _ Hq). lia. }
    pose proof H1 as (R1 & N1 & _).
    assert (H2 := IH (i + 1) w1 R1
                     ltac:(rewrite N1; apply (quiet_until_le _ _ Hq); lia)).
    pose proof (advanced_trans _ _ _ _ _ _ _ H1 H2) as H.
    replace (1000 * Z.of_nat (S k)) with (0 + 1000 + 1000 * Z.of_nat k) by lia.
    replace (map (fun j => (now w + 1000 * Z.of_nat j, frame n v)) (seq 0 (S k)))
      with (([(now w, frame n v)] ++ [])
            ++ map (fun j => (now w1 + 1000 * Z.of_nat j, frame n v)) (seq 0 k));
      [exact H|].
    cbn [seq map app]. f_equal; [f_equal; lia|].
    rewrite <- seq_shift, map_map. apply map_ext.
    intros j. f_equal. rewrite N1. lia.
Qed.

Lemma advanced_burst n v d w :
  running w = true -> quiet_until E (now w + 5000) ->
  advanced w (burst E n v d w) 5000
    (map (fun i => (now w + Spec.time_unit * i, frame n v)) [0; 1; 2; 3; 4]).
Proof.
  intros Hr Hq. exact (advanced_sends n v d 5 0 w Hr Hq).
Qed.

(** [k] sleeps of one second. *)
Lemma advanced_sleeps k : forall i w,
  running w = true -> quiet_until E (now w + 1000 * Z.of_nat k) ->
  advanced w (for_running k i (fun _ w => Sleep E 1000 w) w) (1000 * Z.of_nat k) [].
Proof.
  induction k as [|k IH]; intros i w Hr Hq.
  - simpl. now apply advanced_refl.
  - cbn [for_running]. rewrite Hr.
    assert (H1 : advanced w (Sleep E 1000 w) 1000 []).
    { apply advanced_Sleep; [exact Hr|]. apply (quiet_until_le _ _ Hq). lia. }
    pose proof H1 as (R1 & N1 & _).
    assert (H2 := IH (i + 1) _ R1
                     ltac:(rewrite N1; apply (quiet_until_le _ _ Hq); lia)).
    pose proof (advanced_trans _ _ _ _ _ _ _ H1 H2) as H.
    replace (1000 * Z.of_nat (S k)) with (1000 + 1000 * Z.of_nat k) by lia.
    exact H.
Qed.

Lemma advanced_wait10 w :
  running w = true -> quiet_until E (now w + 10000) ->
  advanced w (wait10 E w) 10000 [].
Proof. intros Hr Hq. exact (advanced_sleeps 10 0 w Hr Hq). Qed.

Lemma advanced_wait3 w :
  running w = true -> quiet_until E (now w + 3000) ->
  advanced w (Sleep E 3000 (printf LnWait3 w)) 3000 [].
Proof.
  intros Hr Hq.
  exact (advanced_trans _ _ _ _ _ _ _ (advanced_printf LnWait3 w Hr)
           (advanced_Sleep 3000 (printf LnWait3 w) Hr Hq)).
Qed.

End Uncancelled.

Ltac still_quiet Hq := apply (quiet_until_le _ _ _ Hq); lia.

Lemma scenario_uncancelled (E : env) (fuel : nat) (cf : Z) (w : world) (tgt : Z) (w1 : world) :
  running w = true ->
  quiet_until E (now w + 46000) ->
  select_target E fuel cf w = Some (tgt, w1) ->
  exists w',
    scenario E fuel cf w = Continue tgt w'
    /\ advanced w w' 46000 (Spec.schedule cf tgt (now w) Spec.stage_order).
Proof.
  intros Hr Hq Hsel.
  pose proof (select_target_sound E _ _ _ _ _ Hsel) as (_ & _ & R0 & N0 & _ & T0 & _).
  rewrite Hr in R0.
  unfold scenario. rewrite Hsel. cbv zeta.
  set (wA := printf _ w1).
  assert (RA : running wA = true) by exact R0.
  assert (NA : now wA = now w) by exact N0.
  assert (SA : sends (trace wA) = sends (trace w)).
  { unfold wA. rewrite trace_printf, sends_app, T0. simpl. apply app_nil_r. }
  set (wB := burst E "0001" _ _ wA).
  destruct (advanced_burst E "0001" (floor_to_hex cf)
              (DescCurrent (CStr.c_str (floor_to_string cf))) wA RA)
    as (RB & NB & SB); [still_quiet Hq|].
  fold wB in RB, NB, SB. rewrite RB. cbn [negb].
  set (wC := Sleep E 3000 (printf LnWait3 wB)).
  destruct (advanced_wait3 E wB RB) as (RC & NC & SC);
    [still_quiet Hq|].
  fold wC in RC, NC, SC.
  set (wD := burst E "0002" _ _ wC).
  destruct (advanced_burst E "0002" (floor_to_hex tgt)
              (DescTarget (CStr.c_str (floor_to_string tgt))) wC RC)
    as (RD & ND & SD); [still_quiet Hq|].
  fold wD in RD, ND, SD. rewrite RD. cbn [negb].
  set (wF := Sleep E 3000 (printf LnWait3 wD)).
  destruct (advanced_wait3 E wD RD) as (RF & NF & SF);
    [still_quiet Hq|].
  fold wF in RF, NF, SF.
  set (wG := burst E "0003" _ _ wF).
  destruct (advanced_burst E "0003" "074E" DescLoad wF RF)
    as (RG & NG & SG); [still_quiet Hq|].
  fold wG in RG, NG, SG. rewrite RG. cbn [negb].
  set (wH := wait10 E (printf LnWait10 wG)).
  destruct (advanced_trans _ _ _ _ _ _ _ (advanced_printf LnWait10 wG RG)
              (advanced_wait10 E (printf LnWait10 wG) RG
                 ltac:(rewrite now_printf; still_quiet Hq)))
    as (RH & NH & SH).
  fold wH in RH, NH, SH. rewrite RH. cbn [negb].
  set (wI := burst E "0002" "0000" _ wH).
  destruct (advanced_burst E "0002" "0000" DescArrival wH RH)
    as (RI & NI & SI); [still_quiet Hq|].
  fold wI in RI, NI, SI.
  set (wJ := printf LnWait10 (printf _ wI)).
  assert (RJ : running wJ = true) by exact RI.
  assert (NJ : now wJ = now wI) by reflexivity.
  assert (SJ : sends (trace wJ) = sends (trace wI)).
  { unfold wJ. rewrite !trace_printf, !sends_app. simpl. now rewrite !app_nil_r. }
  destruct (advanced_wait10 E wJ RJ) as (RK & NK & SK);
    [still_quiet Hq|].
  eexists. split; [reflexivity|].
  unfold advanced. split; [exact RK|]. split; [lia|].
  rewrite SK, SJ, SI, SH, SG, SF, SD, SC, SB, SA.
  rewrite !app_nil_r, <- !app_assoc. f_equal.
  unfold Spec.schedule, Spec.stage_sends, Spec.stage_telegram, Spec.stage_units,
    Spec.stage_order, Spec.time_unit.
  cbn [map app]. rewrite NH, NG, NF, ND, NC, NB, NA.
  rewrite (frame_encode "0001" (floor_to_hex cf) eq_refl (no_nul_floor_to_hex cf)).
  rewrite (frame_encode "0002" (floor_to_hex tgt) eq_refl (no_nul_floor_to_hex tgt)).
  rewrite (frame_encode "0003" "074E" eq_refl eq_refl).
  rewrite (frame_encode "0002" "0000" eq_refl eq_refl).
  fold station cmd.
  repeat (f_equal; try lia).
Qed.

(** ** Runs that differ in the failures of the writes *)

Section SameCourse.

Variables E1 E2 : env.
Hypothesis same_signal : sigint_at E1 = sigint_at E2.
Hypothesis same_rand : forall i, rand_stream E1 i = rand_stream E2 i.

Lemma same_signal_due t : signal_due E1 t = signal_due E2 t.
Proof. unfold signal_due. now rewrite same_signal. Qed.

Lemma same_course_refl w : same_course w w.
Proof. unfold same_course. auto. Qed.

Lemma same_printf l1 l2 w1 w2 :
  same_course w1 w2 -> same_course (printf l1 w1) (printf l2 w2).
Proof.
  intros (R & N & C & W & T). unfold same_course.
  rewrite !running_printf, !now_printf, !trace_printf, !wires_app, T.
  simpl. auto.
Qed.

Lemma same_send_enq n v d w1 w2 :
  same_course w1 w2 ->
  same_course (send_enq E1 n v d w1) (send_enq E2 n v d w2).
Proof.
  intros (R & N & C & W & T). unfold same_course.
  rewrite !running_send_enq, !now_send_enq, !rand_calls_send_enq,
    !write_calls_send_enq, !send_enq_wires, T, N, W.
  auto.
Qed.

Lemma same_Sleep ms w1 w2 :
  same_course w1 w2 -> same_course (Sleep E1 ms w1) (Sleep E2 ms w2).
Proof.
  intros (R & N & C & W & T). unfold same_course.
  rewrite !running_Sleep, !now_Sleep, !rand_calls_Sleep, !write_calls_Sleep,
    !trace_Sleep, !wires_app, T, N, R, same_signal_due.
  auto.
Qed.

Lemma same_for_running n : forall i body1 body2 w1 w2,
  (forall i w1 w2, same_course w1 w2 -> same_course (body1 i w1) (body2 i w2)) ->
  same_course w1 w2 ->
  same_course (for_running n i body1 w1) (for_running n i body2 w2).
Proof.
  induction n as [|n IH]; intros i body1 body2 w1 w2 Hb Hs; simpl; [exact Hs|].
  pose proof Hs as (R & _). rewrite R.
  destruct (running w2); [|exact Hs].
  apply IH; [exact Hb | now apply Hb].
Qed.

Lemma same_burst n v d w1 w2 :
  same_course w1 w2 -> same_course (burst E1 n v d w1) (burst E2 n v d w2).
Proof.
  intros Hs. unfold burst. apply same_for_running; [|exact Hs].
  intros i a b Hab. now apply same_Sleep, same_send_enq.
Qed.

Lemma same_wait10 w1 w2 :
  same_course w1 w2 -> same_course (wait10 E1 w1) (wait10 E2 w2).
Proof.
  intros Hs. unfold wait10. apply same_for_running; [|exact Hs].
  intros i a b Hab. now apply same_Sleep.
Qed.

Lemma same_select_target fuel : forall cur w1 w2,
  same_course w1 w2 ->
  match select_target E1 fuel cur w1, select_target E2 fuel cur w2 with
  | Some (t1, a), Some (t2, b) => t1 = t2 /\ same_course a b
  | None, None => True
  | _, _ => False
  end.
Proof.
  induction fuel as [|fuel IH]; intros cur w1 w2 Hs; [exact I|].
  rewrite !select_target_S.
  pose proof Hs as (R & N & C & W & T).
  assert (Hd : drawn E1 w1 = drawn E2 w2)
    by (unfold drawn; now rewrite C, same_rand).
  assert (Hr : same_course (snd (rand E1 w1)) (snd (rand E2 w2)))
    by (unfold same_course; simpl; auto).
  rewrite Hd. destruct (drawn E2 w2 =? cur); [now apply IH | auto].
Qed.

Lemma same_scenario fuel cf w1 w2 :
  same_course w1 w2 ->
  same_ctl (scenario E1 fuel cf w1) (scenario E2 fuel cf w2).
Proof.
  intros Hs. unfold scenario.
  pose proof (same_select_target fuel cf w1 w2 Hs) as Hsel.
  destruct (select_target E1 fuel cf w1) as [[t1 a]|],
           (select_target E2 fuel cf w2) as [[t2 b]|];
    try contradiction; [|simpl; auto].
  destruct Hsel as [<- Hab]. cbv zeta.
  set (d1 := DescCurrent _). set (l1 := LnScenario _ _).
  pose proof (same_burst "0001" (floor_to_hex cf) d1 _ _ (same_printf l1 l1 _ _ Hab)) as HB.
  set (B1 := burst E1 "0001" _ _ _) in *. set (B2 := burst E2 "0001" _ _ _) in *.
  rewrite (proj1 HB). destruct (running B2); cbn [negb]; [|simpl; auto].
  set (d2 := DescTarget _).
  pose proof (same_burst "0002" (floor_to_hex t1) d2 _ _
                (same_Sleep 3000 _ _ (same_printf LnWait3 LnWait3 _ _ HB))) as HD.
  set (D1 := burst E1 "0002" (floor_to_hex t1) _ _) in *.
  set (D2 := burst E2 "0002" (floor_to_hex t1) _ _) in *.
  rewrite (proj1 HD). destruct (running D2); cbn [negb]; [|simpl; auto].
  pose proof (same_burst "0003" "074E" DescLoad _ _
                (same_Sleep 3000 _ _ (same_printf LnWait3 LnWait3 _ _ HD))) as HG.
  set (G1 := burst E1 "0003" _ _ _) in *. set (G2 := burst E2 "0003" _ _ _) in *.
  rewrite (proj1 HG). destruct (running G2); cbn [negb]; [|simpl; auto].
  pose proof (same_wait10 _ _ (same_printf LnWait10 LnWait10 _ _ HG)) as HH.
  set (H1 := wait10 E1 (printf LnWait10 G1)) in *.
  set (H2 := wait10 E2 (printf LnWait10 G2)) in *.
  rewrite (proj1 HH). destruct (running H2); cbn [negb]; [|simpl; auto].
  simpl same_ctl. split; [reflexivity|].
  apply same_wait10, same_printf, same_printf, same_burst, HH.
Qed.

Lemma same_wmain_loop fuel : forall cf w1 w2,
  same_course w1 w2 ->
  same_outcome (wmain_loop E1 fuel cf w1) (wmain_loop E2 fuel cf w2).
Proof.
  induction fuel as [|fuel IH]; intros cf w1 w2 Hs.
  - simpl. unfold same_outcome. simpl. auto.
  - cbn [wmain_loop]. pose proof Hs as (R & _). rewrite R.
    destruct (running w2); [|unfold same_outcome; simpl; auto].
    pose proof (same_scenario (S fuel) cf w1 w2 Hs) as Hc.
    destruct (scenario E1 (S fuel) cf w1) as [f1 a|f1 a|f1 a],
             (scenario E2 (S fuel) cf w2) as [f2 b|f2 b|f2 b];
      simpl in Hc; try contradiction; destruct Hc as [<- Hab].
    + now apply IH.
    + unfold same_outcome. simpl. auto.
    + unfold same_outcome. simpl. auto.
Qed.

Lemma same_initial_world : same_course (initial_world E1) (initial_world E2).
Proof.
  unfold initial_world, deliver. simpl. rewrite same_signal_due.
  destruct (signal_due E2 0); apply same_course_refl.
Qed.

Lemma same_wmain fuel argv2 :
  same_outcome (wmain E1 fuel argv2) (wmain E2 fuel argv2).
Proof. apply same_wmain_loop, same_initial_world. Qed.

End SameCourse.

(** C3. Evaluation of the scenario with the signal raised at instant 31001,
    during the pause after the first telegram of the arrival stage: the loop
    is left after that single arrival telegram, and the current floor has
    nevertheless gone from the starting floor 1 to the target floor 2. *)
Theorem arrival_cancelled_updates_floor :
  let o := wmain (env_signal_at 31001) 2 None in
  exited o = true
  /\ running (outcome_world o) = false
  /\ arrival_sends (sends (trace (outcome_world o))) = [(31000, frame "0002" "0000")]
  /\ start_floor None = 1
  /\ outcome_floor o = 2.
Proof. vm_compute. repeat split. Qed.

(** In the three stages before it the cancellation leaves the current floor
    as it was: a [break] never changes it. *)
Lemma scenario_break_keeps_floor E fuel cf w cf' w' :
  scenario E fuel cf w = Break cf' w' -> cf' = cf /\ running w' = false.
Proof.
  unfold scenario.
  destruct (select_target E fuel cf w) as [[tgt w1]|]; [|discriminate].
  cbv zeta.
  repeat match goal with
  | |- context [if negb (running ?x) then _ else _] =>
      let R := fresh "R" in
      destruct (running x) eqn:R; cbn [negb];
      [|intros H; inversion H; subst; split; [reflexivity | assumption]]
  end.
  discriminate.
Qed.

(** ** The receive monitor *)

Module MonitorFacts.

Import Monitor.

Lemma monitor_loop_cons tk rest last :
  monitor_loop (tk :: rest) last
  = (fst (monitor_loop rest (fst (step last tk))),
     snd (step last tk) ++ snd (monitor_loop rest (fst (step last tk)))).
Proof.
  simpl. destruct (step last tk) as [la o1]. simpl.
  now destruct (monitor_loop rest la).
Qed.

Lemma step_timeout last now :
  step last (TkRead "" now)
  = if now - last >? 10 then (now, [Heartbeat now]) else (last, []).
Proof. reflexivity. Qed.

Lemma step_data last buf now :
  buf <> "" ->
  step last (TkRead buf now)
  = (now, [Received now (String.length buf) (hexstr buf) (ascstr buf)]).
Proof. destruct buf; [congruence | reflexivity]. Qed.

Lemma monotone_weaken t t' l : t' <= t -> monotone t l -> monotone t' l.
Proof. destruct l; simpl; [trivial | intros ? [? ?]; split; [lia | assumption]]. Qed.

Lemma idle_before_loop ticks : forall last,
  idle_before 10 last (snd (monitor_loop ticks last)).
Proof.
  induction ticks as [|tk rest IH]; intros last; [exact I|].
  rewrite monitor_loop_cons. cbn [snd].
  destruct tk as [|buf now]; [apply IH|].
  destruct buf as [|b r].
  - rewrite step_timeout. destruct (now - last >? 10) eqn:Hc; simpl.
    + split; [apply Z.gtb_lt in Hc; lia | apply IH].
    + apply IH.
  - rewrite step_data by discriminate. simpl. apply IH.
Qed.

Lemma spaced_loop ticks : forall last h,
  h <= last -> monotone last (clocks ticks) ->
  spaced 10 h (heartbeats (snd (monitor_loop ticks last))).
Proof.
  induction ticks as [|tk rest IH]; intros last h Hh Hm; [exact I|].
  rewrite monitor_loop_cons. cbn [snd].
  destruct tk as [|buf now]; [now apply IH|].
  simpl in Hm. destruct Hm as [Hle Hm].
  destruct buf as [|b r].
  - rewrite step_timeout. destruct (now - last >? 10) eqn:Hc; simpl.
    + apply Z.gtb_lt in Hc. split; [lia | apply IH; [lia | assumption]].
    + apply IH; [assumption | now apply monotone_weaken with now].
  - rewrite step_data by discriminate. simpl. apply IH; [lia | assumption].
Qed.

End MonitorFacts.

(** ** Histories only grow *)

Section Histories.

Variable E : env.

Lemma extends_refl w : extends w w.
Proof. exists []. now rewrite app_nil_r. Qed.

Lemma extends_trans w1 w2 w3 : extends w1 w2 -> extends w2 w3 -> extends w1 w3.
Proof.
  intros [l1 H1] [l2 H2]. exists (l1 ++ l2). now rewrite H2, H1, app_assoc.
Qed.

Lemma extends_printf l w : extends w (printf l w).
Proof. eexists. apply trace_printf. Qed.

Lemma extends_send_enq n v d w : extends w (send_enq E n v d w).
Proof. destruct (trace_send_enq E n v d w) as [l H]. eexists. exact H. Qed.

Lemma extends_Sleep ms w : extends w (Sleep E ms w).
Proof. eexists. apply trace_Sleep. Qed.

Lemma extends_for_running n : forall i body w,
  (forall i w, extends w (body i w)) -> extends w (for_running n i body w).
Proof.
  induction n as [|n IH]; intros i body w Hb; simpl; [apply extends_refl|].
  destruct (running w); [|apply extends_refl].
  eapply extends_trans; [apply Hb | now apply IH].
Qed.

Lemma extends_burst n v d w : extends w (burst E n v d w).
Proof.
  apply extends_for_running. intros i w0.
  eapply extends_trans; [apply extends_send_enq | apply extends_Sleep].
Qed.

Lemma extends_wait10 w : extends w (wait10 E w).
Proof. apply extends_for_running. intros i w0. apply extends_Sleep. Qed.

Lemma extends_wait3 w : extends w (Sleep E 3000 (printf LnWait3 w)).
Proof. eapply extends_trans; [apply extends_printf | apply extends_Sleep]. Qed.

(** The body after its first burst. *)
Lemma extends_scenario_tail fuel cf w tgt w1 :
  select_target E fuel cf w = Some (tgt, w1) ->
  extends
    (burst E "0001" (floor_to_hex cf) (DescCurrent (CStr.c_str (floor_to_string cf)))
       (printf (LnScenario (CStr.c_str (floor_to_string cf))
                           (CStr.c_str (floor_to_string tgt))) w1))
    (ctl_world (scenario E fuel cf w)).
Proof.
  intros Hsel. unfold scenario. rewrite Hsel. cbv zeta.
  set (B := burst E "0001" _ _ _).
  destruct (running B); cbn [negb ctl_world]; [|apply extends_refl].
  set (D := burst E "0002" (floor_to_hex tgt) _ _).
  assert (HD : extends B D)
    by (eapply extends_trans; [apply extends_wait3 | apply extends_burst]).
  destruct (running D); cbn [negb ctl_world]; [|exact HD].
  set (G := burst E "0003" _ _ _).
  assert (HG : extends B G)
    by (eapply extends_trans; [exact HD|];
        eapply extends_trans; [apply extends_wait3 | apply extends_burst]).
  destruct (running G); cbn [negb ctl_world]; [|exact HG].
  set (H := wait10 E (printf LnWait10 G)).
  assert (HH : extends B H)
    by (eapply extends_trans; [exact HG|];
        eapply extends_trans; [apply extends_printf | apply extends_wait10]).
  destruct (running H); cbn [negb ctl_world]; [|exact HH].
  eapply extends_trans; [exact HH|].
  eapply extends_trans; [apply extends_burst|].
  eapply extends_trans; [apply extends_printf|].
  eapply extends_trans; [apply extends_printf | apply extends_wait10].
Qed.

Lemma extends_scenario fuel cf w :
  extends w (ctl_world (scenario E fuel cf w)).
Proof.
  destruct (select_target E fuel cf w) as [[tgt w1]|] eqn:Hsel.
  - eapply extends_trans; [|exact (extends_scenario_tail _ _ _ _ _ Hsel)].
    apply select_target_sound in Hsel.
    destruct Hsel as (_ & _ & _ & _ & _ & T & _).
    apply extends_trans with w1; [exists []; now rewrite T, app_nil_r|].
    eapply extends_trans; [apply extends_printf | apply extends_burst].
  - unfold scenario. rewrite Hsel. apply extends_refl.
Qed.

Lemma extends_wmain_loop fuel : forall cf w,
  extends w (outcome_world (wmain_loop E fuel cf w)).
Proof.
  induction fuel as [|fuel IH]; intros cf w; [apply extends_refl|].
  cbn [wmain_loop]. destruct (running w); [|apply extends_refl].
  pose proof (extends_scenario (S fuel) cf w) as Hc.
  destruct (scenario E (S fuel) cf w) as [cf' w'|cf' w'|cf' w']; cbn [ctl_world] in Hc.
  - eapply extends_trans; [exact Hc | apply IH].
  - exact Hc.
  - exact Hc.
Qed.

Lemma for_running_S n i body w :
  for_running (S n) i body w
  = if running w then for_running n (i + 1) body (body i w) else w.
Proof. reflexivity. Qed.

(** The first telegram of a cycle announces the current floor. *)
Lemma first_send_of_burst n v d w :
  running w = true ->
  exists l, trace (burst E n v d w)
            = trace w ++ EvWrite (now w) (frame n v) (write_ok E (write_calls w)) :: l.
Proof.
  intros Hr. unfold burst. rewrite for_running_S, Hr.
  match goal with |- context [for_running 4 ?i ?b ?w0] =>
    destruct (extends_for_running 4 i b w0) as [l Hl];
      [intros j a; eapply extends_trans; [apply extends_send_enq | apply extends_Sleep]|];
    rewrite Hl
  end.
  rewrite trace_Sleep. destruct (trace_send_enq E n v (d (0 + 1)) w) as [p ->].
  rewrite now_send_enq, <- !app_assoc. simpl. eauto.
Qed.

Lemma first_send_of_wmain_loop k cf w :
  running w = true ->
  (exists r, select_target E (S k) cf w = Some r) ->
  exists l, sends (trace (outcome_world (wmain_loop E (S k) cf w)))
            = sends (trace w) ++ (now w, frame "0001" (floor_to_hex cf)) :: l.
Proof.
  intros Hr [[tgt w1] Hsel].
  assert (Hfirst : exists l, trace (ctl_world (scenario E (S k) cf w))
             = trace w ++ EvPrint (LnScenario (CStr.c_str (floor_to_string cf))
                                              (CStr.c_str (floor_to_string tgt)))
               :: EvWrite (now w) (frame "0001" (floor_to_hex cf))
                          (write_ok E (write_calls w)) :: l).
  { pose proof (select_target_sound E _ _ _ _ _ Hsel) as (_ & _ & R & N & W & T & _).
    set (w0 := printf (LnScenario (CStr.c_str (floor_to_string cf))
                                  (CStr.c_str (floor_to_string tgt))) w1).
    set (B := burst E "0001" (floor_to_hex cf)
                    (DescCurrent (CStr.c_str (floor_to_string cf))) w0).
    assert (Hrest : extends B (ctl_world (scenario E (S k) cf w)))
      by exact (extends_scenario_tail _ _ _ _ _ Hsel).
    destruct Hrest as [l2 H2].
    destruct (first_send_of_burst "0001" (floor_to_hex cf)
                (DescCurrent (CStr.c_str (floor_to_string cf))) w0) as [l1 H1];
      [unfold w0; rewrite running_printf; congruence|].
    fold B in H1. rewrite H2, H1. unfold w0, printf, log.
    cbn [trace now write_calls]. rewrite T, N, W, <- !app_assoc. simpl. eauto. }
  destruct Hfirst as [l Hl].
  cbn [wmain_loop]. rewrite Hr.
  destruct (scenario E (S k) cf w) as [cf' w'|cf' w'|cf' w'] eqn:Hsc;
    cbn [ctl_world outcome_world] in *.
  - destruct (extends_wmain_loop k cf' w') as [l' Hl'].
    rewrite Hl', Hl, !sends_app. simpl. rewrite <- app_assoc. simpl. eauto.
  - rewrite Hl, !sends_app. simpl. eauto.
  - rewrite Hl, !sends_app. simpl. eauto.
Qed.

End Histories.

(** ** Every telegram of a run is a 16-byte frame *)

Section Frames.

Variable E : env.

Lemma length_encode dataNum dataValue :
  String.length dataNum = 4%nat -> String.length dataValue = 4%nat ->
  String.length (Spec.encode "0002" "W" dataNum dataValue) = 16%nat.
Proof.
  intros Ln Lv. unfold Spec.encode, Spec.checksum. cbn [String.length].
  rewrite !length_append, length_hex_fixed, Ln, Lv. reflexivity.
Qed.

Lemma framed_frame t n v ok :
  CStr.no_nul n = true -> CStr.no_nul v = true ->
  String.length n = 4%nat -> String.length v = 4%nat ->
  framed (EvWrite t (frame n v) ok).
Proof.
  intros Hn Hv Ln Lv. exists n, v.
  rewrite (frame_encode n v Hn Hv).
  repeat split; try assumption. now apply length_encode.
Qed.

Lemma floor_to_hex_wire f :
  wire_floor f ->
  CStr.no_nul (floor_to_hex f) = true /\ String.length (floor_to_hex f) = 4%nat.
Proof.
  intros [-> | Hf]; [split; reflexivity|].
  rewrite floor_to_hex_unsigned16 by assumption.
  split; [apply no_nul_hex_fixed | apply length_hex_fixed].
Qed.

Lemma wire_floor_of_set f : In f floors -> wire_floor f.
Proof. unfold wire_floor. simpl. intuition lia. Qed.

Lemma framed_printf l w :
  Forall framed (trace w) -> Forall framed (trace (printf l w)).
Proof.
  intros H. rewrite trace_printf. apply Forall_app. split; [exact H|].
  constructor; [exact I | constructor].
Qed.

Lemma framed_Sleep ms w :
  Forall framed (trace w) -> Forall framed (trace (Sleep E ms w)).
Proof.
  intros H. rewrite trace_Sleep. apply Forall_app. split; [exact H|].
  constructor; [exact I | constructor].
Qed.

Lemma framed_send_enq n v d w :
  CStr.no_nul n = true -> CStr.no_nul v = true ->
  String.length n = 4%nat -> String.length v = 4%nat ->
  Forall framed (trace w) -> Forall framed (trace (send_enq E n v d w)).
Proof.
  intros Hn Hv Ln Lv H. destruct (trace_send_enq E n v d w) as [l ->].
  apply Forall_app. split; [exact H|].
  constructor; [now apply framed_frame | constructor; [exact I | constructor]].
Qed.

Lemma framed_for_running k : forall i body w,
  (forall i w, Forall framed (trace w) -> Forall framed (trace (body i w))) ->
  Forall framed (trace w) -> Forall framed (trace (for_running k i body w)).
Proof.
  induction k as [|k IH]; intros i body w Hb H; simpl; [exact H|].
  destruct (running w); [|exact H].
  apply IH; [exact Hb | now apply Hb].
Qed.

Lemma framed_burst n v d w :
  CStr.no_nul n = true -> CStr.no_nul v = true ->
  String.length n = 4%nat -> String.length v = 4%nat ->
  Forall framed (trace w) -> Forall framed (trace (burst E n v d w)).
Proof.
  intros Hn Hv Ln Lv H. unfold burst. apply framed_for_running; [|exact H].
  intros i w0 H0. now apply framed_Sleep, framed_send_enq.
Qed.

Lemma framed_wait10 w :
  Forall framed (trace w) -> Forall framed (trace (wait10 E w)).
Proof.
  intros H. unfold wait10. apply framed_for_running; [|exact H].
  intros i w0 H0. now apply framed_Sleep.
Qed.

Lemma framed_scenario fuel cf w :
  wire_floor cf -> Forall framed (trace w) ->
  Forall framed (trace (ctl_world (scenario E fuel cf w)))
  /\ wire_floor (ctl_floor (scenario E fuel cf w)).
Proof.
  intros Hcf H. unfold scenario.
  destruct (select_target E fuel cf w) as [[tgt w1]|] eqn:Hsel;
    [|split; assumption].
  apply select_target_sound in Hsel.
  destruct Hsel as (Hin & _ & _ & _ & _ & T & _).
  apply wire_floor_of_set in Hin.
  destruct (floor_to_hex_wire cf Hcf) as [Nc Lc].
  destruct (floor_to_hex_wire tgt Hin) as [Nt Lt].
  rewrite <- T in H. cbv zeta.
  set (B := burst E "0001" _ _ _).
  assert (HB : Forall framed (trace B))
    by (apply framed_burst; try assumption; try reflexivity;
        now apply framed_printf).
  destruct (running B); cbn [negb ctl_world ctl_floor]; [|split; assumption].
  set (D := burst E "0002" (floor_to_hex tgt) _ _).
  assert (HD : Forall framed (trace D))
    by (apply framed_burst; try assumption; try reflexivity;
        now apply framed_Sleep, framed_printf).
  destruct (running D); cbn [negb ctl_world ctl_floor]; [|split; assumption].
  set (G := burst E "0003" _ _ _).
  assert (HG : Forall framed (trace G))
    by (apply framed_burst; try reflexivity;
        now apply framed_Sleep, framed_printf).
  destruct (running G); cbn [negb ctl_world ctl_floor]; [|split; assumption].
  set (W := wait10 E (printf LnWait10 G)).
  assert (HW : Forall framed (trace W))
    by (now apply framed_wait10, framed_printf).
  destruct (running W); cbn [negb ctl_world ctl_floor]; [|split; assumption].
  split; [|exact Hin].
  apply framed_wait10, framed_printf, framed_printf, framed_burst;
    try reflexivity. exact HW.
Qed.

Lemma framed_wmain_loop fuel : forall cf w,
  wire_floor cf -> Forall framed (trace w) ->
  Forall framed (trace (outcome_world (wmain_loop E fuel cf w))).
Proof.
  induction fuel as [|fuel IH]; intros cf w Hcf H; [exact H|].
  cbn [wmain_loop]. destruct (running w); [|exact H].
  destruct (framed_scenario (S fuel) cf w Hcf H) as [Ht Hf].
  destruct (scenario E (S fuel) cf w) as [cf' w'|cf' w'|cf' w'];
    cbn [ctl_world ctl_floor outcome_world] in *.
  - now apply IH.
  - exact Ht.
  - exact Ht.
Qed.

Lemma framed_wmain fuel argv2 :
  wire_floor (start_floor argv2) ->
  Forall framed (trace (outcome_world (wmain E fuel argv2))).
Proof.
  intros Hf. apply framed_wmain_loop; [exact Hf|].
  unfold initial_world, deliver. simpl. destruct (signal_due E 0); constructor.
Qed.

End Frames.

(** C1. Every telegram [send_enq] writes for four-character fields is the
    byte 0x05, then the 13 characters of station, command, data number and
    data value, then the two checksum digits: 16 bytes, the frame the
    specification gives, built within the buffers [data_part] and
    [message].  Every telegram of a run whose starting floor
    fills the four-character data value is such a frame.  For station
    "0002", command "W", data number "0001" and data value "0001" the bytes
    are 0x05 and "0002W00010001" followed by the checksum of these 13
    characters, "9B". *)
Theorem send_enq_frame :
  (forall E dataNum dataValue d w,
      CStr.no_nul dataNum = true -> CStr.no_nul dataValue = true ->
      String.length dataNum = 4%nat -> String.length dataValue = 4%nat ->
      let dp := (station ++ cmd ++ dataNum ++ dataValue)%string in
      wires (trace (send_enq E dataNum dataValue d w))
      = wires (trace w) ++ [WSend (now w) (String ENQ (dp ++ calculate_checksum dp))]
      /\ String ENQ (dp ++ calculate_checksum dp)
         = Spec.encode "0002" "W" dataNum dataValue
      /\ String.length dp = 13%nat
      /\ String.length (calculate_checksum dp) = 2%nat
      /\ String.length (String ENQ (dp ++ calculate_checksum dp)) = 16%nat
      /\ fits (data_part dataNum dataValue) data_part_size = true
      /\ fits (message dataNum dataValue) message_size = true)
  /\ (forall E fuel argv2 t bytes ok,
        wire_floor (start_floor argv2) ->
        In (EvWrite t bytes ok) (trace (outcome_world (wmain E fuel argv2))) ->
        exists dataNum dataValue,
          String.length dataNum = 4%nat /\ String.length dataValue = 4%nat
          /\ bytes = Spec.encode "0002" "W" dataNum dataValue
          /\ String.length bytes = 16%nat)
  /\ frame "0001" "0001"
     = String "005" ("0002W00010001" ++ calculate_checksum "0002W00010001")
  /\ calculate_checksum "0002W00010001" = "9B".
Proof.
  split; [|split; [|split; reflexivity]].
  - intros E dataNum dataValue d w Hn Hv Ln Lv dp.
    destruct (data_part_no_nul dataNum dataValue Hn Hv) as [Hdp Hnn].
    fold dp in Hdp. rewrite Hdp in Hnn.
    assert (Hlen : String.length dp = 13%nat).
    { unfold dp, station, cmd. rewrite !length_append, Ln, Lv. reflexivity. }
    assert (Henc : String ENQ (dp ++ calculate_checksum dp)
                   = Spec.encode "0002" "W" dataNum dataValue).
    { unfold Spec.encode. fold station cmd. fold dp.
      now rewrite (calculate_checksum_spec dp Hnn). }
    split; [|split; [exact Henc | split; [exact Hlen|]]].
    + rewrite send_enq_wires, (frame_encode _ _ Hn Hv). now rewrite Henc.
    + split; [apply length_calculate_checksum|].
      assert (H16 : String.length (String ENQ (dp ++ calculate_checksum dp)) = 16%nat).
      { change (S (String.length (dp ++ calculate_checksum dp)) = 16%nat).
        rewrite length_append, Hlen, length_calculate_checksum. reflexivity. }
      split; [exact H16|]. unfold fits.
      rewrite (proj1 (message_encode _ _ Hn Hv)).
      change (Spec.encode station cmd dataNum dataValue)
        with (Spec.encode "0002" "W" dataNum dataValue).
      rewrite <- Henc, Hdp, H16, Hlen. split; reflexivity.
  - intros E fuel argv2 t bytes ok Hf Hin.
    pose proof (framed_wmain E fuel argv2 Hf) as Hall.
    rewrite Forall_forall in Hall. exact (Hall _ Hin).
Qed.

Lemma send_enq_frame_witness :
  wires (trace (send_enq (mkEnv None (fun _ => O) (fun _ => true))
                         "0001" "0001" (DescCurrent "1F" 1)
                         (mkWorld true 0 O O [])))
  = [WSend 0 (String "005" "0002W000100019B")]
  /\ exists dataNum dataValue,
       String.length dataNum = 4%nat /\ String.length dataValue = 4%nat
       /\ frame "0002" "0000" = Spec.encode "0002" "W" dataNum dataValue
       /\ String.length (frame "0002" "0000") = 16%nat.
Proof.
  split.
  - exact (proj1 (proj1 send_enq_frame (mkEnv None (fun _ => O) (fun _ => true))
                    "0001" "0001" (DescCurrent "1F" 1)
                    (mkWorld true 0 O O [])
                    eq_refl eq_refl eq_refl eq_refl)).
  - apply (proj1 (proj2 send_enq_frame) (env_signal_at 31001) 2%nat None
             31000 (frame "0002" "0000") true).
    + right. simpl. lia.
    + vm_compute. repeat (first [left; reflexivity | right]).
Defined.

(** C10. [floor_to_hex] leaves exactly four characters only for -1 and for
    the floors from 0 to 65535.  For every other negative [int] it leaves
    the eight hexadecimal digits of the value converted to [unsigned int],
    which neither fit the four-character field nor the five-byte buffer
    [cur_hex].  Such a floor reaches [floor_to_hex] as it is: the starting
    floor is the integer read from the command line, and the first telegram
    of the run carries its eight digits as data value. *)
Theorem floor_to_hex_width (f : Z) :
  CInt.is_int f ->
  (String.length (floor_to_hex f) = 4%nat <-> f = -1 \/ 0 <= f <= 65535)
  /\ (f < -1 ->
      floor_to_hex f = Spec.hex_fixed 8 (CInt.to_unsigned f)
      /\ String.length (floor_to_hex f) = 8%nat
      /\ fits (floor_to_hex f) cur_hex_size = false
      /\ forall E k,
           running (initial_world E) = true ->
           (exists r, select_target E (S k) f (initial_world E) = Some r) ->
           exists rest,
             sends (trace (outcome_world (wmain E (S k) (Some f))))
             = (0, frame "0001" (Spec.hex_fixed 8 (CInt.to_unsigned f))) :: rest).
Proof.
  unfold CInt.is_int, CInt.int_max. intros Hf. split.
  - split.
    + intros Hlen.
      destruct (Z_lt_dec f (-1)) as [Hneg|Hge].
      * destruct (floor_to_hex_negative f) as [Heq _]; [lia|].
        rewrite Heq, length_hex_fixed in Hlen. discriminate.
      * destruct (Z_le_dec f 65535) as [Hle|Hgt]; [lia|]. exfalso.
        unfold floor_to_hex in Hlen.
        destruct (f =? -1) eqn:He; [apply Z.eqb_eq in He; lia|].
        unfold CInt.to_unsigned, CInt.uint_mod in Hlen.
        rewrite Z.mod_small in Hlen by lia.
        destruct (fmt_X_overflows 4 f) as (k & Hk & Heq & _);
          [lia | change (16 ^ Z.of_nat 4) with 65536;
                 change (16 ^ 8) with (2 ^ 32); lia |].
        rewrite Heq, length_hex_fixed in Hlen. lia.
    + intros [-> | Hr]; [reflexivity|].
      rewrite floor_to_hex_unsigned16 by assumption. apply length_hex_fixed.
  - intros Hneg.
    destruct (floor_to_hex_negative f) as [Heq _]; [lia|].
    rewrite Heq. unfold fits. rewrite length_hex_fixed.
    split; [reflexivity|]. split; [reflexivity|]. split; [reflexivity|].
    intros E k Hr Hsel.
    destruct (first_send_of_wmain_loop E k f (initial_world E) Hr Hsel) as [l Hl].
    exists l. unfold wmain, start_floor. rewrite Hl, Heq.
    unfold initial_world, deliver. simpl. now destruct (signal_due E 0).
Qed.

Lemma floor_to_hex_width_witness :
  floor_to_hex (-5) = "FFFFFFFB"
  /\ String.length (floor_to_hex (-5)) = 8%nat
  /\ fits (floor_to_hex (-5)) cur_hex_size = false
  /\ exists rest,
       sends (trace (outcome_world (wmain (env_signal_at 1) 1 (Some (-5)))))
       = (0, frame "0001" "FFFFFFFB") :: rest.
Proof.
  assert (Hint : CInt.is_int (-5))
    by (unfold CInt.is_int, CInt.int_min, CInt.int_max; lia).
  destruct (floor_to_hex_width (-5) Hint) as (_ & H).
  destruct (H ltac:(lia)) as (H8 & Hlen & Hfit & Hrun).
  split; [exact H8 | split; [exact Hlen | split; [exact Hfit|]]].
  apply (Hrun (env_signal_at 1) O); [reflexivity|].
  eexists. reflexivity.
Defined.

(** * Further properties of the codec *)

Lemma byte_sum_append a b :
  CStr.byte_sum (a ++ b) = CStr.byte_sum a + CStr.byte_sum b.
Proof. induction a as [|c a IH]; simpl; [reflexivity | rewrite IH; lia]. Qed.

Lemma byte_val_bounds c : 0 <= CStr.byte_val c < 256.
Proof. unfold CStr.byte_val. pose proof (N_ascii_bounded c). lia. Qed.

Lemma byte_val_inj c c' : CStr.byte_val c = CStr.byte_val c' -> c = c'.
Proof.
  unfold CStr.byte_val. intros H. apply N2Z.inj in H.
  rewrite <- (ascii_N_embedding c), <- (ascii_N_embedding c'). now rewrite H.
Qed.

Lemma digit_value_upper d : 0 <= d < 16 -> Hex.digit_value (Spec.upper_hex_digit d) = d.
Proof.
  intros H.
  assert (Hd : d = 0 \/ d = 1 \/ d = 2 \/ d = 3 \/ d = 4 \/ d = 5 \/ d = 6 \/ d = 7
          \/ d = 8 \/ d = 9 \/ d = 10 \/ d = 11 \/ d = 12 \/ d = 13 \/ d = 14 \/ d = 15)
    by lia.
  repeat (destruct Hd as [-> | Hd]; [reflexivity|]). subst d. reflexivity.
Qed.

Lemma decode_from_append a b acc :
  Hex.decode_from (a ++ b) acc = Hex.decode_from b (Hex.decode_from a acc).
Proof. revert acc. induction a as [|c a IH]; intros acc; simpl; [reflexivity | apply IH]. Qed.

(** Decoding undoes the fixed-width encoding. *)
Lemma decode_hex_fixed n : forall v,
  0 <= v -> Hex.decode (Spec.hex_fixed n v) = v mod 16 ^ Z.of_nat n.
Proof.
  unfold Hex.decode. induction n as [|n IH]; intros v Hv.
  - simpl. now rewrite Z.mod_1_r.
  - simpl Spec.hex_fixed. rewrite decode_from_append, IH by (apply Z.div_pos; lia).
    cbn [Hex.decode_from].
    rewrite digit_value_upper by (apply Z.mod_pos_bound; lia).
    rewrite Nat2Z.inj_succ, Z.pow_succ_r by lia.
    rewrite (Z.rem_mul_r v 16 (16 ^ Z.of_nat n)) by lia. lia.
Qed.

Lemma hex_fixed_inj n v v' :
  0 <= v < 16 ^ Z.of_nat n -> 0 <= v' < 16 ^ Z.of_nat n ->
  Spec.hex_fixed n v = Spec.hex_fixed n v' -> v = v'.
Proof.
  intros Hv Hv' H. apply (f_equal Hex.decode) in H.
  rewrite !decode_hex_fixed in H by lia.
  now rewrite !Z.mod_small in H by lia.
Qed.

Lemma calculate_checksum_inj_sum a b :
  CStr.no_nul a = true -> CStr.no_nul b = true ->
  calculate_checksum a = calculate_checksum b ->
  CStr.byte_sum a mod 256 = CStr.byte_sum b mod 256.
Proof.
  intros Ha Hb H. rewrite !calculate_checksum_spec in H by assumption.
  unfold Spec.checksum in H.
  apply hex_fixed_inj in H; [exact H | |];
    change (16 ^ Z.of_nat 2) with 256; apply Z.mod_pos_bound; lia.
Qed.

(** X1. The checksum tells any two data parts apart that differ in exactly
    one byte. *)
Theorem checksum_detects_single_byte (a b : string) (c c' : ascii) :
  CStr.no_nul (a ++ String c b) = true ->
  CStr.no_nul (a ++ String c' b) = true ->
  c <> c' ->
  calculate_checksum (a ++ String c b) <> calculate_checksum (a ++ String c' b).
Proof.
  intros H1 H2 Hne Heq. apply Hne, byte_val_inj.
  apply (calculate_checksum_inj_sum _ _ H1 H2) in Heq.
  rewrite !byte_sum_append in Heq. simpl in Heq.
  pose proof (byte_val_bounds c). pose proof (byte_val_bounds c').
  set (x := CStr.byte_val c) in *. set (y := CStr.byte_val c') in *.
  set (s := CStr.byte_sum a) in *. set (r := CStr.byte_sum b) in *.
  assert (Hd : (x - y) mod 256 = 0).
  { replace (x - y) with ((s + (x + r)) - (s + (y + r))) by lia.
    rewrite Zminus_mod, Heq, Z.sub_diag. reflexivity. }
  apply Z.mod_divide in Hd; [|lia]. destruct Hd as [q Hq]. lia.
Qed.

Lemma checksum_detects_single_byte_witness :
  calculate_checksum "0002W00010001" <> calculate_checksum "0002W00010002".
Proof.
  apply (checksum_detects_single_byte "0002W0001000" "" "1" "2");
    [reflexivity | reflexivity | discriminate].
Defined.

(** X2. The checksum does not depend on the order of the bytes: two data
    parts made of the same pieces in another order get the same checksum,
    so a transposition goes unnoticed. *)
Theorem checksum_ignores_order (a b c : string) :
  CStr.no_nul a = true -> CStr.no_nul b = true -> CStr.no_nul c = true ->
  calculate_checksum (a ++ b ++ c) = calculate_checksum (a ++ c ++ b).
Proof.
  intros Ha Hb Hc.
  rewrite !calculate_checksum_spec
    by (rewrite !no_nul_append, Ha, Hb, Hc; reflexivity).
  unfold Spec.checksum. rewrite !byte_sum_append. f_equal. f_equal. lia.
Qed.

Lemma checksum_ignores_order_witness :
  calculate_checksum "0002W00010002" = calculate_checksum "0002W00020001".
Proof.
  exact (checksum_ignores_order "0002W" "0001" "0002" eq_refl eq_refl eq_refl).
Defined.

Lemma decode_fmt_X w v :
  (1 <= w <= 8)%nat -> 0 <= v < 2 ^ 32 -> Hex.decode (Fmt.fmt_X w v) = v.
Proof.
  intros Hw Hv. destruct (Z_lt_dec v (16 ^ Z.of_nat w)) as [Hlt|Hge].
  - rewrite fmt_X_fits, decode_hex_fixed by lia. apply Z.mod_small. lia.
  - destruct (fmt_X_overflows w v Hw) as (k & _ & Heq & Hk);
      [change (16 ^ 8) with (2 ^ 32); lia|].
    rewrite Heq, decode_hex_fixed by lia. apply Z.mod_small. lia.
Qed.

Lemma decode_floor_to_hex f :
  Hex.decode (floor_to_hex f) = if f =? -1 then 65535 else CInt.to_unsigned f.
Proof.
  unfold floor_to_hex. destruct (f =? -1); [reflexivity|].
  apply decode_fmt_X; [lia|].
  unfold CInt.to_unsigned, CInt.uint_mod. apply Z.mod_pos_bound. lia.
Qed.

(** X3. Reading the hexadecimal digits [floor_to_hex] leaves gives the
    floor back for 0 to 65535, so different floors of that range, and
    different floors of the set {-1, 1, 2, 3}, get different data values;
    over all [int] floors the only two with the same data value are -1 and
    65535, both "FFFF". *)
Theorem floor_to_hex_round_trip (f g : Z) :
  CInt.is_int f -> CInt.is_int g ->
  (0 <= f <= 65535 -> Hex.decode (floor_to_hex f) = f)
  /\ (floor_to_hex f = floor_to_hex g ->
      f = g \/ (f = -1 /\ g = 65535) \/ (f = 65535 /\ g = -1))
  /\ (In f floors -> In g floors -> floor_to_hex f = floor_to_hex g -> f = g)
  /\ floor_to_hex (-1) = floor_to_hex 65535.
Proof.
  unfold CInt.is_int, CInt.int_min, CInt.int_max. intros Hf Hg.
  assert (Hdec : floor_to_hex f = floor_to_hex g ->
                 f = g \/ (f = -1 /\ g = 65535) \/ (f = 65535 /\ g = -1)).
  { intros H. apply (f_equal Hex.decode) in H.
    rewrite !decode_floor_to_hex in H.
    unfold CInt.to_unsigned, CInt.uint_mod in H.
    destruct (Z.eqb_spec f (-1)) as [Ef|Ef], (Z.eqb_spec g (-1)) as [Eg|Eg].
    - left. lia.
    - right. left. split; [assumption|].
      destruct (Z_lt_dec g 0) as [Hn|Hp].
      + assert (g mod 2 ^ 32 = g + 2 ^ 32)
          by (symmetry; apply Z.mod_unique with (q := -1); lia).
        lia.
      + rewrite Z.mod_small in H by lia. lia.
    - right. right. split; [|assumption].
      destruct (Z_lt_dec f 0) as [Hn|Hp].
      + assert (f mod 2 ^ 32 = f + 2 ^ 32)
          by (symmetry; apply Z.mod_unique with (q := -1); lia).
        lia.
      + rewrite Z.mod_small in H by lia. lia.
    - left.
      assert (Hu : forall x, - 2 ^ 31 <= x <= 2 ^ 31 - 1 ->
                   x mod 2 ^ 32 = if x <? 0 then x + 2 ^ 32 else x).
      { intros x Hx. destruct (x <? 0) eqn:Ex.
        - apply Z.ltb_lt in Ex. symmetry. apply Z.mod_unique with (q := -1); lia.
        - apply Z.ltb_ge in Ex. apply Z.mod_small. lia. }
      rewrite (Hu f Hf), (Hu g Hg) in H.
      destruct (f <? 0) eqn:Ef0, (g <? 0) eqn:Eg0;
        try apply Z.ltb_lt in Ef0; try apply Z.ltb_lt in Eg0;
        try apply Z.ltb_ge in Ef0; try apply Z.ltb_ge in Eg0; lia. }
  split; [|split; [exact Hdec|split; [|reflexivity]]].
  - intros Hr. rewrite decode_floor_to_hex.
    destruct (f =? -1) eqn:Ef; [apply Z.eqb_eq in Ef; lia|].
    unfold CInt.to_unsigned, CInt.uint_mod. apply Z.mod_small. lia.
  - intros Hinf Hing H. destruct (Hdec H) as [?|[[? ?]|[? ?]]]; [assumption| |];
      subst; simpl in Hinf, Hing; lia.
Qed.

Lemma floor_to_hex_round_trip_witness :
  Hex.decode (floor_to_hex 3) = 3
  /\ 2 = Hex.decode "0002".
Proof.
  assert (H3 : CInt.is_int 3) by (unfold CInt.is_int, CInt.int_min, CInt.int_max; lia).
  assert (H2 : CInt.is_int 2) by (unfold CInt.is_int, CInt.int_min, CInt.int_max; lia).
  split.
  - apply (proj1 (floor_to_hex_round_trip 3 3 H3 H3)). lia.
  - apply (proj1 (proj2 (proj2 (floor_to_hex_round_trip 2 (Hex.decode "0002") H2 H2))));
      [simpl; auto | simpl; auto | reflexivity].
Defined.

(** X4. [floor_to_string] names the four floors of the set differently and
    answers "?" exactly for the floors outside the set; every label fits
    the four-byte buffers [cur_s] and [tgt_s] it is copied into. *)
Theorem floor_to_string_labels (f : Z) :
  (floor_to_string f = "?" <-> ~ In f floors)
  /\ fits (CStr.c_str (floor_to_string f)) label_size = true
  /\ CStr.no_nul (floor_to_string f) = true
  /\ (forall g, In f floors -> floor_to_string f = floor_to_string g -> f = g).
Proof.
  unfold floor_to_string, floors.
  destruct (f =? -1) eqn:E1; [apply Z.eqb_eq in E1|apply Z.eqb_neq in E1].
  { subst f. repeat split; try discriminate; simpl; try tauto.
    intros g _. destruct (g =? -1) eqn:G1; [apply Z.eqb_eq in G1; auto|].
    destruct (g =? 1); [discriminate|]. destruct (g =? 2); [discriminate|].
    destruct (g =? 3); discriminate. }
  destruct (f =? 1) eqn:E2; [apply Z.eqb_eq in E2|apply Z.eqb_neq in E2].
  { subst f. repeat split; try discriminate; simpl; try tauto.
    intros g _. destruct (g =? -1); [discriminate|].
    destruct (g =? 1) eqn:G; [apply Z.eqb_eq in G; auto|].
    destruct (g =? 2); [discriminate|]. destruct (g =? 3); discriminate. }
  destruct (f =? 2) eqn:E3; [apply Z.eqb_eq in E3|apply Z.eqb_neq in E3].
  { subst f. repeat split; try discriminate; simpl; try tauto.
    intros g _. destruct (g =? -1); [discriminate|].
    destruct (g =? 1); [discriminate|].
    destruct (g =? 2) eqn:G; [apply Z.eqb_eq in G; auto|].
    destruct (g =? 3); discriminate. }
  destruct (f =? 3) eqn:E4; [apply Z.eqb_eq in E4|apply Z.eqb_neq in E4].
  { subst f. repeat split; try discriminate; simpl; try tauto.
    intros g _. destruct (g =? -1); [discriminate|].
    destruct (g =? 1); [discriminate|]. destruct (g =? 2); [discriminate|].
    destruct (g =? 3) eqn:G; [apply Z.eqb_eq in G; auto|discriminate]. }
  assert (Hout : ~ In f [-1; 1; 2; 3]) by (simpl; lia).
  split; [split; [intros _; exact Hout | reflexivity]|].
  split; [reflexivity|]. split; [reflexivity|].
  intros g Hin. contradiction.
Qed.

Lemma floor_to_string_labels_witness :
  2 = Hex.decode "0002"
  /\ fits (CStr.c_str (floor_to_string (-1))) label_size = true.
Proof.
  split.
  - apply (proj2 (proj2 (proj2 (floor_to_string_labels 2))));
      [simpl; auto | reflexivity].
  - exact (proj1 (proj2 (floor_to_string_labels (-1)))).
Defined.

(** X5. For any two C strings as fields, the bytes [send_enq] writes are
    ENQ, "0002W", the two fields and the checksum of what lies between:
    eight bytes more than the fields.  The buffer [data_part] holds its
    string exactly when the fields have at most 58 characters together, and
    then [message] holds its own. *)
Theorem frame_layout (dataNum dataValue : string) :
  CStr.no_nul dataNum = true -> CStr.no_nul dataValue = true ->
  let dp := ("0002W" ++ dataNum ++ dataValue)%string in
  frame dataNum dataValue = String ENQ (dp ++ calculate_checksum dp)
  /\ String.length (frame dataNum dataValue)
     = (String.length dataNum + String.length dataValue + 8)%nat
  /\ (fits (data_part dataNum dataValue) data_part_size = true
      <-> (String.length dataNum + String.length dataValue <= 58)%nat)
  /\ (fits (data_part dataNum dataValue) data_part_size = true ->
      fits (message dataNum dataValue) message_size = true).
Proof.
  intros Hn Hv dp.
  destruct (data_part_no_nul dataNum dataValue Hn Hv) as [Hdp Hnn].
  change (station ++ cmd ++ dataNum ++ dataValue)%string with dp in Hdp.
  destruct (message_encode dataNum dataValue Hn Hv) as [Hm _].
  assert (Hf : frame dataNum dataValue = String ENQ (dp ++ calculate_checksum dp)).
  { rewrite (frame_encode _ _ Hn Hv). unfold Spec.encode.
    change (station ++ cmd ++ dataNum ++ dataValue)%string with dp.
    rewrite Hdp in Hnn. now rewrite (calculate_checksum_spec dp Hnn). }
  assert (Hlen : String.length dp = (String.length dataNum + String.length dataValue + 5)%nat).
  { unfold dp. change ("0002W" ++ dataNum ++ dataValue)%string
      with (String "0" (String "0" (String "0" (String "2" (String "W" (dataNum ++ dataValue)))))).
    cbn [String.length]. rewrite length_append. lia. }
  assert (Hml : String.length (message dataNum dataValue)
                = (String.length dataNum + String.length dataValue + 8)%nat).
  { rewrite Hm. unfold Spec.encode, Spec.checksum.
    change (station ++ cmd ++ dataNum ++ dataValue)%string with dp.
    cbn [String.length]. rewrite length_append, length_hex_fixed, Hlen. lia. }
  split; [exact Hf|]. split.
  - rewrite Hf. cbn [String.length].
    rewrite length_append, length_calculate_checksum, Hlen. lia.
  - unfold fits, data_part_size, message_size. rewrite Hdp, Hlen, Hml. split.
    + split; intros H; [apply Nat.leb_le in H | apply Nat.leb_le]; lia.
    + intros H. apply Nat.leb_le in H. apply Nat.leb_le. lia.
Qed.

Lemma frame_layout_witness :
  String.length (frame "0001" "FFFFFFFB") = 20%nat
  /\ fits (message "0001" "FFFFFFFB") message_size = true.
Proof.
  destruct (frame_layout "0001" "FFFFFFFB" eq_refl eq_refl) as (_ & Hl & _ & Hm).
  split; [exact Hl | apply Hm; reflexivity].
Defined.

(** * Further properties of the scenario loop *)

(** ** What every step keeps, the whole run keeps *)

Section Preserved.

Variable E : env.
Variable P : world -> Prop.

Hypothesis P_printf : forall l w, P w -> P (printf l w).
Hypothesis P_rand : forall w, P w -> P (snd (rand E w)).
Hypothesis P_send : forall n v d w,
  P w -> running w = true -> P (Sleep E 1000 (send_enq E n v d w)).
Hypothesis P_sleep : forall ms w,
  P w -> running w = true -> ms = 1000 \/ ms = 3000 -> P (Sleep E ms w).

Lemma preserved_for_running n : forall i body w,
  (forall i w, P w -> running w = true -> P (body i w)) ->
  P w -> P (for_running n i body w).
Proof.
  induction n as [|n IH]; intros i body w Hb Hw; simpl; [exact Hw|].
  destruct (running w) eqn:Hr; [|exact Hw].
  apply IH; [exact Hb | now apply Hb].
Qed.

Lemma preserved_burst n v d w : P w -> P (burst E n v d w).
Proof.
  intros Hw. unfold burst. apply preserved_for_running; [|exact Hw].
  intros i w0 H0 Hr. now apply P_send.
Qed.

Lemma preserved_wait10 w : P w -> P (wait10 E w).
Proof.
  intros Hw. unfold wait10. apply preserved_for_running; [|exact Hw].
  intros i w0 H0 Hr. apply P_sleep; [assumption | assumption | now left].
Qed.

Lemma preserved_select_target fuel : forall cur w t w',
  select_target E fuel cur w = Some (t, w') -> P w -> P w'.
Proof.
  induction fuel as [|fuel IH]; intros cur w t w' H Hw; [discriminate|].
  rewrite select_target_S in H.
  destruct (drawn E w =? cur).
  - eapply IH; [exact H | now apply P_rand].
  - inversion H; subst. now apply P_rand.
Qed.

Lemma preserved_scenario fuel cf w :
  P w -> P (ctl_world (scenario E fuel cf w)).
Proof.
  intros Hw. unfold scenario.
  destruct (select_target E fuel cf w) as [[tgt w1]|] eqn:Hsel; [|exact Hw].
  apply (preserved_select_target _ _ _ _ _ Hsel) in Hw. cbv zeta.
  set (B := burst E "0001" _ _ _).
  assert (HB : P B) by (apply preserved_burst, P_printf, Hw).
  destruct (running B) eqn:RB; cbn [negb ctl_world]; [|exact HB].
  set (D := burst E "0002" (floor_to_hex tgt) _ _).
  assert (HD : P D)
    by (apply preserved_burst, P_sleep; [now apply P_printf | exact RB | now right]).
  destruct (running D) eqn:RD; cbn [negb ctl_world]; [|exact HD].
  set (G := burst E "0003" _ _ _).
  assert (HG : P G)
    by (apply preserved_burst, P_sleep; [now apply P_printf | exact RD | now right]).
  destruct (running G) eqn:RG; cbn [negb ctl_world]; [|exact HG].
  set (H := wait10 E (printf LnWait10 G)).
  assert (HH : P H) by (apply preserved_wait10, P_printf, HG).
  destruct (running H) eqn:RH; cbn [negb ctl_world]; [|exact HH].
  apply preserved_wait10, P_printf, P_printf, preserved_burst, HH.
Qed.

Lemma preserved_wmain_loop fuel : forall cf w,
  P w -> P (outcome_world (wmain_loop E fuel cf w)).
Proof.
  induction fuel as [|fuel IH]; intros cf w Hw; [exact Hw|].
  cbn [wmain_loop]. destruct (running w); [|exact Hw].
  pose proof (preserved_scenario (S fuel) cf w Hw) as Hc.
  destruct (scenario E (S fuel) cf w) as [cf' w'|cf' w'|cf' w'];
    cbn [ctl_world] in Hc; [now apply IH | exact Hc | exact Hc].
Qed.

End Preserved.

(** ** The pace of the telegrams *)

Lemma pairwise_apart_snoc l x :
  pairwise_apart l -> Forall (fun a => apart a x) l -> pairwise_apart (l ++ [x]).
Proof.
  induction l as [|a l IH]; intros Hp Hf; simpl; [split; [constructor | exact I]|].
  destruct Hp as [Ha Hl]. inversion Hf; subst. split.
  - apply Forall_app. split; [exact Ha | now constructor].
  - now apply IH.
Qed.

Lemma paced_later w w' :
  sends (trace w') = sends (trace w) -> now w <= now w' -> paced w -> paced w'.
Proof.
  intros Hs Hn [Hp Hf]. unfold paced. rewrite Hs. split; [exact Hp|].
  eapply Forall_impl; [|exact Hf]. simpl. intros a Ha. lia.
Qed.

Lemma paced_printf l w : paced w -> paced (printf l w).
Proof.
  apply paced_later; [|apply Z.le_refl].
  rewrite trace_printf, sends_app. simpl. apply app_nil_r.
Qed.

Lemma paced_Sleep E ms w : 0 <= ms -> paced w -> paced (Sleep E ms w).
Proof.
  intros Hms. apply paced_later; [|rewrite now_Sleep; lia].
  rewrite trace_Sleep, sends_app. simpl. apply app_nil_r.
Qed.

Lemma paced_send E n v d w : paced w -> paced (Sleep E 1000 (send_enq E n v d w)).
Proof.
  intros [Hp Hf]. unfold paced.
  rewrite now_Sleep, trace_Sleep, now_send_enq, sends_app.
  destruct (trace_send_enq E n v d w) as [l ->].
  rewrite sends_app. simpl. rewrite app_nil_r. split.
  - apply pairwise_apart_snoc; [exact Hp | exact Hf].
  - apply Forall_app. split.
    + eapply Forall_impl; [|exact Hf]. simpl. intros a Ha. lia.
    + constructor; [simpl; lia | constructor].
Qed.

Lemma paced_wmain_loop E fuel cf w :
  paced w -> paced (outcome_world (wmain_loop E fuel cf w)).
Proof.
  apply preserved_wmain_loop.
  - intros l w0. apply paced_printf.
  - intros w0. apply paced_later; [reflexivity | apply Z.le_refl].
  - intros n v d w0 H _. now apply paced_send.
  - intros ms w0 H _ [-> | ->]; apply paced_Sleep; (lia || assumption).
Qed.

(** X6. In every run, whatever the environment does, any two telegrams are
    written at least one second apart: a telegram is always followed by a
    one-second sleep before the next one can be written. *)
Theorem telegrams_one_second_apart (E : env) (fuel : nat) (argv2 : option Z) :
  pairwise_apart (sends (trace (outcome_world (wmain E fuel argv2)))).
Proof.
  apply (paced_wmain_loop E fuel (start_floor argv2) (initial_world E)).
  unfold paced, initial_world, deliver. simpl.
  destruct (signal_due E 0); simpl; split; (exact I || constructor).
Qed.

(** ** Full passes, and how a run ends *)

Lemma running_for_running n : forall i body w,
  running (for_running n i body w) = true -> running w = true.
Proof.
  destruct n as [|n]; intros i body w H; [exact H|].
  destruct (running w) eqn:Hr; [reflexivity|].
  rewrite for_running_S, Hr in H. congruence.
Qed.

(** A loop that ends with the flag still set has made all its passes. *)
Lemma now_for_running d n : forall i body w,
  (forall i w, now (body i w) = now w + d) ->
  running (for_running n i body w) = true ->
  now (for_running n i body w) = now w + d * Z.of_nat n.
Proof.
  induction n as [|n IH]; intros i body w Hb Hr.
  - simpl. lia.
  - rewrite for_running_S in *. destruct (running w) eqn:Hw.
    + rewrite IH, Hb by assumption. lia.
    + change (running w = true) in Hr. congruence.
Qed.

Lemma now_burst E n v d w :
  running (burst E n v d w) = true -> now (burst E n v d w) = now w + 5000.
Proof.
  intros H. unfold burst in *.
  rewrite (now_for_running 1000) by
    (assumption || (intros; rewrite now_Sleep, now_send_enq; reflexivity)).
  reflexivity.
Qed.

Lemma now_wait10 E w :
  running (wait10 E w) = true -> now (wait10 E w) = now w + 10000.
Proof.
  intros H. unfold wait10 in *.
  rewrite (now_for_running 1000) by
    (assumption || (intros; rewrite now_Sleep; reflexivity)).
  reflexivity.
Qed.

(** A pass through the body that ends with the flag still set has lasted
    46 seconds. *)
Lemma scenario_full_cycle E fuel cf w cf' w' :
  scenario E fuel cf w = Continue cf' w' ->
  running w' = true -> now w' = now w + cycle_ms.
Proof.
  unfold scenario, cycle_ms.
  destruct (select_target E fuel cf w) as [[tgt w1]|] eqn:Hsel; [|discriminate].
  apply select_target_sound in Hsel. destruct Hsel as (_ & _ & _ & N1 & _).
  cbv zeta.
  set (B := burst E "0001" _ _ _).
  destruct (running B) eqn:RB; cbn [negb]; [|discriminate].
  set (D := burst E "0002" (floor_to_hex tgt) _ _).
  destruct (running D) eqn:RD; cbn [negb]; [|discriminate].
  set (G := burst E "0003" _ _ _).
  destruct (running G) eqn:RG; cbn [negb]; [|discriminate].
  set (H := wait10 E (printf LnWait10 G)).
  destruct (running H) eqn:RH; cbn [negb]; [|discriminate].
  intros Heq Hr. inversion Heq; subst cf' w'; clear Heq.
  rewrite now_wait10 by exact Hr.
  apply running_for_running in Hr. rewrite !running_printf in Hr.
  rewrite !now_printf, (now_burst _ _ _ _ _ Hr).
  unfold H. rewrite (now_wait10 _ _ RH), now_printf.
  unfold G. rewrite (now_burst _ _ _ _ _ RG), now_Sleep, now_printf.
  unfold D. rewrite (now_burst _ _ _ _ _ RD), now_Sleep, now_printf.
  unfold B. rewrite (now_burst _ _ _ _ _ RB), now_printf. lia.
Qed.

Lemma scenario_spin E fuel cf w cf' w' :
  scenario E fuel cf w = Spin cf' w' ->
  cf' = cf /\ w' = w /\ select_target E fuel cf w = None.
Proof.
  unfold scenario.
  destruct (select_target E fuel cf w) as [[tgt w1]|].
  - cbv zeta.
    repeat match goal with
    | |- context [if negb (running ?x) then _ else _] =>
        destruct (running x); cbn [negb]; [|discriminate]
    end.
    discriminate.
  - intros H. inversion H. auto.
Qed.

Lemma select_target_fuel_le E fuel fuel' cur w r :
  (fuel <= fuel')%nat ->
  select_target E fuel cur w = Some r -> select_target E fuel' cur w = Some r.
Proof.
  revert fuel' cur w. induction fuel as [|fuel IH]; intros fuel' cur w Hle H;
    [discriminate|].
  destruct fuel' as [|fuel']; [lia|].
  rewrite select_target_S in *.
  destruct (drawn E w =? cur); [apply IH; [lia | exact H] | exact H].
Qed.

(** A generator that draws another floor within [K] draws ends every
    selection that has fuel for [K] draws. *)
Lemma select_target_within E K fuel cf w :
  draws_within E K -> (K <= fuel)%nat ->
  exists t w', select_target E fuel cf w = Some (t, w').
Proof.
  intros Hd Hle. destruct (Hd (rand_calls w) cf) as (k & Hk & Hne).
  destruct (select_target_terminates E k cf w Hne) as (t & w' & H).
  exists t, w'. apply (select_target_fuel_le E (S k)); [lia | exact H].
Qed.

Lemma wmain_loop_stopped E fuel cf w :
  running w = false -> wmain_loop E (S fuel) cf w = Exited cf w.
Proof. intros H. cbn [wmain_loop]. now rewrite H. Qed.

Lemma well_timed_wmain_loop E fuel cf w :
  well_timed E w -> well_timed E (outcome_world (wmain_loop E fuel cf w)).
Proof.
  apply preserved_wmain_loop.
  - intros l w0 (Hs & Ht & Hc). split; [now apply safe_printf | split; assumption].
  - intros w0 (Hs & Ht & Hc). split; [|split; assumption].
    destruct Hs as [Hf Htr]. split; assumption.
  - intros n v d w0 (Hs & Ht & Hc) Hr.
    pose proof (safe_not_due E w0 Hs Hr) as Hd. split; [|split].
    + apply safe_Sleep; [now apply safe_send_enq | now rewrite running_send_enq | now left].
    + unfold on_time, signal_due in *. destruct (sigint_at E) as [s|]; [|exact I].
      apply Z.leb_gt in Hd. right. rewrite now_Sleep, now_send_enq. lia.
    + unfold flag_cause. rewrite running_Sleep, running_send_enq, now_Sleep, now_send_enq, Hr.
      destruct (signal_due E (now w0 + 1000)); auto.
  - intros ms w0 (Hs & Ht & Hc) Hr Hms.
    pose proof (safe_not_due E w0 Hs Hr) as Hd. split; [|split].
    + now apply safe_Sleep.
    + unfold on_time, signal_due in *. destruct (sigint_at E) as [s|]; [|exact I].
      apply Z.leb_gt in Hd. right. rewrite now_Sleep. lia.
    + unfold flag_cause. rewrite running_Sleep, now_Sleep, Hr.
      destruct (signal_due E (now w0 + ms)); auto.
Qed.

Lemma well_timed_initial_world E : well_timed E (initial_world E).
Proof.
  split; [apply safe_initial_world|]. split.
  - unfold on_time, initial_world, deliver. destruct (sigint_at E); [left | exact I].
    simpl. now destruct (signal_due E 0).
  - unfold flag_cause, initial_world, deliver. simpl.
    destruct (signal_due E 0) eqn:Hd; simpl; auto.
Qed.

(** The loop is left with the flag cleared. *)
Lemma exited_stopped E fuel : forall cf w,
  exited (wmain_loop E fuel cf w) = true ->
  running (outcome_world (wmain_loop E fuel cf w)) = false.
Proof.
  induction fuel as [|fuel IH]; intros cf w Hx; [discriminate|].
  cbn [wmain_loop] in *. destruct (running w) eqn:Hr; [|exact Hr].
  destruct (scenario E (S fuel) cf w) as [cf' w'|cf' w'|cf' w'] eqn:Hsc.
  - now apply IH.
  - apply scenario_break_keeps_floor in Hsc. apply Hsc.
  - discriminate.
Qed.

Lemma wmain_loop_exits E K s : forall n fuel cf w,
  sigint_at E = Some s -> draws_within E K ->
  safe E w -> s - now w <= cycle_ms * Z.of_nat n ->
  (n + K < fuel)%nat ->
  exited (wmain_loop E fuel cf w) = true.
Proof.
  induction n as [|n IH]; intros fuel cf w Hsig Hd Hs Hn Hf.
  - destruct fuel as [|fuel]; [lia|].
    rewrite wmain_loop_stopped; [reflexivity|].
    destruct Hs as [Hflag _]. apply Hflag.
    unfold signal_due. rewrite Hsig. apply Z.leb_le. unfold cycle_ms in Hn. lia.
  - destruct fuel as [|fuel]; [lia|].
    destruct (running w) eqn:Hr; [|now rewrite wmain_loop_stopped].
    cbn [wmain_loop]. rewrite Hr.
    pose proof (safe_scenario E (S fuel) cf w Hs) as Hs'.
    destruct (scenario E (S fuel) cf w) as [cf' w'|cf' w'|cf' w'] eqn:Hsc;
      cbn [ctl_world] in Hs'.
    + destruct (running w') eqn:Hr'.
      * apply IH; try assumption; [|lia].
        rewrite (scenario_full_cycle _ _ _ _ _ _ Hsc Hr').
        unfold cycle_ms in *. lia.
      * destruct fuel as [|fuel]; [lia|]. now rewrite wmain_loop_stopped.
    + reflexivity.
    + apply scenario_spin in Hsc. destruct Hsc as (_ & _ & Hnone).
      destruct (select_target_within E K (S fuel) cf w Hd) as (t & w1 & Hsome); [lia|].
      congruence.
Qed.

(** X7. Once the signal is raised the simulator stops: with a generator
    that draws another floor within [K] draws, every run with a signal at
    instant [s] leaves the loop (given fuel for the passes before [s]), with
    the flag cleared, not before [s] and less than three seconds after it;
    a signal raised before the loop is reached leaves it at once, nothing
    written. *)
Theorem run_exits_after_signal (E : env) (K : nat) (s : Z) (argv2 : option Z) (fuel : nat) :
  sigint_at E = Some s ->
  draws_within E K ->
  (Z.to_nat (s / cycle_ms) + 1 + K < fuel)%nat ->
  let o := wmain E fuel argv2 in
  exited o = true
  /\ running (outcome_world o) = false
  /\ (0 < s -> s <= now (outcome_world o) < s + 3000)
  /\ (s <= 0 -> o = Exited (start_floor argv2) (mkWorld false 0 O O [])).
Proof.
  intros Hsig Hd Hf o.
  assert (Hinit : now (initial_world E) = 0)
    by (unfold initial_world, deliver; simpl; now destruct (signal_due E 0)).
  assert (Hex : exited o = true).
  { unfold o, wmain.
    apply (wmain_loop_exits E K s (Z.to_nat (s / cycle_ms) + 1)); try assumption;
      [apply safe_initial_world|].
    rewrite Hinit. unfold cycle_ms in *.
    destruct (Z_le_dec s 0) as [Hle|Hgt]; [lia|].
    rewrite Nat2Z.inj_add, Z2Nat.id by (apply Z.div_pos; lia).
    pose proof (Z.mod_pos_bound s 46000 ltac:(lia)).
    pose proof (Z.div_mod s 46000 ltac:(lia)). lia. }
  pose proof (exited_stopped E fuel _ _ Hex) as Hstop. fold (wmain E fuel argv2) in Hstop.
  fold o in Hstop.
  destruct (well_timed_wmain_loop E fuel (start_floor argv2) (initial_world E)
              (well_timed_initial_world E)) as (_ & Hot & Hc).
  fold (wmain E fuel argv2) in Hot, Hc. fold o in Hot, Hc.
  split; [exact Hex|]. split; [exact Hstop|]. split.
  - intros Hpos. split.
    + destruct Hc as [Hc|Hc]; [congruence|].
      unfold signal_due in Hc. rewrite Hsig in Hc. now apply Z.leb_le in Hc.
    + unfold on_time in Hot. rewrite Hsig in Hot. destruct Hot as [H0|H]; lia.
  - intros Hle. unfold o, wmain.
    assert (Hw : initial_world E = mkWorld false 0 O O []).
    { unfold initial_world, deliver, signal_due. rewrite Hsig. simpl.
      destruct (s <=? 0) eqn:E0; [reflexivity | apply Z.leb_gt in E0; lia]. }
    rewrite Hw. destruct fuel as [|fuel]; [lia|]. reflexivity.
Qed.

Lemma env_cycling_draws sig : draws_within (env_cycling sig) 2.
Proof.
  intros n cf. unfold env_cycling. cbn [rand_stream].
  change num_floors with 4%nat.
  assert (Hr : (n mod 4 < 4)%nat) by (apply Nat.mod_upper_bound; discriminate).
  assert (Hs : ((n + 1) mod 4 = (n mod 4 + 1) mod 4)%nat).
  { rewrite (Nat.Div0.add_mod n 1 4). reflexivity. }
  destruct (Z.eq_dec (nth (n mod 4)%nat floors 0) cf) as [Heq|Hne].
  - exists 1%nat. split; [lia|].
    rewrite Hs. intros H. rewrite <- Heq in H.
    destruct (n mod 4)%nat as [|[|[|[|r]]]]; simpl in H; lia.
  - exists 0%nat. split; [lia|]. now rewrite Nat.add_0_r.
Qed.

Lemma run_exits_after_signal_witness :
  let o := wmain (env_cycling (Some 5001)) 4 None in
  exited o = true
  /\ running (outcome_world o) = false
  /\ 5001 <= now (outcome_world o) < 5001 + 3000.
Proof.
  destruct (run_exits_after_signal (env_cycling (Some 5001)) 2 5001 None 4
              eq_refl (env_cycling_draws (Some 5001)))
    as (Hx & Hr & Ht & _).
  - vm_compute. lia.
  - split; [exact Hx | split; [exact Hr | apply Ht; lia]].
Defined.

(** ** Runs without a signal *)

Lemma running_without_signal E fuel cf w :
  sigint_at E = None -> running w = true ->
  running (outcome_world (wmain_loop E fuel cf w)) = true.
Proof.
  intros Hsig. apply (preserved_wmain_loop E (fun w => running w = true)).
  - intros l w0 H. exact H.
  - intros w0 H. exact H.
  - intros n v d w0 H _. rewrite running_Sleep, running_send_enq, H.
    unfold signal_due. now rewrite Hsig.
  - intros ms w0 H _ _. rewrite running_Sleep, H.
    unfold signal_due. now rewrite Hsig.
Qed.

Lemma length_schedule cf tgt t0 :
  List.length (Spec.schedule cf tgt t0 Spec.stage_order) = 20%nat.
Proof. reflexivity. Qed.

Lemma sends_grow E fuel cf w :
  (List.length (sends (trace w))
   <= List.length (sends (trace (outcome_world (wmain_loop E fuel cf w)))))%nat.
Proof.
  destruct (extends_wmain_loop E fuel cf w) as [l ->].
  rewrite sends_app, length_app. lia.
Qed.

Lemma cycle_without_signal E k cf w tgt w1 :
  running w = true -> sigint_at E = None ->
  select_target E (S k) cf w = Some (tgt, w1) ->
  exists w',
    wmain_loop E (S k) cf w = wmain_loop E k tgt w'
    /\ sends (trace w')
       = sends (trace w) ++ Spec.schedule cf tgt (now w) Spec.stage_order
    /\ running w' = true.
Proof.
  intros Hr Hsig Hsel.
  destruct (scenario_uncancelled E (S k) cf w tgt w1 Hr) as (w' & Hsc & R & _ & S);
    [unfold quiet_until; now rewrite Hsig | exact Hsel |].
  exists w'. split; [|split; assumption].
  cbn [wmain_loop]. now rewrite Hr, Hsc.
Qed.

Lemma cycles_without_signal E K :
  sigint_at E = None -> draws_within E K ->
  forall m fuel cf w,
    running w = true -> (m + K <= fuel)%nat ->
    (List.length (sends (trace w)) + 20 * m
     <= List.length (sends (trace (outcome_world (wmain_loop E fuel cf w)))))%nat.
Proof.
  intros Hsig Hd. induction m as [|m IH]; intros fuel cf w Hr Hf.
  - rewrite Nat.mul_0_r, Nat.add_0_r. apply sends_grow.
  - destruct fuel as [|fuel]; [lia|].
    destruct (select_target_within E K (S fuel) cf w Hd) as (tgt & w1 & Hsel); [lia|].
    destruct (cycle_without_signal E fuel cf w tgt w1 Hr Hsig Hsel)
      as (w' & Hloop & Hsends & Hr').
    rewrite Hloop.
    eapply Nat.le_trans; [|apply IH; [exact Hr' | lia]].
    rewrite Hsends, length_app, length_schedule. lia.
Qed.

Lemma running_scenario_without_signal E fuel cf w :
  sigint_at E = None -> running w = true ->
  running (ctl_world (scenario E fuel cf w)) = true.
Proof.
  intros Hsig. apply (preserved_scenario E (fun w => running w = true)).
  - intros l w0 H. exact H.
  - intros w0 H. exact H.
  - intros n v d w0 H _. rewrite running_Sleep, running_send_enq, H.
    unfold signal_due. now rewrite Hsig.
  - intros ms w0 H _ _. rewrite running_Sleep, H.
    unfold signal_due. now rewrite Hsig.
Qed.

Lemma never_exits_without_signal E :
  sigint_at E = None ->
  forall fuel cf w, running w = true -> exited (wmain_loop E fuel cf w) = false.
Proof.
  intros Hsig fuel. induction fuel as [|fuel IH]; intros cf w Hr; [reflexivity|].
  cbn [wmain_loop]. rewrite Hr.
  pose proof (running_scenario_without_signal E (S fuel) cf w Hsig Hr) as Hc.
  destruct (scenario E (S fuel) cf w) as [cf' w'|cf' w'|cf' w'] eqn:Hsc;
    cbn [ctl_world] in Hc.
  - now apply IH.
  - apply scenario_break_keeps_floor in Hsc. destruct Hsc as [_ Hf]. congruence.
  - reflexivity.
Qed.

(** X8. Without a signal the simulator never leaves the loop, and with a
    generator that draws another floor within [K] draws it keeps sending:
    fuel for [m] more passes shows at least [20 * m] telegrams. *)
Theorem run_without_signal (E : env) (K m fuel : nat) (argv2 : option Z) :
  sigint_at E = None ->
  let o := wmain E fuel argv2 in
  exited o = false
  /\ running (outcome_world o) = true
  /\ (draws_within E K -> (m + K <= fuel)%nat ->
      (20 * m <= List.length (sends (trace (outcome_world o))))%nat).
Proof.
  intros Hsig o.
  assert (Hinit : initial_world E = mkWorld true 0 O O []).
  { unfold initial_world, deliver, signal_due. now rewrite Hsig. }
  unfold o, wmain. rewrite Hinit.
  split; [now apply never_exits_without_signal|]. split.
  - now apply running_without_signal.
  - intros Hd Hf.
    exact (cycles_without_signal E K Hsig Hd m fuel (start_floor argv2)
             (mkWorld true 0 O O []) eq_refl Hf).
Qed.

Lemma run_without_signal_witness :
  let o := wmain (env_cycling None) 5 (Some 3) in
  exited o = false /\ (60 <= List.length (sends (trace (outcome_world o))))%nat.
Proof.
  destruct (run_without_signal (env_cycling None) 2 3 5 (Some 3) eq_refl)
    as (Hx & _ & Hn).
  split; [exact Hx|]. apply Hn; [apply env_cycling_draws | lia].
Defined.

(** ** The current floor *)

Lemma scenario_floor E fuel cf w :
  ctl_floor (scenario E fuel cf w) = cf
  \/ (In (ctl_floor (scenario E fuel cf w)) floors
      /\ ctl_floor (scenario E fuel cf w) <> cf).
Proof.
  destruct (scenario E fuel cf w) as [cf' w'|cf' w'|cf' w'] eqn:Hsc; cbn [ctl_floor].
  - right. destruct (scenario_continue_target _ _ _ _ _ _ Hsc) as [w1 Hsel].
    apply select_target_sound in Hsel. tauto.
  - left. now apply scenario_break_keeps_floor in Hsc.
  - left. now apply scenario_spin in Hsc.
Qed.

Lemma wmain_loop_floor E fuel : forall cf w,
  outcome_floor (wmain_loop E fuel cf w) = cf
  \/ In (outcome_floor (wmain_loop E fuel cf w)) floors.
Proof.
  induction fuel as [|fuel IH]; intros cf w; [now left|].
  cbn [wmain_loop]. destruct (running w); [|now left].
  pose proof (scenario_floor E (S fuel) cf w) as Hc.
  destruct (scenario E (S fuel) cf w) as [cf' w'|cf' w'|cf' w'];
    cbn [ctl_floor outcome_floor] in *.
  - destruct (IH cf' w') as [-> | Hin]; [|now right].
    destruct Hc as [-> | [Hin _]]; [now left | now right].
  - destruct Hc as [-> | [Hin _]]; [now left | now right].
  - destruct Hc as [-> | [Hin _]]; [now left | now right].
Qed.

Lemma floor_to_string_of_set f : In f floors -> floor_to_string f <> "?".
Proof.
  simpl. intros [<-|[<-|[<-|[<-|[]]]]]; discriminate.
Qed.

(** X9. Whatever integer the simulator is started on, its current floor is
    at any time that starting floor or one of -1, 1, 2, 3; once it differs
    from a starting floor outside the set it has a proper label and a
    four-character data value. *)
Theorem current_floor_known (E : env) (fuel : nat) (argv2 : option Z) :
  let cf := outcome_floor (wmain E fuel argv2) in
  (cf = start_floor argv2 \/ In cf [-1; 1; 2; 3])
  /\ (cf <> start_floor argv2 ->
      floor_to_string cf <> "?" /\ String.length (floor_to_hex cf) = 4%nat).
Proof.
  intros cf.
  pose proof (wmain_loop_floor E fuel (start_floor argv2) (initial_world E)) as H.
  fold (wmain E fuel argv2) in H. fold cf in H.
  split; [exact H|]. intros Hne. destruct H as [H|H]; [contradiction|].
  split.
  - now apply floor_to_string_of_set.
  - apply floor_to_hex_wire, wire_floor_of_set, H.
Qed.

Lemma current_floor_known_witness :
  floor_to_string (outcome_floor (wmain (env_cycling None) 3 (Some 7))) <> "?"
  /\ String.length (floor_to_hex (outcome_floor (wmain (env_cycling None) 3 (Some 7))))
     = 4%nat.
Proof.
  apply (proj2 (current_floor_known (env_cycling None) 3 (Some 7))).
  intros H. vm_compute in H. discriminate H.
Defined.

(** * The start and the end of [wmain] *)

Module WinFacts.

Import Win.

Lemma wcsncmp_eq_prefix a :
  wcsncmp_eq 4 a device_prefix = true <-> exists rest, a = device_prefix ++ rest.
Proof.
  unfold device_prefix. split.
  - intros H. destruct a as [|x0 [|x1 [|x2 [|x3 rest]]]]; simpl in H;
      repeat (apply andb_true_iff in H; destruct H as [? H]);
      try discriminate.
    exists rest.
    repeat match goal with
    | E : (_ =? _) = true |- _ => apply Z.eqb_eq in E; subst
    end. reflexivity.
  - intros [rest ->]. reflexivity.
Qed.

(** A text that [swprintf] completes keeps the prefix and at most 59 units
    of the argument. *)
Lemma swprintf_prefix a :
  swprintf fullPort_size (device_prefix ++ a) = device_prefix ++ firstn 59 a.
Proof. reflexivity. Qed.

Lemma full_port_starts argv1 : exists rest, full_port argv1 = device_prefix ++ rest.
Proof.
  destruct argv1 as [a|]; unfold full_port; [|eexists; reflexivity].
  destruct (wcsncmp_eq 4 a device_prefix) eqn:H.
  - now apply wcsncmp_eq_prefix.
  - rewrite swprintf_prefix. eexists. reflexivity.
Qed.

End WinFacts.

(** X10. The port name [wmain] opens.  A name given with the device
    prefix is copied as it is, without a bound: a name of at most 63 units
    is kept whole, a longer one is written beyond the 64 units of
    [fullPort].  A name given without the prefix is completed by
    [swprintf(fullPort, 64, ...)], which never leaves the buffer: an
    argument of at most 59 units gets the prefix in front, so that both
    spellings open the same port; of an argument of 60 units or more only
    the first 59 are kept behind the prefix, and the port opened is not the
    one named.  Without an argument the port is COM31.  Whenever the name
    is inside the buffer it starts with the device prefix. *)
Theorem full_port_completed (a : Win.wstring) :
  (Win.wcsncmp_eq 4 a Win.device_prefix = true ->
   ((List.length a <= 63)%nat ->
    Win.full_port (Some a) = a
    /\ Win.wfits (Win.full_port (Some a)) Win.fullPort_size = true)
   /\ ((64 <= List.length a)%nat -> Win.wfits a Win.fullPort_size = false))
  /\ (Win.wcsncmp_eq 4 a Win.device_prefix = false ->
      Win.full_port (Some a) = Win.device_prefix ++ firstn 59 a
      /\ Win.wfits (Win.full_port (Some a)) Win.fullPort_size = true)
  /\ (Win.wcsncmp_eq 4 a Win.device_prefix = false ->
      (List.length a <= 59)%nat ->
      Win.full_port (Some a) = Win.device_prefix ++ a
      /\ Win.full_port (Some a) = Win.full_port (Some (Win.device_prefix ++ a)))
  /\ (Win.wcsncmp_eq 4 a Win.device_prefix = false ->
      (60 <= List.length a)%nat ->
      List.length (Win.full_port (Some a)) = 63%nat
      /\ Win.full_port (Some a) <> Win.device_prefix ++ a)
  /\ (Win.wfits (Win.full_port (Some a)) Win.fullPort_size = true ->
      exists rest, Win.full_port (Some a) = Win.device_prefix ++ rest)
  /\ Win.full_port None
     = Win.device_prefix ++ [67; 79; 77; 51; 49].
Proof.
  assert (Hp : forall b, Win.full_port (Some (Win.device_prefix ++ b))
                         = Win.device_prefix ++ b).
  { intros b. unfold Win.full_port.
    now rewrite (proj2 (WinFacts.wcsncmp_eq_prefix _) (ex_intro _ b eq_refl)). }
  assert (Hs : Win.wcsncmp_eq 4 a Win.device_prefix = false ->
               Win.full_port (Some a) = Win.device_prefix ++ firstn 59 a).
  { intros H. unfold Win.full_port. rewrite H. apply WinFacts.swprintf_prefix. }
  split; [|split; [|split; [|split; [|split; [|reflexivity]]]]].
  - intros H. unfold Win.full_port. rewrite H.
    unfold Win.wfits, Win.fullPort_size. split.
    + intros Hlen. split; [reflexivity | apply Nat.leb_le; lia].
    + intros Hlen. apply Nat.leb_gt. lia.
  - intros H. split; [now apply Hs|]. rewrite (Hs H).
    unfold Win.wfits, Win.fullPort_size. apply Nat.leb_le.
    rewrite length_app, length_firstn.
    change (List.length Win.device_prefix) with 4%nat. lia.
  - intros H Hlen. rewrite Hp, (Hs H), firstn_all2 by lia. split; reflexivity.
  - intros H Hlen. rewrite (Hs H). split.
    + rewrite length_app, length_firstn.
      change (List.length Win.device_prefix) with 4%nat. lia.
    + intros Heq. apply (f_equal (@List.length Z)) in Heq.
      rewrite !length_app, length_firstn in Heq. lia.
  - intros _. apply WinFacts.full_port_starts.
Qed.

Lemma full_port_completed_witness :
  (Win.full_port (Some [67; 79; 77; 51])
   = Win.full_port (Some (Win.device_prefix ++ [67; 79; 77; 51]))
   /\ Win.wfits (Win.full_port (Some [67; 79; 77; 51])) Win.fullPort_size = true)
  /\ Win.full_port (Some (Win.device_prefix ++ [67; 79; 77; 51]))
     = Win.device_prefix ++ [67; 79; 77; 51]
  /\ List.length (Win.full_port (Some (repeat 65 60))) = 63%nat
  /\ Win.wfits (Win.device_prefix ++ repeat 65 60) Win.fullPort_size = false
  /\ exists rest, Win.full_port (Some (repeat 65 60)) = Win.device_prefix ++ rest.
Proof.
  split; [|split; [|split; [|split]]].
  - destruct (full_port_completed [67; 79; 77; 51]) as (_ & Hfit & Hsame & _).
    split; [apply Hsame; [reflexivity | simpl; lia] | apply Hfit; reflexivity].
  - destruct (full_port_completed (Win.device_prefix ++ [67; 79; 77; 51]))
      as (Hcopy & _).
    apply Hcopy; [reflexivity | simpl; lia].
  - destruct (full_port_completed (repeat 65 60)) as (_ & _ & _ & Hcut & _).
    apply Hcut; [reflexivity | simpl; lia].
  - destruct (full_port_completed (Win.device_prefix ++ repeat 65 60))
      as (Hcopy & _).
    apply Hcopy; [reflexivity | simpl; lia].
  - destruct (full_port_completed (repeat 65 60)) as (_ & _ & _ & _ & Hstart & _).
    apply Hstart. reflexivity.
Defined.

(** X11. [wmain] returns 1 exactly when [init_serial] fails, that is when
    the port cannot be opened, read or set up (the result of
    [SetCommTimeouts] is not looked at), and then the loop is never entered.
    It returns 0 only after the loop was left, and then the handle has been
    closed as the last call; when the port opened but could not be read or
    set up, the handle is still open at the return. *)
Theorem wmain_program_handle (C : Win.consts) (O : Win.port_os) (E : env)
    (fuel : nat) (argv1 : option Win.wstring) (argv2 : option Z) :
  let port := Win.full_port argv1 in
  let set_up := Win.CreateFileW O port
                && match Win.GetCommState O with
                   | Some read =>
                       Win.SetCommState O
                         (Win.mkDCB (Win.DCBlength read) (Win.CBR_9600 C) 8
                                    (Win.EVENPARITY C) (Win.ONESTOPBIT C)
                                    (Win.other_fields read))
                   | None => false
                   end in
  let '(ending, calls, loop) := Win.wmain_program C O E fuel argv1 argv2 in
  (ending = Win.Returned 1 <-> set_up = false)
  /\ (ending = Win.Returned 1 ->
      loop = None /\ Win.handle_open calls false = Win.CreateFileW O port)
  /\ (ending = Win.Returned 0 ->
      loop = Some (wmain E fuel argv2) /\ exited (wmain E fuel argv2) = true
      /\ Win.handle_open calls false = false
      /\ exists before, calls = before ++ [Win.CallCloseHandle; Win.PrintDisconnected])
  /\ (ending = Win.StillRunning -> exited (wmain E fuel argv2) = false)
  /\ (exists rest, calls = Win.CallCreateFile port (Win.CreateFileW O port) :: rest).
Proof.
  intros port set_up. unfold Win.wmain_program, Win.init_serial. fold port.
  subst set_up.
  destruct (Win.CreateFileW O port) eqn:Hc; cbn [negb andb].
  2:{ repeat split; try discriminate; try reflexivity; eauto. }
  destruct (Win.GetCommState O) as [read|] eqn:Hg.
  2:{ repeat split; try discriminate; try reflexivity; eauto. }
  match goal with |- context [Win.SetCommState O ?d] =>
    destruct (Win.SetCommState O d) eqn:Hs end; cbn [negb].
  2:{ repeat split; try discriminate; try reflexivity; eauto. }
  destruct (exited (wmain E fuel argv2)) eqn:Hx.
  - repeat split; try discriminate; try reflexivity; eauto.
    eexists. rewrite <- app_comm_cons. reflexivity.
  - repeat split; try discriminate; try reflexivity; eauto.
Qed.

Lemma wmain_program_handle_witness :
  Win.handle_open
    (snd (fst (Win.wmain_program Win.windows_consts Win.port_refusing
                 (env_cycling None) 1 None None))) false = true
  /\ Win.handle_open
       (snd (fst (Win.wmain_program Win.windows_consts Win.port_ready
                    (env_cycling (Some 5001)) 4 None None))) false = false.
Proof.
  split.
  - generalize (wmain_program_handle Win.windows_consts Win.port_refusing
                  (env_cycling None) 1 None None).
    cbv zeta.
    destruct (Win.wmain_program Win.windows_consts Win.port_refusing
                (env_cycling None) 1 None None) as [[e c] l] eqn:Hp.
    assert (He : e = Win.Returned 1) by (vm_compute in Hp; congruence).
    intros (_ & Hleak & _). cbn [fst snd].
    destruct (Hleak He) as [_ ->]. reflexivity.
  - generalize (wmain_program_handle Win.windows_consts Win.port_ready
                  (env_cycling (Some 5001)) 4 None None).
    cbv zeta.
    destruct (Win.wmain_program Win.windows_consts Win.port_ready
                (env_cycling (Some 5001)) 4 None None) as [[e c] l] eqn:Hp.
    assert (He : e = Win.Returned 0) by (vm_compute in Hp; congruence).
    intros (_ & _ & Hclosed & _). cbn [fst snd].
    destruct (Hclosed He) as (_ & _ & Hh & _). exact Hh.
Defined.

(** * The serial port of the monitor *)

Module PosixFacts.

Import Posix.

Ltac bit_of H n :=
  let Hb := fresh "Hb" in
  pose proof (f_equal (fun z => Z.testbit z n) H) as Hb; cbv beta in Hb;
  rewrite ?Z.land_spec, ?Z.bits_0 in Hb.

Ltac bitwise :=
  apply Z.bits_inj'; intros n Hn;
  repeat first [rewrite Z.land_spec | rewrite Z.lor_spec
               | rewrite Z.lnot_spec by assumption | rewrite Z.bits_0].

Section Flags.

Variable C : consts.
Hypothesis Hm : masks_apart C.

Lemma set_cflag_size f : Z.land (set_cflag C f) (CSIZE C) = CS8 C.
Proof.
  destruct Hm as (H1 & H2 & H3 & H4 & H5 & H6). unfold set_cflag.
  bitwise. bit_of H1 n. bit_of H2 n. bit_of H3 n. bit_of H4 n.
  destruct (Z.testbit f n), (Z.testbit (CSIZE C) n), (Z.testbit (CS8 C) n),
    (Z.testbit (PARENB C) n), (Z.testbit (PARODD C) n), (Z.testbit (CSTOPB C) n);
    simpl in *; congruence.
Qed.

Lemma set_cflag_parity f :
  Z.land (set_cflag C f) (PARENB C) = PARENB C
  /\ Z.land (set_cflag C f) (PARODD C) = 0.
Proof.
  destruct Hm as (H1 & H2 & H3 & H4 & H5 & H6). unfold set_cflag. split.
  - bitwise. bit_of H5 n. bit_of H6 n.
    destruct (Z.testbit f n), (Z.testbit (CSIZE C) n), (Z.testbit (CS8 C) n),
      (Z.testbit (PARENB C) n), (Z.testbit (PARODD C) n), (Z.testbit (CSTOPB C) n);
      simpl in *; congruence.
  - bitwise.
    destruct (Z.testbit f n), (Z.testbit (CSIZE C) n), (Z.testbit (CS8 C) n),
      (Z.testbit (PARENB C) n), (Z.testbit (PARODD C) n), (Z.testbit (CSTOPB C) n);
      reflexivity.
Qed.

Lemma set_cflag_stop f : Z.land (set_cflag C f) (CSTOPB C) = 0.
Proof.
  unfold set_cflag. bitwise.
  destruct (Z.testbit f n), (Z.testbit (CSIZE C) n), (Z.testbit (CS8 C) n),
    (Z.testbit (PARENB C) n), (Z.testbit (PARODD C) n), (Z.testbit (CSTOPB C) n);
    reflexivity.
Qed.

Lemma set_cflag_others f :
  Z.land (set_cflag C f) (Z.lnot (cflag_mask C)) = Z.land f (Z.lnot (cflag_mask C)).
Proof.
  destruct Hm as (H1 & H2 & H3 & H4 & H5 & H6). unfold set_cflag, cflag_mask.
  bitwise. bit_of H1 n.
  destruct (Z.testbit f n), (Z.testbit (CSIZE C) n), (Z.testbit (CS8 C) n),
    (Z.testbit (PARENB C) n), (Z.testbit (PARODD C) n), (Z.testbit (CSTOPB C) n);
    simpl in *; congruence.
Qed.

End Flags.

Lemma nth_store_same i v a d : (i < List.length a)%nat -> nth i (store i v a) d = v.
Proof.
  revert i. induction a as [|x a IH]; intros i Hi; [simpl in Hi; lia|].
  destruct i; simpl; [reflexivity | apply IH; simpl in Hi; lia].
Qed.

Lemma nth_store_other i j v a d : i <> j -> nth i (store j v a) d = nth i a d.
Proof.
  revert i j. induction a as [|x a IH]; intros i j Hne; [destruct j; reflexivity|].
  destruct i, j; simpl; try reflexivity; [contradiction | apply IH; lia].
Qed.

Lemma length_store i v a : List.length (store i v a) = List.length a.
Proof.
  revert i. induction a as [|x a IH]; intros i; [destruct i; reflexivity|].
  destruct i; simpl; [reflexivity | now rewrite IH].
Qed.

End PosixFacts.

(** X12. When [open_serial] opens a port for monitoring, the settings it
    writes are those it read with the character size set to 8 bits, parity
    enabled and even, one stop bit, every other control flag as the speed
    setters left it, input, output and local flags cleared, and a read
    made to wait for 16 bytes or 0.5 s; this whatever the settings were
    before. *)
Theorem open_serial_line_settings (C : Posix.consts) (S : Posix.os)
    (port : string) (fd : Z) (calls : list Posix.call) :
  masks_apart C -> Posix.VMIN C <> Posix.VTIME C ->
  Posix.open_serial C S port false = (fd, calls) -> 0 <= fd ->
  exists read,
    Posix.sys_tcgetattr S fd = Some read
    /\ Posix.settings_written calls = [Posix.configure C read]
    /\ let before := Posix.cfsetospeed C (Posix.cfsetispeed C read (Posix.B9600 C))
                                       (Posix.B9600 C) in
       let after := Posix.configure C read in
       Z.land (Posix.c_cflag after) (Posix.CSIZE C) = Posix.CS8 C
       /\ Z.land (Posix.c_cflag after) (Posix.PARENB C) = Posix.PARENB C
       /\ Z.land (Posix.c_cflag after) (Posix.PARODD C) = 0
       /\ Z.land (Posix.c_cflag after) (Posix.CSTOPB C) = 0
       /\ Z.land (Posix.c_cflag after) (Z.lnot (cflag_mask C))
          = Z.land (Posix.c_cflag before) (Z.lnot (cflag_mask C))
       /\ Posix.c_iflag after = 0 /\ Posix.c_oflag after = 0
       /\ Posix.c_lflag after = 0
       /\ Posix.speeds after = Posix.speeds before
       /\ ((Posix.VMIN C < List.length (Posix.c_cc before))%nat ->
           nth (Posix.VMIN C) (Posix.c_cc after) 0 = 16)
       /\ ((Posix.VTIME C < List.length (Posix.c_cc before))%nat ->
           nth (Posix.VTIME C) (Posix.c_cc after) 0 = 5).
Proof.
  intros Hm Hne Hopen Hfd. unfold Posix.open_serial in Hopen.
  set (fd0 := Posix.sys_open S port (Posix.open_flags C false)) in *.
  destruct (fd0 <? 0) eqn:Hneg; [inversion Hopen; lia|]. cbn [negb] in Hopen.
  destruct (Posix.sys_tcgetattr S fd0) as [read|] eqn:Hget; [|inversion Hopen; lia].
  destruct (Posix.sys_tcsetattr S fd0 (Posix.configure C read)) eqn:Hset;
    cbn [negb] in Hopen; inversion Hopen; subst fd calls; [|lia].
  exists read. split; [exact Hget|]. split; [reflexivity|].
  cbv zeta. unfold Posix.configure at 1 2 3 4 5. cbn [Posix.c_cflag].
  split; [apply PosixFacts.set_cflag_size, Hm|].
  split; [apply PosixFacts.set_cflag_parity, Hm|].
  split; [apply PosixFacts.set_cflag_parity, Hm|].
  split; [apply PosixFacts.set_cflag_stop|].
  split; [apply PosixFacts.set_cflag_others, Hm|].
  unfold Posix.configure. cbn [Posix.c_iflag Posix.c_oflag Posix.c_lflag Posix.speeds Posix.c_cc].
  repeat (split; [reflexivity|]). split.
  - intros Hlen. rewrite PosixFacts.nth_store_other by exact Hne.
    now apply PosixFacts.nth_store_same.
  - intros Hlen. apply PosixFacts.nth_store_same.
    now rewrite PosixFacts.length_store.
Qed.

Lemma open_serial_line_settings_witness :
  exists read,
    Posix.sys_tcgetattr Posix.one_port 3 = Some read
    /\ Z.land (Posix.c_cflag (Posix.configure Posix.linux read)) 48 = 48
    /\ nth 6 (Posix.c_cc (Posix.configure Posix.linux read)) 0 = 16
    /\ nth 5 (Posix.c_cc (Posix.configure Posix.linux read)) 0 = 5.
Proof.
  assert (Hm : masks_apart Posix.linux) by (repeat split; reflexivity).
  assert (Hne : Posix.VMIN Posix.linux <> Posix.VTIME Posix.linux) by discriminate.
  destruct (open_serial_line_settings Posix.linux Posix.one_port "/dev/ttyUSB0" 3
              (snd (Posix.open_serial Posix.linux Posix.one_port "/dev/ttyUSB0" false))
              Hm Hne eq_refl ltac:(lia))
    as (read & Hget & _ & Hsize & _ & _ & _ & _ & _ & _ & _ & _ & Hmin & Htime).
  exists read. split; [exact Hget|]. split; [exact Hsize|].
  assert (Hread : read = Posix.mkTermios 1280 5 3261 35387 (repeat 0 32) (15, 15))
    by (vm_compute in Hget; inversion Hget; reflexivity).
  split; [apply Hmin | apply Htime]; rewrite Hread; simpl; lia.
Defined.

(** ** Descriptors *)

Module DescriptorFacts.

Import Posix.

Lemma descriptor_app a : forall b cur,
  descriptor (a ++ b) cur
  = match descriptor a cur with
    | Some c => descriptor b c
    | None => None
    end.
Proof.
  induction a as [|c a IH]; intros b cur; [reflexivity|].
  destruct c, cur as [o|]; simpl; try reflexivity; try apply IH;
    match goal with |- context [?x =? ?y] => destruct (x =? y) end;
    (reflexivity || apply IH).
Qed.

Lemma descriptor_open_serial C S port nonblock :
  descriptor (snd (open_serial C S port nonblock)) None
  = Some (if fst (open_serial C S port nonblock) <? 0 then None
          else Some (fst (open_serial C S port nonblock)))
  /\ (fst (open_serial C S port nonblock) = -1
      \/ 0 <= fst (open_serial C S port nonblock)).
Proof.
  unfold open_serial.
  set (fd := sys_open S port (open_flags C nonblock)).
  destruct (fd <? 0) eqn:Hneg.
  - simpl. rewrite Hneg. auto.
  - assert (Hpos : 0 <= fd) by (apply Z.ltb_ge in Hneg; exact Hneg).
    destruct nonblock; cbn [negb].
    + simpl. rewrite Hneg. auto.
    + destruct (sys_tcgetattr S fd) as [tio|].
      * destruct (sys_tcsetattr S fd (configure C tio)); cbn [negb fst snd];
          simpl; rewrite Hneg, Z.eqb_refl; auto.
      * simpl. rewrite Hneg, Z.eqb_refl. auto.
Qed.

Lemma descriptor_probe C S port : descriptor (probe C S port) None = Some None.
Proof.
  unfold probe.
  destruct (descriptor_open_serial C S port true) as [Hd Hr].
  destruct (open_serial C S port true) as [fd calls]. cbn [fst snd] in *.
  destruct (0 <=? fd) eqn:Hp; rewrite descriptor_app, Hd.
  - apply Z.leb_le in Hp. destruct (fd <? 0) eqn:Hn; [apply Z.ltb_lt in Hn; lia|].
    simpl. now rewrite Z.eqb_refl.
  - apply Z.leb_gt in Hp. destruct (fd <? 0) eqn:Hn; [reflexivity|].
    apply Z.ltb_ge in Hn. lia.
Qed.

Lemma descriptor_probes C S l : descriptor (flat_map (probe C S) l) None = Some None.
Proof.
  induction l as [|p l IH]; [reflexivity|].
  simpl. now rewrite descriptor_app, descriptor_probe.
Qed.

Lemma descriptor_monitor_passes fd ticks : forall last,
  descriptor (monitor_passes fd ticks last) (Some fd) = Some (Some fd).
Proof.
  induction ticks as [|tk rest IH]; intros last; [reflexivity|].
  cbn [monitor_passes]. destruct (Monitor.step last tk) as [la outs].
  cbn [descriptor]. rewrite Z.eqb_refl, descriptor_app.
  assert (Hp : forall l : list Monitor.out,
             descriptor (map (fun o => Print (LnOut o)) l) (Some fd) = Some (Some fd))
    by (induction l; simpl; auto).
  destruct tk; [simpl; apply IH | rewrite Hp; apply IH].
Qed.

Lemma descriptor_monitor_serial C S port t0 ticks :
  descriptor (monitor_serial C S port t0 ticks) None = Some None.
Proof.
  unfold monitor_serial.
  destruct (descriptor_open_serial C S port false) as [Hd Hr].
  destruct (open_serial C S port false) as [fd calls]. cbn [fst snd] in *.
  destruct (fd <? 0) eqn:Hn; rewrite descriptor_app, Hd.
  - reflexivity.
  - cbn [app descriptor]. rewrite descriptor_app, descriptor_monitor_passes.
    simpl. now rewrite Z.eqb_refl.
Qed.

Lemma descriptor_test_serial_ports C S :
  descriptor (test_serial_ports C S) None = Some None.
Proof.
  unfold test_serial_ports.
  change (descriptor (flat_map (probe C S) ports) None = Some None).
  apply descriptor_probes.
Qed.

End DescriptorFacts.

(** X13. The monitor program uses its descriptors soundly, whatever the
    system answers: in every mode of [main] no call is ever made on a
    descriptor that is not open, no port is opened while another is open,
    every descriptor opened is closed again, also when the settings cannot
    be read or written, and [main] returns 0. *)
Theorem main_descriptors (C : Posix.consts) (S : Posix.os)
    (argv1 : option string) (t0 : Z) (ticks : list Monitor.tick) :
  fst (Posix.main C S argv1 t0 ticks) = 0
  /\ Posix.descriptor (snd (Posix.main C S argv1 t0 ticks)) None = Some None.
Proof.
  unfold Posix.main. destruct argv1 as [a|].
  - destruct (String.eqb a "test"); cbn [fst snd]; split; try reflexivity.
    + apply DescriptorFacts.descriptor_test_serial_ports.
    + apply DescriptorFacts.descriptor_monitor_serial.
  - cbn [fst snd]. split; [reflexivity|].
    cbn [app Posix.descriptor].
    rewrite DescriptorFacts.descriptor_app,
      DescriptorFacts.descriptor_test_serial_ports.
    cbn [app Posix.descriptor].
    apply DescriptorFacts.descriptor_monitor_serial.
Qed.

(** ** What the monitor program prints and reads *)

Module ProgramFacts.

Import Posix.

Lemma lines_printed_app a b :
  lines_printed (a ++ b) = lines_printed a ++ lines_printed b.
Proof.
  induction a as [|c a IH]; [reflexivity|]. destruct c; simpl; now rewrite ?IH.
Qed.

Lemma ports_opened_app a b :
  ports_opened (a ++ b) = ports_opened a ++ ports_opened b.
Proof.
  induction a as [|c a IH]; [reflexivity|]. destruct c; simpl; now rewrite ?IH.
Qed.

Lemma settings_written_app a b :
  settings_written (a ++ b) = settings_written a ++ settings_written b.
Proof.
  induction a as [|c a IH]; [reflexivity|]. destruct c; simpl; now rewrite ?IH.
Qed.

Lemma reads_made_app a b : reads_made (a ++ b) = (reads_made a + reads_made b)%nat.
Proof.
  induction a as [|c a IH]; [reflexivity|]. destruct c; simpl; now rewrite ?IH.
Qed.

Lemma backoffs_app a b : backoffs (a ++ b) = (backoffs a + backoffs b)%nat.
Proof.
  induction a as [|c a IH]; [reflexivity|]. destruct c; simpl; now rewrite ?IH.
Qed.

(** One port of the search. *)
Lemma probe_facts C S port :
  ports_opened (probe C S port) = [(port, open_flags C true)]
  /\ lines_printed (probe C S port) = [probe_line C S port]
  /\ settings_written (probe C S port) = []
  /\ reads_made (probe C S port) = O.
Proof.
  unfold probe, probe_line, open_serial.
  set (fd := sys_open S port (open_flags C true)).
  destruct (fd <? 0) eqn:Hn.
  - apply Z.ltb_lt in Hn. cbn [Z.leb]. 
    destruct (0 <=? -1) eqn:H1; [discriminate|].
    destruct (0 <=? fd) eqn:H2; [apply Z.leb_le in H2; lia|].
    repeat split.
  - apply Z.ltb_ge in Hn. cbn [negb].
    destruct (0 <=? fd) eqn:H2; [|apply Z.leb_gt in H2; lia].
    repeat split.
Qed.

Lemma probes_facts C S l :
  ports_opened (flat_map (probe C S) l) = map (fun p => (p, open_flags C true)) l
  /\ lines_printed (flat_map (probe C S) l) = map (probe_line C S) l
  /\ settings_written (flat_map (probe C S) l) = []
  /\ reads_made (flat_map (probe C S) l) = O.
Proof.
  induction l as [|p l (I1 & I2 & I3 & I4)]; [repeat split|].
  destruct (probe_facts C S p) as (P1 & P2 & P3 & P4).
  cbn [flat_map map].
  rewrite ports_opened_app, lines_printed_app, settings_written_app, reads_made_app,
    P1, P2, P3, P4, I1, I2, I3, I4.
  repeat split.
Qed.

(** The passes of the monitor print what [monitor_loop] says, make one read
    each and back off once for each read error. *)
Lemma monitor_passes_facts fd ticks : forall last,
  lines_printed (monitor_passes fd ticks last)
  = map LnOut (snd (Monitor.monitor_loop ticks last))
  /\ reads_made (monitor_passes fd ticks last) = List.length ticks
  /\ backoffs (monitor_passes fd ticks last) = read_errors ticks
  /\ settings_written (monitor_passes fd ticks last) = []
  /\ ports_opened (monitor_passes fd ticks last) = [].
Proof.
  induction ticks as [|tk rest IH]; intros last; [repeat split|].
  rewrite MonitorFacts.monitor_loop_cons. cbn [monitor_passes snd].
  destruct (Monitor.step last tk) as [la outs] eqn:Hstep. cbn [fst snd].
  destruct (IH la) as (I1 & I2 & I3 & I4 & I5).
  assert (Hp : forall l : list Monitor.out,
             lines_printed (map (fun o => Print (LnOut o)) l) = map LnOut l
             /\ reads_made (map (fun o => Print (LnOut o)) l) = O
             /\ backoffs (map (fun o => Print (LnOut o)) l) = O
             /\ settings_written (map (fun o => Print (LnOut o)) l) = []
             /\ ports_opened (map (fun o => Print (LnOut o)) l) = []).
  { induction l as [|o l (J1 & J2 & J3 & J4 & J5)]; [repeat split|].
    simpl. rewrite J1. repeat split; assumption. }
  destruct tk as [|buf now].
  - simpl in Hstep. inversion Hstep; subst la outs.
    simpl. rewrite I1, I2, I3, I4, I5. repeat split.
  - destruct (Hp outs) as (J1 & J2 & J3 & J4 & J5).
    cbn [lines_printed reads_made backoffs settings_written ports_opened read_errors].
    rewrite lines_printed_app, reads_made_app, backoffs_app, settings_written_app,
      ports_opened_app, J1, J2, J3, J4, J5, I1, I2, I3, I4, I5, map_app.
    repeat split.
Qed.

End ProgramFacts.

(** X14. The port search tries the five ports once each in its fixed
    order, opening them without blocking, and reports a port "ok" exactly
    when [open] returned a descriptor; it never reads from a port and
    never writes line settings. *)
Theorem test_serial_ports_report (C : Posix.consts) (S : Posix.os) :
  ports_opened (Posix.test_serial_ports C S)
  = map (fun p => (p, Z.lor (Z.lor (Posix.O_RDWR C) (Posix.O_NOCTTY C))
                            (Posix.O_NONBLOCK C))) Posix.ports
  /\ lines_printed (Posix.test_serial_ports C S)
     = Posix.LnSearching :: map (probe_line C S) Posix.ports
  /\ Posix.settings_written (Posix.test_serial_ports C S) = []
  /\ reads_made (Posix.test_serial_ports C S) = O.
Proof.
  destruct (ProgramFacts.probes_facts C S Posix.ports) as (H1 & H2 & H3 & H4).
  unfold Posix.test_serial_ports.
  cbn [ports_opened lines_printed Posix.settings_written reads_made].
  rewrite H1, H2, H3, H4. repeat split.
Qed.

(** X15. When the port cannot be opened or set up, the monitor prints one
    error line and never reads.  Otherwise it prints, between its start and
    end lines, exactly the lines of the receive loop, makes one read for
    each pass and backs off 100 ms once for each read that failed; a
    failed read ends neither the loop nor the program. *)
Theorem monitor_serial_program (C : Posix.consts) (S : Posix.os)
    (port : string) (t0 : Z) (ticks : list Monitor.tick) :
  let calls := Posix.monitor_serial C S port t0 ticks in
  (fst (Posix.open_serial C S port false) < 0 ->
   lines_printed calls = [Posix.LnOpenFailed port] /\ reads_made calls = O)
  /\ (0 <= fst (Posix.open_serial C S port false) ->
      lines_printed calls
      = Posix.LnMonitorStart port
        :: map Posix.LnOut (snd (Monitor.monitor_loop ticks t0))
        ++ [Posix.LnMonitorEnd]
      /\ reads_made calls = List.length ticks
      /\ backoffs calls = read_errors ticks).
Proof.
  intros calls. unfold calls, Posix.monitor_serial.
  assert (Hos : lines_printed (snd (Posix.open_serial C S port false)) = []
                /\ reads_made (snd (Posix.open_serial C S port false)) = O
                /\ backoffs (snd (Posix.open_serial C S port false)) = O).
  { unfold Posix.open_serial.
    destruct (Posix.sys_open S port (Posix.open_flags C false) <? 0); [repeat split|].
    cbn [negb].
    destruct (Posix.sys_tcgetattr S _) as [tio|]; [|repeat split].
    destruct (Posix.sys_tcsetattr S _ _); repeat split. }
  destruct Hos as (L0 & R0 & B0).
  destruct (Posix.open_serial C S port false) as [fd cs]. cbn [fst snd] in *.
  destruct (ProgramFacts.monitor_passes_facts fd ticks t0) as (M1 & M2 & M3 & _).
  split; intros Hfd.
  - destruct (fd <? 0) eqn:Hn; [|apply Z.ltb_ge in Hn; lia].
    rewrite ProgramFacts.lines_printed_app, ProgramFacts.reads_made_app, L0, R0.
    split; reflexivity.
  - destruct (fd <? 0) eqn:Hn; [apply Z.ltb_lt in Hn; lia|].
    rewrite !ProgramFacts.lines_printed_app, !ProgramFacts.reads_made_app,
      !ProgramFacts.backoffs_app, L0, R0, B0, M1, M2, M3.
    cbn. rewrite !Nat.add_0_r. repeat split.
Qed.

Lemma monitor_serial_program_witness :
  reads_made (Posix.monitor_serial Posix.linux Posix.one_port "/dev/ttyS0" 0
                [Monitor.TkRead "A" 3]) = O
  /\ reads_made (Posix.monitor_serial Posix.linux Posix.one_port "/dev/ttyUSB0" 0
                   [Monitor.TkRead "A" 3; Monitor.TkError; Monitor.TkRead "" 20]) = 3%nat
  /\ backoffs (Posix.monitor_serial Posix.linux Posix.one_port "/dev/ttyUSB0" 0
                 [Monitor.TkRead "A" 3; Monitor.TkError; Monitor.TkRead "" 20]) = 1%nat.
Proof.
  split.
  - apply (proj1 (monitor_serial_program Posix.linux Posix.one_port "/dev/ttyS0" 0
                    [Monitor.TkRead "A" 3])).
    simpl. lia.
  - apply (proj2 (monitor_serial_program Posix.linux Posix.one_port "/dev/ttyUSB0" 0
                    [Monitor.TkRead "A" 3; Monitor.TkError; Monitor.TkRead "" 20])).
    simpl. lia.
Defined.

(** * Further properties of the receive monitor *)

Module RenderFacts.

Import Monitor.

Lemma hex_fixed_2 v :
  Spec.hex_fixed 2 v
  = String (Spec.upper_hex_digit ((v / 16) mod 16))
      (String (Spec.upper_hex_digit (v mod 16)) EmptyString).
Proof. reflexivity. Qed.

Lemma hexstr_cons b r :
  hexstr (String b r) = (Spec.hex_fixed 2 (CStr.byte_val b) ++ hexstr r)%string.
Proof.
  cbn [hexstr]. pose proof (byte_val_bounds b).
  rewrite fmt_X_fits by (try lia; change (16 ^ Z.of_nat 2) with 256; lia).
  now rewrite (c_str_no_nul _ (no_nul_hex_fixed 2 _)).
Qed.

Lemma length_hexstr buf : String.length (hexstr buf) = (2 * String.length buf)%nat.
Proof.
  induction buf as [|b r IH]; [reflexivity|].
  rewrite hexstr_cons, length_append, length_hex_fixed, IH. simpl. lia.
Qed.

Lemma no_nul_hexstr buf : CStr.no_nul (hexstr buf) = true.
Proof.
  induction buf as [|b r IH]; [reflexivity|].
  now rewrite hexstr_cons, no_nul_append, no_nul_hex_fixed, IH.
Qed.

Lemma unhex_hexstr buf : Hex.unhex (hexstr buf) = buf.
Proof.
  induction buf as [|b r IH]; [reflexivity|].
  rewrite hexstr_cons, hex_fixed_2. cbn [append Hex.unhex]. rewrite IH.
  pose proof (byte_val_bounds b) as Hb.
  rewrite !digit_value_upper by (apply Z.mod_pos_bound; lia).
  f_equal.
  replace (16 * ((CStr.byte_val b / 16) mod 16) + CStr.byte_val b mod 16)
    with (CStr.byte_val b).
  - unfold CStr.byte_val. rewrite N2Z.id. apply ascii_N_embedding.
  - rewrite (Z.mod_small (CStr.byte_val b / 16)).
    + apply Z.div_mod. lia.
    + split; [apply Z.div_pos; lia | apply Z.div_lt_upper_bound; lia].
Qed.

Lemma length_ascstr buf : String.length (ascstr buf) = String.length buf.
Proof. induction buf as [|b r IH]; simpl; congruence. Qed.

Lemma printable_range b :
  (32 <=? CStr.byte_val (printable b)) && (CStr.byte_val (printable b) <=? 126) = true.
Proof.
  unfold printable.
  destruct ((32 <=? CStr.byte_val b) && (CStr.byte_val b <=? 126)) eqn:H;
    [exact H | reflexivity].
Qed.

Lemma all_printable_ascstr buf : all_printable (ascstr buf) = true.
Proof.
  induction buf as [|b r IH]; [reflexivity|].
  cbn [ascstr all_printable]. now rewrite printable_range, IH.
Qed.

Lemma ascstr_printable buf : all_printable buf = true -> ascstr buf = buf.
Proof.
  induction buf as [|b r IH]; [reflexivity|]. cbn [all_printable ascstr].
  intros H. apply andb_true_iff in H. destruct H as [Hb Hr].
  unfold printable. now rewrite Hb, IH.
Qed.

Lemma all_printable_no_nul s : all_printable s = true -> CStr.no_nul s = true.
Proof.
  induction s as [|c r IH]; [reflexivity|]. cbn [all_printable CStr.no_nul].
  intros H. apply andb_true_iff in H. destruct H as [Hb Hr].
  apply andb_true_iff in Hb. destruct Hb as [Hlo _]. apply Z.leb_le in Hlo.
  rewrite (IH Hr), andb_true_r. unfold CStr.is_nul.
  destruct (CStr.byte_val c =? 0) eqn:E; [apply Z.eqb_eq in E; lia | reflexivity].
Qed.

End RenderFacts.

(** X16. The hexadecimal view of a received buffer has two digits for each
    byte and gives the bytes back when read pair by pair, so different
    buffers never show the same dump; for the at most 256 bytes of a read it
    fits its buffer of 513 characters. *)
Theorem hexstr_round_trip (buf : string) :
  Hex.unhex (Monitor.hexstr buf) = buf
  /\ String.length (Monitor.hexstr buf) = (2 * String.length buf)%nat
  /\ CStr.no_nul (Monitor.hexstr buf) = true
  /\ (forall buf', Monitor.hexstr buf = Monitor.hexstr buf' -> buf = buf')
  /\ ((String.length buf <= buf_size)%nat ->
      fits (Monitor.hexstr buf) hexstr_size = true).
Proof.
  split; [apply RenderFacts.unhex_hexstr|].
  split; [apply RenderFacts.length_hexstr|].
  split; [apply RenderFacts.no_nul_hexstr|]. split.
  - intros buf' H. apply (f_equal Hex.unhex) in H.
    now rewrite !RenderFacts.unhex_hexstr in H.
  - intros Hlen. unfold fits, hexstr_size, buf_size in *.
    rewrite RenderFacts.length_hexstr. apply Nat.leb_le. lia.
Qed.

Lemma hexstr_round_trip_witness :
  "0002W" = Hex.unhex "3030303257"
  /\ fits (Monitor.hexstr "0002W") hexstr_size = true.
Proof.
  destruct (hexstr_round_trip "0002W") as (_ & _ & _ & Hinj & Hfit).
  split; [apply Hinj; reflexivity | apply Hfit; unfold buf_size; simpl; lia].
Defined.

(** X17. The ASCII view of a received buffer has one character for each
    byte, all of them printable (0x20 to 0x7E), and shows a buffer of
    printable bytes as it is; so it holds no NUL and is printed whole, and
    for the at most 256 bytes of a read it fits its buffer of 257
    characters. *)
Theorem ascstr_view (buf : string) :
  String.length (Monitor.ascstr buf) = String.length buf
  /\ all_printable (Monitor.ascstr buf) = true
  /\ CStr.c_str (Monitor.ascstr buf) = Monitor.ascstr buf
  /\ Monitor.ascstr (Monitor.ascstr buf) = Monitor.ascstr buf
  /\ (all_printable buf = true -> Monitor.ascstr buf = buf)
  /\ ((String.length buf <= buf_size)%nat ->
      fits (Monitor.ascstr buf) ascstr_size = true).
Proof.
  pose proof (RenderFacts.all_printable_ascstr buf) as Hp.
  split; [apply RenderFacts.length_ascstr|]. split; [exact Hp|].
  split; [apply c_str_no_nul, RenderFacts.all_printable_no_nul, Hp|].
  split; [apply RenderFacts.ascstr_printable, Hp|].
  split; [apply RenderFacts.ascstr_printable|].
  intros Hlen. unfold fits, ascstr_size, buf_size in *.
  rewrite RenderFacts.length_ascstr. apply Nat.leb_le. lia.
Qed.

Lemma ascstr_view_witness :
  Monitor.ascstr "0002W00010001" = "0002W00010001"
  /\ fits (Monitor.ascstr "0002W00010001") ascstr_size = true.
Proof.
  destruct (ascstr_view "0002W00010001") as (_ & _ & _ & _ & Hsame & Hfit).
  split; [apply Hsame; reflexivity | apply Hfit; unfold buf_size; simpl; lia].
Defined.

Module LoopFacts.

Import Monitor.

Lemma monitor_loop_without_errors ticks : forall last,
  monitor_loop (without_errors ticks) last = monitor_loop ticks last.
Proof.
  induction ticks as [|tk rest IH]; intros last; [reflexivity|].
  destruct tk as [|buf now].
  - cbn [without_errors]. rewrite IH, (MonitorFacts.monitor_loop_cons TkError).
    simpl. now destruct (monitor_loop rest last).
  - cbn [without_errors]. rewrite !MonitorFacts.monitor_loop_cons. now rewrite IH.
Qed.

Lemma received_app a b : received (a ++ b) = received a ++ received b.
Proof.
  induction a as [|o a IH]; [reflexivity|]. destruct o; simpl; now rewrite ?IH.
Qed.

Lemma received_loop ticks : forall last,
  received (snd (monitor_loop ticks last)) = data_lines ticks.
Proof.
  induction ticks as [|tk rest IH]; intros last; [reflexivity|].
  rewrite MonitorFacts.monitor_loop_cons. cbn [snd]. rewrite received_app, IH.
  destruct tk as [|[|b r] now]; [reflexivity | | reflexivity].
  rewrite MonitorFacts.step_timeout. now destruct (now - last >? 10).
Qed.

(** The timer ends on the starting instant or on an instant of the clock. *)
Lemma last_activity_bound T ticks : forall last,
  last <= T -> Forall (fun t => t <= T) (clocks ticks) ->
  fst (monitor_loop ticks last) <= T.
Proof.
  induction ticks as [|tk rest IH]; intros last Hl Hc; [exact Hl|].
  rewrite MonitorFacts.monitor_loop_cons. cbn [fst].
  destruct tk as [|buf now]; [now apply IH|].
  simpl in Hc. inversion Hc; subst.
  destruct buf as [|b r].
  - rewrite MonitorFacts.step_timeout.
    destruct (now - last >? 10); cbn [fst]; now apply IH.
  - rewrite MonitorFacts.step_data by discriminate. cbn [fst]. now apply IH.
Qed.

Lemma heartbeats_count ticks : forall last,
  monotone last (clocks ticks) ->
  10 * Z.of_nat (List.length (heartbeats (snd (monitor_loop ticks last)))) + last
  <= fst (monitor_loop ticks last).
Proof.
  induction ticks as [|tk rest IH]; intros last Hm; [simpl; lia|].
  rewrite MonitorFacts.monitor_loop_cons. cbn [fst snd].
  destruct tk as [|buf now]; [now apply IH|].
  simpl in Hm. destruct Hm as [Hle Hm].
  destruct buf as [|b r].
  - rewrite MonitorFacts.step_timeout. destruct (now - last >? 10) eqn:Hc; cbn [fst snd app].
    + apply Z.gtb_lt in Hc. specialize (IH now Hm).
      cbn [heartbeats List.length]. lia.
    + apply IH. now apply MonitorFacts.monotone_weaken with now.
  - rewrite MonitorFacts.step_data by discriminate. cbn [fst snd app heartbeats].
    specialize (IH now Hm). lia.
Qed.

End LoopFacts.

(** X18. Failed reads leave no mark on the monitor: they print nothing and
    do not touch the idle timer, so the run prints the same lines and ends
    on the same timer as the run without them.  No received buffer is lost
    or reordered: the data lines printed are, in order, those of the reads
    that returned bytes, whatever heartbeats come in between. *)
Theorem monitor_reads_reported (ticks : list Monitor.tick) (t0 : Z) :
  Monitor.monitor_loop (without_errors ticks) t0 = Monitor.monitor_loop ticks t0
  /\ received (snd (Monitor.monitor_loop ticks t0)) = data_lines ticks.
Proof.
  split; [apply LoopFacts.monitor_loop_without_errors | apply LoopFacts.received_loop].
Qed.

(** X19. With a clock that never runs backwards, a monitor started at [t0]
    has printed at most one heartbeat for every full 10 seconds gone by:
    ten times the number of heartbeats is at most the time from [t0] to any
    instant [T] the clock has not passed. *)
Theorem heartbeats_bounded (ticks : list Monitor.tick) (t0 T : Z) :
  Monitor.monotone t0 (Monitor.clocks ticks) ->
  t0 <= T -> Forall (fun t => t <= T) (Monitor.clocks ticks) ->
  10 * Z.of_nat (List.length (Monitor.heartbeats (snd (Monitor.monitor_loop ticks t0))))
  <= T - t0.
Proof.
  intros Hm Ht Hc.
  pose proof (LoopFacts.heartbeats_count ticks t0 Hm).
  pose proof (LoopFacts.last_activity_bound T ticks t0 Ht Hc). lia.
Qed.

Lemma heartbeats_bounded_witness :
  10 * Z.of_nat (List.length (Monitor.heartbeats (snd (Monitor.monitor_loop
         [Monitor.TkRead "" 5; Monitor.TkRead "" 11; Monitor.TkError;
          Monitor.TkRead "" 12; Monitor.TkRead "A" 20;
          Monitor.TkRead "" 30; Monitor.TkRead "" 31] 0))))
  <= 31 - 0.
Proof.
  apply heartbeats_bounded; [simpl; lia | lia |].
  simpl. repeat (constructor; [lia|]). constructor.
Defined.

(** * The runs of the two loops *)

(** ** The flag is read before every increment of a wait stage *)



Section Polled.

Variable E : env.








End Polled.



(** ** The cycles of a run *)

(** A run that no signal reaches during its first [n] cycles writes the
    telegrams of [n] cycles, each from the floor the cycle before it went
    to. *)
Lemma cycles_run E K :
  draws_within E K ->
  forall n fuel cf w,
    running w = true -> (n + K <= fuel)%nat ->
    quiet_until E (now w + Spec.duration Spec.stage_order * Z.of_nat n) ->
    exists targets rest,
      List.length targets = n /\ moves cf targets
      /\ sends (trace (outcome_world (wmain_loop E fuel cf w)))
         = sends (trace w) ++ cycles cf (now w) targets ++ rest.
Proof.
  intros Hd. change (Spec.duration Spec.stage_order) with 46000.
  induction n as [|n IH]; intros fuel cf w Hr Hf Hq.
  - destruct (extends_wmain_loop E fuel cf w) as [l Hl].
    exists [], (sends l). split; [reflexivity|]. split; [exact I|].
    rewrite Hl, sends_app. reflexivity.
  - destruct fuel as [|fuel]; [lia|].
    destruct (select_target_within E K (S fuel) cf w Hd) as (tgt & w1 & Hsel); [lia|].
    destruct (scenario_uncancelled E (S fuel) cf w tgt w1 Hr) as (w' & Hsc & R & N & HS);
      [apply (quiet_until_le E _ _ Hq); lia | exact Hsel |].
    pose proof (select_target_sound E _ _ _ _ _ Hsel) as (Hin & Hne & _).
    destruct (IH fuel tgt w' R) as (targets & rest & Hlen & Hmv & Hs);
      [lia | apply (quiet_until_le E _ _ Hq); lia |].
    exists (tgt :: targets), rest.
    split; [simpl; lia|]. split; [simpl; auto|].
    cbn [wmain_loop]. rewrite Hr, Hsc, Hs, HS. cbn [cycles].
    change (Spec.duration Spec.stage_order) with 46000.
    rewrite N, <- !app_assoc. reflexivity.
Qed.

(** C5. In a cycle that no signal disturbs the stages come in the order
    AnnounceCurrent, Wait 3, AnnounceTarget, Wait 3, PassengerLoad, Wait 10,
    Arrival, Wait 10: five telegrams with data number "0001" and the current
    floor, one time unit apart; three units later five with "0002" and the
    target floor; three units later five with "0003"; ten units later five
    with "0002" and "0000"; after ten more units the current floor is the
    target.  The run of the loop holds these telegrams, and then the cycle
    repeats: as long as no signal is raised and the selections end, the run
    goes on with the telegrams of the next cycles, in the same order, each
    cycle starting on the floor the cycle before it went to. *)
Theorem cycle_stage_order (E : env) (k : nat) (cf : Z) (w : world) (tgt : Z) (w1 : world) :
  running w = true ->
  quiet_until E (now w + Spec.duration Spec.stage_order) ->
  select_target E (S k) cf w = Some (tgt, w1) ->
  exists w',
    scenario E (S k) cf w = Continue tgt w'
    /\ sends (trace w')
       = sends (trace w) ++ Spec.schedule cf tgt (now w) Spec.stage_order
    /\ now w' = now w + Spec.duration Spec.stage_order
    /\ running w' = true
    /\ wmain_loop E (S k) cf w = wmain_loop E k tgt w'
    /\ (exists rest,
          sends (trace (outcome_world (wmain_loop E (S k) cf w)))
          = sends (trace w) ++ Spec.schedule cf tgt (now w) Spec.stage_order ++ rest)
    /\ (forall n K,
          draws_within E K -> (n + K <= k)%nat ->
          quiet_until E (now w + Spec.duration Spec.stage_order * (1 + Z.of_nat n)) ->
          exists targets rest,
            List.length targets = n /\ moves tgt targets
            /\ sends (trace (outcome_world (wmain_loop E (S k) cf w)))
               = sends (trace w) ++ cycles cf (now w) (tgt :: targets) ++ rest).
Proof.
  intros Hr Hq Hsel.
  destruct (scenario_uncancelled E (S k) cf w tgt w1 Hr Hq Hsel)
    as (w' & Hsc & R & N & HS).
  assert (Hloop : wmain_loop E (S k) cf w = wmain_loop E k tgt w').
  { cbn [wmain_loop]. now rewrite Hr, Hsc. }
  exists w'.
  split; [exact Hsc|]. split; [exact HS|]. split; [exact N|]. split; [exact R|].
  split; [exact Hloop|]. split.
  - rewrite Hloop. destruct (extends_wmain_loop E k tgt w') as [l Hl].
    exists (sends l). now rewrite Hl, sends_app, HS, <- app_assoc.
  - intros n K Hd Hf Hqn.
    destruct (cycles_run E K Hd n k tgt w' R Hf) as (targets & rest & Hlen & Hmv & Hs).
    { apply (quiet_until_le E _ _ Hqn). rewrite N.
      change (Spec.duration Spec.stage_order) with 46000. lia. }
    exists targets, rest. split; [exact Hlen|]. split; [exact Hmv|].
    rewrite Hloop, Hs, HS. cbn [cycles].
    change (Spec.duration Spec.stage_order) with 46000.
    rewrite N, <- !app_assoc. reflexivity.
Qed.

(** Whatever the port answers, a generator that goes through the floors in
    turn draws another floor within two draws. *)
Lemma cycling_draws E : (forall i, rand_stream E i = i) -> draws_within E 2.
Proof.
  intros Hs n cf.
  change num_floors with 4%nat.
  assert (Hr : (n mod 4 < 4)%nat) by (apply Nat.mod_upper_bound; discriminate).
  assert (Hm : ((n + 1) mod 4 = (n mod 4 + 1) mod 4)%nat).
  { rewrite (Nat.Div0.add_mod n 1 4). reflexivity. }
  destruct (Z.eq_dec (nth (n mod 4)%nat floors 0) cf) as [Heq|Hne].
  - exists 1%nat. split; [lia|].
    rewrite Hs, Hm. intros H. rewrite <- Heq in H.
    destruct (n mod 4)%nat as [|[|[|[|r]]]]; simpl in H; lia.
  - exists 0%nat. split; [lia|]. now rewrite Hs, Nat.add_0_r.
Qed.

Lemma cycle_stage_order_witness :
  exists w',
    scenario env_writes_fail 4 1 (initial_world env_writes_fail) = Continue (-1) w'
    /\ sends (trace w') = Spec.schedule 1 (-1) 0 Spec.stage_order
    /\ now w' = 46000
    /\ running w' = true
    /\ wmain_loop env_writes_fail 4 1 (initial_world env_writes_fail)
       = wmain_loop env_writes_fail 3 (-1) w'
    /\ (exists rest,
          sends (trace (outcome_world
                          (wmain_loop env_writes_fail 4 1 (initial_world env_writes_fail))))
          = Spec.schedule 1 (-1) 0 Spec.stage_order ++ rest)
    /\ (exists targets rest,
          List.length targets = 1%nat /\ moves (-1) targets
          /\ sends (trace (outcome_world
                             (wmain_loop env_writes_fail 4 1 (initial_world env_writes_fail))))
             = cycles 1 0 (-1 :: targets) ++ rest).
Proof.
  destruct (cycle_stage_order env_writes_fail 3 1 (initial_world env_writes_fail) (-1)
              (snd (rand env_writes_fail (initial_world env_writes_fail)))
              eq_refl I eq_refl)
    as (w' & Hsc & Hs & Hn & Hr & Hl & Hone & Hnext).
  exists w'.
  split; [exact Hsc|]. split; [exact Hs|]. split; [exact Hn|]. split; [exact Hr|].
  split; [exact Hl|]. split; [exact Hone|].
  exact (Hnext 1%nat 2%nat (cycling_draws env_writes_fail (fun _ => eq_refl))
           (le_n 3) I).
Defined.

(** ** Every write of a run is made, whatever the port answers *)

Lemma results_app a b : results (a ++ b) = results a ++ results b.
Proof. apply flat_map_app. Qed.

Section WriteLog.

Variable E : env.

Lemma write_log_printf l w : write_log E w -> write_log E (printf l w).
Proof.
  intros [Hc Hs]. unfold write_log.
  rewrite trace_printf, sends_app, results_app. simpl (sends [EvPrint l]).
  simpl (results [EvPrint l]). rewrite !app_nil_r. split; assumption.
Qed.

Lemma write_log_rand w : write_log E w -> write_log E (snd (rand E w)).
Proof. intros H. exact H. Qed.

Lemma write_log_send n v d w :
  write_log E w -> running w = true -> write_log E (Sleep E 1000 (send_enq E n v d w)).
Proof.
  intros [Hc Hs] _. unfold write_log.
  rewrite write_calls_Sleep, write_calls_send_enq, trace_Sleep.
  destruct (trace_send_enq E n v d w) as [l ->].
  unfold sends, results in *. rewrite !flat_map_app, !length_app.
  cbn [flat_map send_of result_of app List.length]. split; [lia|].
  rewrite Hs, seq_S, map_app, !app_nil_r. reflexivity.
Qed.

Lemma write_log_sleep ms w :
  write_log E w -> running w = true -> ms = 1000 \/ ms = 3000 ->
  write_log E (Sleep E ms w).
Proof.
  intros [Hc Hs] _ _. unfold write_log.
  rewrite write_calls_Sleep, trace_Sleep, sends_app, results_app.
  simpl (sends [EvSleep _ _]). simpl (results [EvSleep _ _]).
  rewrite !app_nil_r. split; assumption.
Qed.

Lemma write_log_initial_world : write_log E (initial_world E).
Proof.
  unfold initial_world, deliver. simpl.
  destruct (signal_due E 0); split; reflexivity.
Qed.

Lemma write_log_wmain fuel argv2 : write_log E (outcome_world (wmain E fuel argv2)).
Proof.
  unfold wmain.
  apply (preserved_wmain_loop E (write_log E) write_log_printf write_log_rand
           write_log_send write_log_sleep).
  apply write_log_initial_world.
Qed.

End WriteLog.

Lemma length_cycles targets : forall cf t0,
  List.length (cycles cf t0 targets) = (20 * List.length targets)%nat.
Proof.
  induction targets as [|t rest IH]; intros cf t0; [reflexivity|].
  cbn [cycles List.length]. rewrite length_app, length_schedule, IH. lia.
Qed.

Lemma nth_error_seq_0 len i : (i < len)%nat -> nth_error (seq 0 len) i = Some i.
Proof.
  intros H. rewrite (nth_error_nth' _ 0%nat) by (rewrite length_seq; exact H).
  now rewrite seq_nth.
Qed.

(** The calls of [WriteFile] of a run that no signal reaches during its
    first [n] cycles. *)
Lemma run_attempts E K n fuel argv2 :
  draws_within E K -> (n + K <= fuel)%nat ->
  quiet_until E (Spec.duration Spec.stage_order * Z.of_nat n) ->
  let tr := trace (outcome_world (wmain E fuel argv2)) in
  results tr = map (write_ok E) (seq 0 (List.length (sends tr)))
  /\ exists targets rest,
       List.length targets = n /\ moves (start_floor argv2) targets
       /\ sends tr = cycles (start_floor argv2) 0 targets ++ rest.
Proof.
  intros Hd Hf Hq tr. split.
  - destruct (write_log_wmain E fuel argv2) as [Hc Hs]. fold tr in Hc, Hs.
    now rewrite <- Hc.
  - subst tr. unfold wmain. destruct n as [|n].
    + destruct (extends_wmain_loop E fuel (start_floor argv2) (initial_world E))
        as [l Hl].
      exists [], (sends (trace (initial_world E) ++ l)).
      split; [reflexivity|]. split; [exact I|]. now rewrite Hl.
    + assert (Hr : running (initial_world E) = true).
      { unfold initial_world, deliver. cbn [now].
        rewrite (quiet_not_due E _ 0 Hq); [reflexivity|].
        change (Spec.duration Spec.stage_order) with 46000. lia. }
      assert (Hn : now (initial_world E) = 0).
      { unfold initial_world, deliver. cbn [now].
        now destruct (signal_due E 0). }
      assert (Ht : sends (trace (initial_world E)) = []).
      { unfold initial_world, deliver. cbn [now].
        now destruct (signal_due E 0). }
      destruct (cycles_run E K Hd (S n) fuel (start_floor argv2) (initial_world E)
                  Hr Hf) as (targets & rest & Hlen & Hmv & Hs).
      { now rewrite Hn. }
      exists targets, rest. rewrite Hs, Hn, Ht. auto.
Qed.

(** C9. A write that fails is recorded by one error line and nothing else:
    [send_enq] returns, and the flag, the clock and the generator are as
    they were.  Two runs that differ in which writes fail only make the
    same attempts at the same instants and sleep alike, leave the loop
    alike and end on the same current floor.  And the attempts are made:
    whichever writes fail, be it all of them, a run that no signal reaches
    during its first [n] cycles calls [WriteFile] for every telegram of
    these cycles at its instant, and each call is in the history with the
    result the port gave it.  So when the call number [i] of these cycles
    fails, the failure is in the history and the call number [i + 1], the
    next repetition of the stage or the first telegram of the next send
    stage, is made as scheduled. *)
Theorem send_failure_absorbed :
  (forall E n v d w,
      write_ok E (write_calls w) = false ->
      let w' := send_enq E n v d w in
      trace w' = trace w ++ [EvWrite (now w) (frame n v) false; EvPrint LnSendError]
      /\ running w' = running w /\ now w' = now w
      /\ rand_calls w' = rand_calls w)
  /\ (forall E1 E2 fuel argv2,
        sigint_at E1 = sigint_at E2 ->
        (forall i, rand_stream E1 i = rand_stream E2 i) ->
        same_outcome (wmain E1 fuel argv2) (wmain E2 fuel argv2))
  /\ (forall E K n fuel argv2,
        draws_within E K -> (n + K <= fuel)%nat ->
        quiet_until E (Spec.duration Spec.stage_order * Z.of_nat n) ->
        let tr := trace (outcome_world (wmain E fuel argv2)) in
        results tr = map (write_ok E) (seq 0 (List.length (sends tr)))
        /\ exists targets rest,
             List.length targets = n /\ moves (start_floor argv2) targets
             /\ sends tr = cycles (start_floor argv2) 0 targets ++ rest)
  /\ (forall E K n fuel argv2 i,
        draws_within E K -> (n + K <= fuel)%nat ->
        quiet_until E (Spec.duration Spec.stage_order * Z.of_nat n) ->
        (S i < 20 * n)%nat -> write_ok E i = false ->
        let tr := trace (outcome_world (wmain E fuel argv2)) in
        nth_error (results tr) i = Some false
        /\ exists targets next,
             List.length targets = n
             /\ nth_error (cycles (start_floor argv2) 0 targets) (S i) = Some next
             /\ nth_error (sends tr) (S i) = Some next).
Proof.
  split; [|split; [|split]].
  - intros E n v d w Hfail w'. unfold w', send_enq, WriteFile.
    rewrite Hfail. cbn [negb]. unfold printf, log. simpl.
    rewrite <- app_assoc. auto.
  - intros E1 E2 fuel argv2 Hs Hr. now apply same_wmain.
  - intros E K n fuel argv2. apply run_attempts.
  - intros E K n fuel argv2 i Hd Hf Hq Hi Hfail tr.
    destruct (run_attempts E K n fuel argv2 Hd Hf Hq)
      as (Hres & targets & rest & Hlen & Hmv & Hs).
    fold tr in Hres, Hs.
    assert (Hcyc : List.length (cycles (start_floor argv2) 0 targets) = (20 * n)%nat)
      by now rewrite length_cycles, Hlen.
    split.
    + rewrite Hres, nth_error_map, nth_error_seq_0, <- Hfail; [reflexivity|].
      rewrite Hs, length_app. lia.
    + destruct (nth_error (cycles (start_floor argv2) 0 targets) (S i))
        as [next|] eqn:Hnext.
      * exists targets, next. split; [exact Hlen|]. split; [exact Hnext|].
        rewrite Hs, nth_error_app1 by lia. exact Hnext.
      * apply nth_error_None in Hnext. lia.
Qed.

Lemma send_failure_absorbed_witness :
  trace (send_enq (env_write_fails 0) "0001" "0001" (DescCurrent "1F" 1)
           (initial_world (env_write_fails 0)))
  = [EvWrite 0 (frame "0001" "0001") false; EvPrint LnSendError]
  /\ same_outcome (wmain (env_write_fails 1) 3 None)
                  (wmain (mkEnv None (fun _ => 2%nat) (fun _ => true)) 3 None)
  /\ (let tr := trace (outcome_world (wmain env_writes_fail 3 None)) in
      results tr = map (fun _ => false) (seq 0 (List.length (sends tr)))
      /\ exists targets rest,
           List.length targets = 1%nat /\ moves 1 targets
           /\ sends tr = cycles 1 0 targets ++ rest)
  /\ (let tr := trace (outcome_world (wmain env_writes_fail 3 None)) in
      nth_error (results tr) 4 = Some false
      /\ exists targets next,
           List.length targets = 1%nat
           /\ nth_error (cycles 1 0 targets) 5 = Some next
           /\ nth_error (sends tr) 5 = Some next).
Proof.
  destruct send_failure_absorbed as (Hfail & Hsame & Hrun & Hnext).
  split; [|split; [|split]].
  - exact (proj1 (Hfail (env_write_fails 0) "0001" "0001"
                    (DescCurrent "1F" 1) (initial_world (env_write_fails 0)) eq_refl)).
  - exact (Hsame (env_write_fails 1)
             (mkEnv None (fun _ => 2%nat) (fun _ => true)) 3%nat None
             eq_refl (fun _ => eq_refl)).
  - exact (Hrun env_writes_fail 2%nat 1%nat 3%nat None
             (cycling_draws env_writes_fail (fun _ => eq_refl)) (le_n 3) I).
  - apply (Hnext env_writes_fail 2%nat 1%nat 3%nat None 4%nat
             (cycling_draws env_writes_fail (fun _ => eq_refl)) (le_n 3) I);
      [simpl; lia | reflexivity].
Defined.

(** ** The lines of a run of the monitor *)

Module RunFacts.

Import Monitor.

(** The last pass of a run, after the passes before it. *)
Lemma monitor_loop_snoc ticks : forall last tk,
  monitor_loop (ticks ++ [tk]) last
  = (fst (step (fst (monitor_loop ticks last)) tk),
     snd (monitor_loop ticks last) ++ snd (step (fst (monitor_loop ticks last)) tk)).
Proof.
  induction ticks as [|t0 rest IH]; intros last tk.
  - cbn [app]. rewrite MonitorFacts.monitor_loop_cons. cbn [monitor_loop fst snd].
    now rewrite app_nil_r.
  - rewrite <- app_comm_cons, !MonitorFacts.monitor_loop_cons, IH. cbn [fst snd].
    now rewrite app_assoc.
Qed.

End RunFacts.

(** C8. When a read returns no byte, the monitor prints a heartbeat only if
    more than 10 seconds have gone by since the last activity, and then
    restarts the idle timer from that instant; a read that returns bytes is
    printed in the same pass and restarts the timer as well.  Over a whole
    run every heartbeat comes more than 10 seconds after the line before
    it, and, the clock never running backwards, successive heartbeats are
    more than 10 seconds apart.  The run does print: its data lines are, in
    order, those of the reads that returned bytes; a read with bytes at the
    end of a run adds its line to the lines of the run and sets the timer
    to its instant; an empty read at the end of a run adds a heartbeat and
    sets the timer when more than 10 seconds have gone by since the timer
    the run left, and changes nothing otherwise. *)
Theorem monitor_heartbeat :
  (forall last now,
      Monitor.step last (Monitor.TkRead "" now)
      = if now - last >? 10 then (now, [Monitor.Heartbeat now]) else (last, []))
  /\ (forall last buf now,
        buf <> "" ->
        Monitor.step last (Monitor.TkRead buf now)
        = (now, [Monitor.Received now (String.length buf)
                   (Monitor.hexstr buf) (Monitor.ascstr buf)]))
  /\ (forall ticks t0,
        Monitor.idle_before 10 t0 (snd (Monitor.monitor_loop ticks t0)))
  /\ (forall ticks t0,
        Monitor.monotone t0 (Monitor.clocks ticks) ->
        Monitor.spaced 10 t0
          (Monitor.heartbeats (snd (Monitor.monitor_loop ticks t0))))
  /\ (forall ticks t0,
        received (snd (Monitor.monitor_loop ticks t0)) = data_lines ticks)
  /\ (forall ticks t0 buf now,
        buf <> "" ->
        Monitor.monitor_loop (ticks ++ [Monitor.TkRead buf now]) t0
        = (now,
           snd (Monitor.monitor_loop ticks t0)
           ++ [Monitor.Received now (String.length buf)
                 (Monitor.hexstr buf) (Monitor.ascstr buf)]))
  /\ (forall ticks t0 now,
        Monitor.monitor_loop (ticks ++ [Monitor.TkRead "" now]) t0
        = if now - fst (Monitor.monitor_loop ticks t0) >? 10
          then (now, snd (Monitor.monitor_loop ticks t0) ++ [Monitor.Heartbeat now])
          else Monitor.monitor_loop ticks t0).
Proof.
  split; [exact MonitorFacts.step_timeout|].
  split; [exact MonitorFacts.step_data|].
  split; [intros; apply MonitorFacts.idle_before_loop|].
  split; [intros ticks t0 Hm; apply MonitorFacts.spaced_loop; [lia | exact Hm]|].
  split; [intros; apply LoopFacts.received_loop|].
  split.
  - intros ticks t0 buf now Hb.
    rewrite RunFacts.monitor_loop_snoc, MonitorFacts.step_data by exact Hb.
    reflexivity.
  - intros ticks t0 now.
    rewrite RunFacts.monitor_loop_snoc, MonitorFacts.step_timeout.
    destruct (now - fst (Monitor.monitor_loop ticks t0) >? 10); cbn [fst snd];
      [reflexivity|].
    rewrite app_nil_r. now destruct (Monitor.monitor_loop ticks t0).
Qed.

Lemma monitor_heartbeat_witness :
  Monitor.step 0 (Monitor.TkRead "A" 3) = (3, [Monitor.Received 3 1 "41" "A"])
  /\ Monitor.spaced 10 0
       (Monitor.heartbeats
          (snd (Monitor.monitor_loop
                  [Monitor.TkRead "" 5; Monitor.TkRead "" 11; Monitor.TkError;
                   Monitor.TkRead "" 12; Monitor.TkRead "A" 20;
                   Monitor.TkRead "" 30; Monitor.TkRead "" 31] 0)))
  /\ Monitor.monitor_loop
       ([Monitor.TkRead "" 5; Monitor.TkRead "" 11] ++ [Monitor.TkRead "A" 20]) 0
     = (20,
        snd (Monitor.monitor_loop [Monitor.TkRead "" 5; Monitor.TkRead "" 11] 0)
        ++ [Monitor.Received 20 1 "41" "A"]).
Proof.
  destruct monitor_heartbeat as (_ & Hdata & _ & Hspaced & _ & Hlast & _).
  split; [|split].
  - apply (Hdata 0 "A" 3). discriminate.
  - apply Hspaced. simpl. lia.
  - apply (Hlast [Monitor.TkRead "" 5; Monitor.TkRead "" 11] 0 "A" 20). discriminate.
Defined.
